(** * Venice model sync: the fetch / cache / normalise pipeline

    A shallow embedding of [scripts/venice_model_sync.py]: the retry
    decorator, the file cache with its two time-to-live bounds, the parser
    that turns one raw catalogue record into a [Model], and the client
    that ties them together.

    Python values decoded from JSON are the type [json]; a Python
    exception is a value of [exn] and code that can raise returns a
    [result].  Code that touches the network, the clock or the cache
    directory is a function on an explicit [World].  Calls to the logger
    are left out: they have no effect on any value the program computes. *)

From Stdlib Require Import ZArith Lia Bool List String Ascii DecimalString.
From Stdlib Require Import Floats.PrimFloat Floats.SpecFloat Floats.FloatOps.
From stdpp Require Import base option list strings gmap fin_maps sorting.

Open Scope string_scope.

(* ===================================================================== *)
(** * Python values, exceptions and results *)
(* ===================================================================== *)

(** What [json.load] and [Response.json] produce.  Python's decoder keeps
    integers apart from floats and accepts NaN and the infinities. *)
#[warnings="-register-all"]
Inductive json :=
| JNull
| JBool (b : bool)
| JInt (z : Z)
| JFloat (f : float)
| JStr (s : string)
| JList (l : list json)
| JDict (d : gmap string json).

(** The exception classes the program meets.  [HTTPError] and
    [RequestException] stand for [requests.exceptions.RequestException] and
    its subclasses, [ValueError] includes [json.JSONDecodeError]. *)
Inductive exn :=
| RetryableError (message : string) (retry_after : option float)
| HTTPError (status : Z)
| RequestException (what : string)
| ValueError (what : string)
| TypeError (what : string)
| AttributeError (what : string)
| OverflowError (what : string)
| OSError (what : string).

Inductive result (A : Type) :=
| Ok (a : A)
| Raise (e : exn).
Arguments Ok {A} a.
Arguments Raise {A} e.

#[global] Instance result_ret : MRet result := @Ok.
#[global] Instance result_bind : MBind result := λ A B f r,
  match r with Ok a => f a | Raise e => Raise e end.

(** [try: body except (classes): handler] for the classes selected by
    [catches]; any other exception goes through. *)
Definition try_except {A} (body : result A) (catches : exn → bool)
    (handler : exn → result A) : result A :=
  match body with
  | Ok a => Ok a
  | Raise e => if catches e then handler e else Raise e
  end.

(** ** Built-in operations on decoded values *)

Definition type_name (v : json) : string :=
  match v with
  | JNull => "NoneType" | JBool _ => "bool" | JInt _ => "int"
  | JFloat _ => "float" | JStr _ => "str" | JList _ => "list"
  | JDict _ => "dict"
  end.

(** Truth value of an object: [None], [False], zero of either numeric
    type, and the empty string, list and dict are false.  NaN is true. *)
Definition truthy (v : json) : bool :=
  match v with
  | JNull => false
  | JBool b => b
  | JInt z => negb (z =? 0)%Z
  | JFloat f => negb (f =? 0)%float
  | JStr s => negb (s =? "")%string
  | JList l => match l with [] => false | _ :: _ => true end
  | JDict d => negb (bool_decide (size d = 0%nat))
  end.

(** [a or b] *)
Definition py_or (a b : json) : json := if truthy a then a else b.

(** [d.get(k)] and [d.get(k, dflt)] on a dict. *)
Definition dict_get (d : gmap string json) (k : string) : json :=
  default JNull (d !! k).
Definition dict_get_default (d : gmap string json) (k : string) (dflt : json) : json :=
  default dflt (d !! k).

(** [v.get(k)] on an arbitrary object: only a dict has the method. *)
Definition obj_get (v : json) (k : string) : result json :=
  match v with
  | JDict d => Ok (dict_get d k)
  | _ => Raise (AttributeError ("'" ++ type_name v ++ "' object has no attribute 'get'"))
  end.

(** [float(n)] for an [int]: the nearest double, ties to even;
    [OverflowError] when that is out of range. *)
Definition float_of_int (z : Z) : result float :=
  match binary_normalize prec emax z 0 false with
  | S754_infinity _ => Raise (OverflowError "int too large to convert to float")
  | sf => Ok (SF2Prim sf)
  end.

(** [int(x)] for a [float]: truncation towards zero. *)
Definition int_of_float (f : float) : result Z :=
  match Prim2SF f with
  | S754_nan => Raise (ValueError "cannot convert float NaN to integer")
  | S754_infinity _ => Raise (OverflowError "cannot convert float infinity to integer")
  | S754_zero _ => Ok 0%Z
  | S754_finite s m e =>
      let a := (if 0 <=? e then Z.pos m * 2 ^ e else Z.pos m / 2 ^ (- e))%Z in
      Ok (if s then (- a)%Z else a)
  end.

Definition Z_of_bool (b : bool) : Z := if b then 1%Z else 0%Z.

(** The two conversions from text are taken from the interpreter:
    [int_of_str s] is [int(s)] and [float_of_str s] is [float(s)], with
    [None] for [ValueError]. *)
Class Builtins := {
  int_of_str : string → option Z;
  float_of_str : string → option float;
}.

Section conversions.
Context `{Builtins}.

(** [int(v)] *)
Definition py_int (v : json) : result Z :=
  match v with
  | JBool b => Ok (Z_of_bool b)
  | JInt z => Ok z
  | JFloat f => int_of_float f
  | JStr s =>
      match int_of_str s with
      | Some z => Ok z
      | None => Raise (ValueError "invalid literal for int() with base 10")
      end
  | _ =>
      Raise (TypeError ("int() argument must be a string, a bytes-like object or a "
                        ++ "real number, not '" ++ type_name v ++ "'"))
  end.

(** [float(v)] *)
Definition py_float (v : json) : result float :=
  match v with
  | JBool b => float_of_int (Z_of_bool b)
  | JInt z => float_of_int z
  | JFloat f => Ok f
  | JStr s =>
      match float_of_str s with
      | Some f => Ok f
      | None => Raise (ValueError "could not convert string to float")
      end
  | _ =>
      Raise (TypeError ("float() argument must be a string or a real number, not '"
                        ++ type_name v ++ "'"))
  end.
End conversions.

(** A Python [str] built by the program.  [str(v)] of a value that is not
    itself a string is kept as the conversion that yields it. *)
Inductive text :=
| Text (s : string)
| StrOf (v : json).

(** [str(v)] *)
Definition py_str (v : json) : text :=
  match v with
  | JStr s => Text s
  | _ => StrOf v
  end.

(* ===================================================================== *)
(** * Formatting helpers *)
(* ===================================================================== *)

Definition decimal (n : Z) : string :=
  DecimalString.NilZero.string_of_uint (N.to_uint (Z.to_N n)).

(** The integer nearest to [m * 2^e * 100], ties to even. *)
Definition hundredths (m : positive) (e : Z) : Z :=
  if (0 <=? e)%Z then (Z.pos m * 100 * 2 ^ e)%Z
  else
    let d := (2 ^ (- e))%Z in
    let q := (Z.pos m * 100 / d)%Z in
    let r := (Z.pos m * 100 mod d)%Z in
    match (2 * r ?= d)%Z with
    | Lt => q
    | Gt => (q + 1)%Z
    | Eq => if Z.even q then q else (q + 1)%Z
    end.

(** [f"{x:.2f}"]: the decimal expansion of the double, correctly rounded
    to two places. *)
Definition format_2f (x : float) : string :=
  match Prim2SF x with
  | S754_nan => "nan"
  | S754_infinity s => if s then "-inf" else "inf"
  | S754_zero s => if s then "-0.00" else "0.00"
  | S754_finite s m e =>
      let n := hundredths m e in
      let frac := (n mod 100)%Z in
      (if s then "-" else "") ++ decimal (n / 100) ++ "."
        ++ (if (frac <? 10)%Z then "0" else "") ++ decimal frac
  end.

(** [format_price]: "Distinguishes None/missing from 0." *)
Definition format_price (usd : option float) : string :=
  match usd with
  | None => "N/A"
  | Some usd =>
      if (usd =? 0)%float then "$0.00/M"
      else "$" ++ format_2f usd ++ "/M"
  end.

(* ===================================================================== *)
(** * The typed model *)
(* ===================================================================== *)

Module ModelCapabilities.
Record t := {
  vision : bool;
  reasoning : bool;
  function_calling : bool;
  web_search : bool;
  code_optimized : bool;
  response_schema : bool;
}.

(** [cls()] *)
Definition none : t :=
  {| vision := false; reasoning := false; function_calling := false;
     web_search := false; code_optimized := false; response_schema := false |}.

Definition from_dict (data : json) : t :=
  match data with
  | JDict data =>
      {| vision := truthy (dict_get data "supportsVision");
         reasoning := truthy (dict_get data "supportsReasoning");
         function_calling := truthy (dict_get data "supportsFunctionCalling");
         web_search := truthy (dict_get data "supportsWebSearch");
         code_optimized := truthy (dict_get data "optimizedForCode");
         response_schema := truthy (dict_get data "supportsResponseSchema") |}
  | _ => none
  end.

(** Return list of enabled capabilities. *)
Definition to_list (self : t) : list string :=
  (if vision self then ["Vision"] else [])
  ++ (if reasoning self then ["Reasoning"] else [])
  ++ (if function_calling self then ["Tools"] else [])
  ++ (if web_search self then ["Web Search"] else [])
  ++ (if code_optimized self then ["Code"] else [])
  ++ (if response_schema self then ["Structured Output"] else []).

(** Return dict for serialization. *)
Definition to_dict (self : t) : gmap string json :=
  {[ "vision" := JBool (vision self);
     "reasoning" := JBool (reasoning self);
     "tools" := JBool (function_calling self);
     "web_search" := JBool (web_search self);
     "code_optimized" := JBool (code_optimized self);
     "response_schema" := JBool (response_schema self) ]}.
End ModelCapabilities.

Definition is_TypeError_or_ValueError (e : exn) : bool :=
  match e with TypeError _ | ValueError _ => true | _ => false end.

Module ModelPricing.
(** [None] is unknown/missing. *)
Record t := {
  input_usd : option float;
  output_usd : option float;
}.

(** [cls()] *)
Definition unknown : t := {| input_usd := None; output_usd := None |}.

Section parse.
Context `{Builtins}.

(** The local function of [from_dict], with the dict it closes over
    as first argument. *)
Definition extract_price (data : gmap string json) (key : string)
    : result (option float) :=
  match dict_get data key with
  | JDict sub =>
      match dict_get sub "usd" with
      | JNull => Ok None
      | val =>
          try_except (usd ← py_float val; Ok (Some usd))
            is_TypeError_or_ValueError (λ _, Ok None)
      end
  | _ => Ok None
  end.

Definition from_dict (data : json) : result t :=
  match data with
  | JDict data =>
      i ← extract_price data "input";
      o ← extract_price data "output";
      Ok {| input_usd := i; output_usd := o |}
  | _ => Ok unknown
  end.
End parse.

Definition to_dict (self : t) : gmap string json :=
  let price (usd : option float) : json :=
    match usd with Some usd => JFloat usd | None => JNull end in
  {[ "input_per_million" := price (input_usd self);
     "output_per_million" := price (output_usd self) ]}.
End ModelPricing.

Module Model.
Record t := {
  id : string;
  name : text;
  model_type : json;
  context_tokens : Z;
  default_temperature : float;
  capabilities : ModelCapabilities.t;
  pricing : ModelPricing.t;
}.

Section parse.
Context `{Builtins}.

(** [dt] when it is an [int] or a [float] (a [bool] is an [int]),
    converted by [float(dt)]; the default 0.7 otherwise. *)
#[warnings="-inexact-float"]
Definition temperature_of (temp_obj : json) : result float :=
  match temp_obj with
  | JDict temp_obj =>
      match dict_get temp_obj "default" with
      | JBool b => float_of_int (Z_of_bool b)
      | JInt z => float_of_int z
      | JFloat f => Ok f
      | _ => Ok 0.7%float
      end
  | _ => Ok 0.7%float
  end.

Definition from_api_response (data : gmap string json) (fallback_type : json)
    : result (option t) :=
  match dict_get data "id" with
  | JStr model_id =>
      if negb (truthy (JStr model_id)) then Ok None else
      let spec := py_or (dict_get data "model_spec") (JDict ∅) in
      let spec := match spec with JDict d => d | _ => ∅ end in
      let model_type := py_or (dict_get data "type") fallback_type in
      context ← try_except
                  (py_int (dict_get_default spec "availableContextTokens" (JInt 32768)))
                  is_TypeError_or_ValueError (λ _, Ok 32768%Z);
      let constraints := py_or (dict_get spec "constraints") (JDict ∅) in
      temperature ← obj_get constraints "temperature";
      let temp_obj := py_or temperature (JDict ∅) in
      default_temp ← temperature_of temp_obj;
      let name := py_str (py_or (dict_get spec "name") (JStr model_id)) in
      let capabilities := ModelCapabilities.from_dict (dict_get spec "capabilities") in
      pricing ← ModelPricing.from_dict (dict_get spec "pricing");
      Ok (Some {| id := model_id; name := name; model_type := model_type;
                  context_tokens := context; default_temperature := default_temp;
                  capabilities := capabilities; pricing := pricing |})
  | _ => Ok None
  end.
End parse.
End Model.

(* ===================================================================== *)
(** * The retry decorator *)
(* ===================================================================== *)

(** [min(a, b)] on floats: the first argument unless the second is
    strictly smaller. *)
Definition py_min (a b : float) : float := if (b <? a)%float then b else a.

(** Truth value of a float: false for 0.0 and -0.0. *)
Definition float_truthy (x : float) : bool := negb (x =? 0)%float.

(** The two [except] clauses of the wrapper.  [Some wait] when one of them
    catches [e], with the value it assigns to [wait]; [None] when [e] is of
    a class neither names. *)
Definition caught_wait (e : exn) (current_delay : float) : option float :=
  match e with
  | RetryableError _ retry_after =>
      Some (match retry_after with
            | Some hint => if float_truthy hint then hint else current_delay
            | None => current_delay
            end)
  | HTTPError _ | RequestException _ | ValueError _ => Some current_delay
  | _ => None
  end.

(** What [time.sleep(secs)] raises before it sleeps, if it raises: the
    wait is turned into a number of nanoseconds that has to fit in 64
    bits, and must not be negative.  The kernel is taken to accept every
    wait that passes this check; one of centuries it may refuse. *)
Definition sleep_error (secs : float) : option exn :=
  if is_nan secs then Some (ValueError "Invalid value NaN (not a number)")
  else
    let ns := (secs * 1000000000)%float in
    if (ns <? -0x1p63)%float || (0x1p63 <? ns)%float
    then Some (OverflowError "timestamp too large to convert to C _PyTime_t")
    else if (ns <? 0)%float || (ns =? 0x1p63)%float
    then Some (ValueError "sleep length must be non-negative")
    else None.

Section retry.
(** The state the wrapped function and [time.sleep] act on; [sleep] is
    what a call of [time.sleep] that returns does to it. *)
Context {W A : Type}.
Variable sleep : float → W → W.
Variables (retries : Z) (delay backoff max_delay : float).
Variable func : W → result A * W.

(** The [for attempt in range(retries + 1)] loop with [n] iterations
    left, followed by the statement after it. *)
Fixpoint attempts (n : nat) (attempt : Z) (current_delay : float)
    (last_exception : option exn) (w : W) : result (option A) * W :=
  match n with
  | O =>
      match last_exception with
      | Some e => (Raise e, w)
      | None => (Ok None, w)
      end
  | S n =>
      match func w with
      | (Ok a, w) => (Ok (Some a), w)
      | (Raise e, w) =>
          match caught_wait e current_delay with
          | None => (Raise e, w)
          | Some wait =>
              if (attempt <? retries)%Z then
                let wait := py_min wait max_delay in
                match sleep_error wait with
                | Some e' => (Raise e', w)
                | None =>
                    let w := sleep wait w in
                    let current_delay :=
                      py_min (current_delay * backoff)%float max_delay in
                    attempts n (attempt + 1)%Z current_delay (Some e) w
                end
              else attempts n (attempt + 1)%Z current_delay (Some e) w
          end
      end
  end.

(** The wrapper the decorator returns.  [Ok None] is the [None] a call
    returns when the loop body never ran. *)
Definition retry_with_backoff : W → result (option A) * W :=
  attempts (Z.to_nat (retries + 1)) 0%Z delay None.
End retry.

Definition DEFAULT_RETRIES : Z := 3.
Definition DEFAULT_RETRY_DELAY : float := 1%float.
Definition DEFAULT_TIMEOUT : Z := 30.
Definition DEFAULT_BASE_URL : string := "https://api.venice.ai/api/v1".
Definition CACHE_FRESH_TTL : Z := 300.
Definition CACHE_STALE_TTL : Z := 86400.

(* ===================================================================== *)
(** * The world outside the program *)
(* ===================================================================== *)

(** A file of the cache directory: its modification time, and what
    opening it and decoding its text gives ([Raise] for a file that cannot
    be read or does not hold a JSON document). *)
Record CacheFile := {
  mtime : float;
  content : result json;
}.

Record Request := {
  url : string;
  params : list (string * string);
  timeout : Z;
}.

(** A [requests.Response].  Header names are kept in lower case, the
    mapping [requests] exposes being case-insensitive; [body] is what
    [Response.json] returns or raises. *)
Record Response := {
  status_code : Z;
  headers : gmap string string;
  body : result json;
}.

Inductive Outcome :=
| Responds (r : Response)
| Fails (e : exn).

(** ** Writing a file *)

(** What the operating system does to the steps of one [atomic_write]:
    which of them fail, what the temporary file holds when the write
    fails, and the name [mkstemp] picks.  [F] is what a file holds. *)
Record Faults_of (F : Type) := {
  mkdir_fails : bool;
  mkstemp_fails : bool;
  write_fails : option F;
  replace_fails : bool;
  unlink_fails : bool;
  tmp_path : string;
}.
Arguments mkdir_fails {F} _.
Arguments mkstemp_fails {F} _.
Arguments write_fails {F} _.
Arguments replace_fails {F} _.
Arguments unlink_fails {F} _.
Arguments tmp_path {F} _.

(** No step fails. *)
Definition accepts {F} (os : Faults_of F) : bool :=
  negb (mkdir_fails os) && negb (mkstemp_fails os)
  && match write_fails os with Some _ => false | None => true end
  && negb (replace_fails os).

(** Write file atomically using temp file + rename, on a directory given
    as what each of its files holds; [created] is what the file that
    [mkstemp] has made holds. *)
Definition atomic_write_on {F} (created : F) (os : Faults_of F) (path : string)
    (content : F) (fs : gmap string F) : result unit * gmap string F :=
  if mkdir_fails os then (Raise (OSError "mkdir"), fs)
  else if mkstemp_fails os then (Raise (OSError "mkstemp"), fs)
  else
    let fs := <[tmp_path os := created]> fs in
    let '(body, fs) :=
      match write_fails os with
      | Some written => (Raise (OSError "write"), <[tmp_path os := written]> fs)
      | None =>
          let fs := <[tmp_path os := content]> fs in
          if replace_fails os then (Raise (OSError "replace"), fs)
          else (Ok (), <[path := content]> (delete (tmp_path os) fs))
      end in
    match body with
    | Ok _ => (Ok (), fs)
    | Raise e =>
        let fs := if unlink_fails os then fs else delete (tmp_path os) fs in
        (Raise e, fs)
    end.

(** [atomic_write(path, content)], a file holding its text. *)
Abbreviation Faults := (Faults_of string).

Definition atomic_write (os : Faults) (path content : string)
    (fs : gmap string string) : result unit * gmap string string :=
  atomic_write_on "" os path content fs.

(** The path with a dot before its last component. *)
Fixpoint has_slash (s : string) : bool :=
  match s with
  | EmptyString => false
  | String c s' => Ascii.eqb c "/" || has_slash s'
  end.

Fixpoint hidden (s : string) : string :=
  match s with
  | EmptyString => "."
  | String c s' => if has_slash s then String c (hidden s') else "." ++ s
  end.

(** The temporary file of a write to [path]: [mkstemp] with
    [dir=path.parent], [prefix=f".{path.name}."] and [suffix=".tmp"] puts
    the characters it has [chosen] between the two.  (Of a relative
    [path] the name stands for the absolute one [mkstemp] returns, which
    is the same file.) *)
Definition temp_name (path chosen : string) : string :=
  hidden path ++ "." ++ chosen ++ ".tmp".

Module World.
(** The clock; the files the program finds, by path; the paths whose
    lookup fails, each with what [Path.exists] raises for it, a name too
    long or a directory that may not be searched (of a path in both maps
    the file is found); what goes wrong with a write, and the characters
    [mkstemp] chooses, which it does so that no file has the name they
    make; the remote server (what the [k]-th call of
    [Session.get] meets); and the record of the requests sent and of the
    sleeps taken so far. *)
Record t := {
  now : float;
  files : gmap string CacheFile;
  blocked : gmap string exn;
  faults : Faults_of CacheFile;
  net : nat → Request → Outcome;
  requests : list Request;
  sleeps : list float;
}.

(** The directory is in order: no path is barred and a write goes
    through. *)
Definition writable (w : t) : bool :=
  accepts (faults w) && bool_decide (blocked w = ∅).

(** What goes wrong with a write to [path]: the temporary file is named
    after [path], and is not made where the lookup of [path] fails. *)
Definition faults_at (path : string) (w : t) : Faults_of CacheFile :=
  {| mkdir_fails := mkdir_fails (faults w);
     mkstemp_fails :=
       match blocked w !! path with
       | Some _ => true
       | None => mkstemp_fails (faults w)
       end;
     write_fails := write_fails (faults w);
     replace_fails := replace_fails (faults w);
     unlink_fails := unlink_fails (faults w);
     tmp_path := temp_name path (tmp_path (faults w)) |}.

Definition with_files (fs : gmap string CacheFile) (w : t) : t :=
  {| now := now w; files := fs; blocked := blocked w; faults := faults w;
     net := net w; requests := requests w; sleeps := sleeps w |}.

(** [time.sleep(x)], for a wait it accepts. *)
Definition sleep (x : float) (w : t) : t :=
  {| now := (now w + x)%float; files := files w; blocked := blocked w;
     faults := faults w; net := net w; requests := requests w;
     sleeps := sleeps w ++ [x] |}.

(** [session.get(url, params=params, timeout=timeout)] *)
Definition send (r : Request) (w : t) : result Response * t :=
  let w' := {| now := now w; files := files w; blocked := blocked w;
               faults := faults w; net := net w; requests := requests w ++ [r];
               sleeps := sleeps w |} in
  match net w (length (requests w)) r with
  | Responds resp => (Ok resp, w')
  | Fails e => (Raise e, w')
  end.
End World.

(** Effectful code: a function of the world that returns or raises. *)
Definition IO (A : Type) : Type := World.t → result A * World.t.

#[global] Instance IO_ret : MRet IO := λ A a w, (Ok a, w).
#[global] Instance IO_bind : MBind IO := λ A B f m w,
  match m w with
  | (Ok a, w) => f a w
  | (Raise e, w) => (Raise e, w)
  end.

(** [try: body except Exception as e: handler(e)] *)
Definition io_try {A} (body : IO A) (handler : exn → IO A) : IO A := λ w,
  match body w with
  | (Ok a, w) => (Ok a, w)
  | (Raise e, w) => handler e w
  end.

(** Pure code run inside effectful code. *)
Definition lift {A} (r : result A) : IO A := λ w, (r, w).

(** ** String helpers *)

Definition lower_ascii (c : ascii) : ascii :=
  let n := nat_of_ascii c in
  if Nat.leb 65 n && Nat.leb n 90 then ascii_of_nat (n + 32) else c.

Fixpoint lower (s : string) : string :=
  match s with
  | EmptyString => EmptyString
  | String c s => String (lower_ascii c) (lower s)
  end.

(** [s.lstrip("/")] and [s.rstrip("/")] *)
Fixpoint lstrip_slash (s : string) : string :=
  match s with
  | String "/" s' => lstrip_slash s'
  | _ => s
  end.

Fixpoint rstrip_slash (s : string) : string :=
  match s with
  | EmptyString => EmptyString
  | String c s' =>
      match c, rstrip_slash s' with
      | "/"%char, EmptyString => EmptyString
      | _, r => String c r
      end
  end.

(** [x <= n] for a float [x] and an int [n]: Python compares the two
    exactly. *)
Definition float_le_int (x : float) (n : Z) : bool :=
  match Prim2SF x with
  | S754_nan => false
  | S754_infinity s => s
  | S754_zero _ => (0 <=? n)%Z
  | S754_finite s m e =>
      let m := if s then Z.neg m else Z.pos m in
      if (0 <=? e)%Z then (m * 2 ^ e <=? n)%Z else (m <=? n * 2 ^ (- e))%Z
  end.

(** ** Paths

    A [pathlib] path on a POSIX system is kept as the string [str] makes
    of it. *)

(** [s.split("/")] *)
Fixpoint split_slash (s : string) : list string :=
  match s with
  | EmptyString => [EmptyString]
  | String c s' =>
      if Ascii.eqb c "/" then EmptyString :: split_slash s'
      else
        match split_slash s' with
        | x :: xs => String c x :: xs
        | [] => [String c EmptyString]
        end
  end.

(** The root of a path given as text: one slash for any number of
    slashes in front, except that two are kept as two. *)
Definition root_of (s : string) : string :=
  match s with
  | String "/" (String "/" (String "/" _)) => "/"
  | String "/" (String "/" _) => "//"
  | String "/" _ => "/"
  | _ => ""
  end.

(** Its components: what stands between the slashes, but for nothing
    and for a single dot. *)
Definition parts_of (s : string) : list string :=
  List.filter (λ x, negb (x =? "")%string && negb (x =? ".")%string) (split_slash s).

(** [PurePosixPath(a) / b]: the root and the components. *)
Definition path_join (a b : string) : string * list string :=
  if negb (root_of b =? "")%string then (root_of b, parts_of b)
  else (root_of a, (parts_of a ++ parts_of b)%list).

Fixpoint join_slash (parts : list string) : string :=
  match parts with
  | [] => ""
  | [x] => x
  | x :: parts => x ++ "/" ++ join_slash parts
  end.

(** [str(path)] *)
Definition path_str (path : string * list string) : string :=
  let s := path.1 ++ join_slash path.2 in
  if (s =? "")%string then "." else s.

(* ===================================================================== *)
(** * The cache *)
(* ===================================================================== *)

Module CacheManager.
Record t := {
  cache_dir : string;
  fresh_ttl : Z;
  stale_ttl : Z;
}.

(** [CacheManager()] with the default arguments; [CACHE_DIR] is given by
    the home directory of the user. *)
Definition init (CACHE_DIR : string) : t :=
  {| cache_dir := CACHE_DIR; fresh_ttl := CACHE_FRESH_TTL;
     stale_ttl := CACHE_STALE_TTL |}.

(** [cache_dir / f"{key}.json"], as a string. *)
Definition _cache_path (self : t) (key : string) : string :=
  path_str (path_join (cache_dir self) (key ++ ".json")).

(** Returns [(data, is_fresh)] or [(None, False)].  [path.exists()]
    stands before the [try]: what it raises leaves the method. *)
Definition get (self : t) (key : string) : IO (json * bool) := λ w,
  let path := _cache_path self key in
  match World.files w !! path with
  | None =>
      match World.blocked w !! path with
      | Some e => (Raise e, w)
      | None => (Ok (JNull, false), w)
      end
  | Some file =>
      io_try
        (let mtime := mtime file in
         let age := (World.now w - mtime)%float in
         data ← lift (content file);
         if float_le_int age (fresh_ttl self) then mret (data, true)
         else if float_le_int age (stale_ttl self) then mret (data, false)
         else mret (JNull, false))
        (λ _, mret (JNull, false)) w
  end.

(** Get stale cache as fallback when API fails; [path.exists()] stands
    before the [try] here too. *)
Definition get_stale (self : t) (key : string) : IO json := λ w,
  let path := _cache_path self key in
  match World.files w !! path with
  | None =>
      match World.blocked w !! path with
      | Some e => (Raise e, w)
      | None => (Ok JNull, w)
      end
  | Some file =>
      io_try
        (let mtime := mtime file in
         let age := (World.now w - mtime)%float in
         if float_le_int age (stale_ttl self) then lift (content file)
         else mret JNull)
        (λ _, mret JNull) w
  end.

(** Store data in cache; any failure is swallowed.  [cache_dir.mkdir]
    and the [path.parent.mkdir] of [atomic_write] fail together.  A file
    holds what reading it gives: [json.dumps] then [json.load] gives the
    data back, and a file just made is empty, which [json.load] does not
    accept. *)
Definition set (self : t) (key : string) (data : json) : IO unit := λ w,
  io_try
    (λ w,
       if mkdir_fails (World.faults w) then (Raise (OSError "mkdir"), w)
       else
         let path := _cache_path self key in
         let content := {| mtime := World.now w; content := Ok data |} in
         let created :=
           {| mtime := World.now w; content := Raise (ValueError "Expecting value") |} in
         let '(r, fs) :=
           atomic_write_on created (World.faults_at path w) path content (World.files w) in
         (r, World.with_files fs w))
    (λ _, mret ()) w.
End CacheManager.

(* ===================================================================== *)
(** * The client *)
(* ===================================================================== *)

Inductive ModelType := TEXT | IMAGE | CODE | ALL.

Definition value (mt : ModelType) : string :=
  match mt with
  | TEXT => "text" | IMAGE => "image" | CODE => "code" | ALL => "all"
  end.

Definition is_ALL (mt : ModelType) : bool :=
  match mt with ALL => true | _ => false end.

(** [resp.raise_for_status()] *)
Definition raise_for_status (resp : Response) : result unit :=
  if (400 <=? status_code resp)%Z && (status_code resp <? 600)%Z
  then Raise (HTTPError (status_code resp))
  else Ok ().

(** [v.get(k, dflt)] on an arbitrary object. *)
Definition obj_get_default (v : json) (k : string) (dflt : json) : result json :=
  match v with
  | JDict d => Ok (dict_get_default d k dflt)
  | _ => Raise (AttributeError ("'" ++ type_name v ++ "' object has no attribute 'get'"))
  end.

(** ["type" not in m], negated. *)
Definition contains_type (m : json) : result bool :=
  match m with
  | JDict d => Ok (bool_decide (is_Some (d !! "type")))
  | JList l =>
      Ok (existsb (λ x, match x with JStr s => (s =? "type")%string | _ => false end) l)
  | JStr s => Ok (bool_decide (is_Some (index 0 "type" s)))
  | _ => Raise (TypeError ("argument of type '" ++ type_name m ++ "' is not iterable"))
  end.

(** [m["_fallback_type"] = v] *)
Definition set_fallback_type (m : json) (v : string) : result json :=
  match m with
  | JDict d => Ok (JDict (<["_fallback_type" := JStr v]> d))
  | JList _ => Raise (TypeError "list indices must be integers or slices, not str")
  | _ => Raise (TypeError ("'" ++ type_name m ++ "' object does not support item assignment"))
  end.

(** One turn of the loop that marks the records of a partition. *)
Definition annotate (v : string) (m : json) : result json :=
  has ← contains_type m;
  if negb has then set_fallback_type m v else Ok m.

(** [for m in fetched: ...].  The records are updated in place, so when a
    turn raises the earlier ones stay updated: the list as the loop leaves
    it, and the exception if one was raised. *)
Fixpoint annotate_all (v : string) (fetched : list json) : list json * option exn :=
  match fetched with
  | [] => ([], None)
  | m :: rest =>
      match annotate v m with
      | Ok m' => let '(rest', err) := annotate_all v rest in (m' :: rest', err)
      | Raise e => (m :: rest, Some e)
      end
  end.

(** [raw.pop("_fallback_type", default_type)]: the value removed, and the
    record without the key. *)
Definition pop_fallback_type (raw : json) (default_type : string)
    : result (json * gmap string json) :=
  match raw with
  | JDict d =>
      Ok (dict_get_default d "_fallback_type" (JStr default_type),
          delete "_fallback_type" d)
  | JList _ => Raise (TypeError "pop expected at most 1 argument, got 2")
  | _ => Raise (AttributeError ("'" ++ type_name raw ++ "' object has no attribute 'pop'"))
  end.

(** The items a [for] loop takes from an object.  A dict gives its keys
    (in the order of the map here, in that of insertion in Python) and a
    string its characters (byte by byte here). *)
Definition py_iter (v : json) : result (list json) :=
  match v with
  | JList l => Ok l
  | JDict d => Ok (JStr <$> (map_to_list d).*1)
  | JStr s => Ok ((λ c, JStr (String c EmptyString)) <$> list_ascii_of_string s)
  | _ => Raise (TypeError ("'" ++ type_name v ++ "' object is not iterable"))
  end.

(** [sorted(models, key=lambda m: m.id)]: a stable sort on the ids, which
    compare as Python strings do (by code point, which is the order of
    their UTF-8 bytes). *)
Fixpoint insert_by_id (m : Model.t) (l : list Model.t) : list Model.t :=
  match l with
  | [] => [m]
  | x :: l' =>
      if (Model.id m <=? Model.id x)%string then m :: l
      else x :: insert_by_id m l'
  end.

Definition sorted_by_id (models : list Model.t) : list Model.t :=
  foldr insert_by_id [] models.

Module VeniceClient.
Record t := {
  base_url : string;
  timeout : Z;
  cache : option CacheManager.t;
}.

Definition init (CACHE_DIR : string) (base_url : string) (timeout : Z)
    (use_cache : bool) : t :=
  {| base_url := rstrip_slash base_url; timeout := timeout;
     cache := if use_cache then Some (CacheManager.init CACHE_DIR) else None |}.

Section methods.
Context `{Builtins}.

(** The function under the decorator. *)
Definition _fetch_once (self : t) (endpoint : string)
    (params : list (string * string)) : IO json :=
  let url := base_url self ++ "/" ++ lstrip_slash endpoint in
  resp ← World.send (Build_Request url params (timeout self));
  if (status_code resp =? 429)%Z then
    let retry_after :=
      match headers resp !! lower "Retry-After" with
      | Some v => float_of_str v
      | None => None
      end in
    lift (Raise (RetryableError "Rate limited (429)" retry_after))
  else
    _ ← lift (raise_for_status resp);
    lift (body resp).

(** [@retry_with_backoff(retries=DEFAULT_RETRIES)] *)
Definition _fetch (self : t) (endpoint : string)
    (params : list (string * string)) : IO json := λ w,
  match retry_with_backoff World.sleep DEFAULT_RETRIES DEFAULT_RETRY_DELAY
          2%float 60%float (_fetch_once self endpoint params) w with
  | (Ok (Some data), w) => (Ok data, w)
  | (Ok None, w) => (Ok JNull, w)
  | (Raise e, w) => (Raise e, w)
  end.

Definition _fetch_models_for_type (self : t) (model_type : string)
    : IO (list json) :=
  io_try
    (data ← _fetch self "models" [("type", model_type)];
     models ← lift (obj_get_default data "data" (JList []));
     match models with
     | JList models => mret models
     | _ => mret []
     end)
    (λ _, mret []).

(** The loop of [_parse_models], [models] being the list built so far. *)
Fixpoint parse_each (raw_models : list json) (default_type : string)
    (models : list Model.t) : result (list Model.t) :=
  match raw_models with
  | [] => Ok models
  | raw :: raw_models =>
      '(fallback, raw) ← pop_fallback_type raw default_type;
      model ← Model.from_api_response raw fallback;
      parse_each raw_models default_type
        (match model with Some m => models ++ [m] | None => models end)
  end.

Definition _parse_models (self : t) (raw_models : json) (model_type : ModelType)
    : result (list Model.t) :=
  let default_type := if negb (is_ALL model_type) then value model_type else "text" in
  items ← py_iter raw_models;
  models ← parse_each items default_type [];
  Ok (sorted_by_id models).

Definition _parse_cached_models (self : t) (cached : json) (model_type : ModelType)
    : result (list Model.t) :=
  _parse_models self cached model_type.

(** The loop over the three partitions when all are asked for:
    [raw_models] as it stands when the loop ends or raises, and the
    exception in the second case. *)
Fixpoint fetch_each (self : t) (types : list ModelType) (raw_models : list json)
    (w : World.t) : (list json * option exn) * World.t :=
  match types with
  | [] => ((raw_models, None), w)
  | mt :: types =>
      match _fetch_models_for_type self (value mt) w with
      | (Raise e, w) => ((raw_models, Some e), w)
      | (Ok fetched, w) =>
          match annotate_all (value mt) fetched with
          | (_, Some e) => ((raw_models, Some e), w)
          | (fetched, None) => fetch_each self types (raw_models ++ fetched) w
          end
      end
  end.

(** The [if]/[else] that opens the [try] statement of [fetch_models]: the
    values of [raw_models] and of the exception, if one was raised, when
    it is left. *)
Definition gather (self : t) (model_type : ModelType) (w : World.t)
    : (list json * option exn) * World.t :=
  if is_ALL model_type then fetch_each self [TEXT; IMAGE; CODE] [] w
  else
    match _fetch_models_for_type self (value model_type) w with
    | (Raise e, w) => (([], Some e), w)
    | (Ok raw_models, w) => (annotate_all (value model_type) raw_models, w)
    end.

(** The [try] statement of [fetch_models]: the values of [raw_models]
    and [fetch_error] after it. *)
Definition try_live_fetch (self : t) (model_type : ModelType) (cache_key : string)
    (w : World.t) : (list json * option exn) * World.t :=
  let '((raw_models, fetch_error), w) := gather self model_type w in
  match fetch_error, cache self with
  | None, Some cache =>
      if truthy (JList raw_models) then
        match CacheManager.set cache cache_key (JList raw_models) w with
        | (Ok _, w) => ((raw_models, None), w)
        | (Raise e, w) => ((raw_models, Some e), w)
        end
      else ((raw_models, None), w)
  | _, _ => ((raw_models, fetch_error), w)
  end.

(** [fetch_models] from the live fetch on. *)
Definition fetch_uncached (self : t) (model_type : ModelType) (cache_key : string)
    : IO (list Model.t) := λ w,
  let '((raw_models, fetch_error), w) := try_live_fetch self model_type cache_key w in
  match cache self with
  | Some cache =>
      if negb (truthy (JList raw_models)) then
        match CacheManager.get_stale cache cache_key w with
        | (Raise e, w) => (Raise e, w)
        | (Ok stale_data, w) =>
            if truthy stale_data then (_parse_models self stale_data model_type, w)
            else
              match fetch_error with
              | Some e => (Raise e, w)
              | None => (_parse_models self (JList raw_models) model_type, w)
              end
        end
      else (_parse_models self (JList raw_models) model_type, w)
  | None => (_parse_models self (JList raw_models) model_type, w)
  end.

Definition fetch_models (self : t) (model_type : ModelType) : IO (list Model.t) := λ w,
  let cache_key := "models_" ++ value model_type in
  match cache self with
  | Some cache =>
      match CacheManager.get cache cache_key w with
      | (Raise e, w) => (Raise e, w)
      | (Ok (cached_data, is_fresh), w) =>
          if truthy cached_data && is_fresh
          then (_parse_cached_models self cached_data model_type, w)
          else fetch_uncached self model_type cache_key w
      end
  | None => fetch_uncached self model_type cache_key w
  end.
End methods.
End VeniceClient.

(* ===================================================================== *)
(** * The interpreter's conversions from text, on ASCII input *)
(* ===================================================================== *)

Module Ascii_builtins.
(** The characters stripped from both ends: tab, line feed, vertical tab,
    form feed, carriage return and space. *)
Definition is_space (c : ascii) : bool :=
  let n := nat_of_ascii c in
  (Nat.leb 9 n && Nat.leb n 13) || Nat.eqb n 32.

Definition strip (cs : list ascii) : list ascii :=
  let drop := fix drop (cs : list ascii) :=
    match cs with
    | c :: cs' => if is_space c then drop cs' else cs
    | [] => []
    end in
  rev (drop (rev (drop cs))).

Definition digit (c : ascii) : option Z :=
  let n := nat_of_ascii c in
  if Nat.leb 48 n && Nat.leb n 57 then Some (Z.of_nat n - 48)%Z else None.

Definition is_digit (c : ascii) : bool :=
  match digit c with Some _ => true | None => false end.

(** The longest run of digits at the front of [cs], an underscore
    being allowed between two digits: its value from [acc] on, how many
    digits it has, and what follows it. *)
Fixpoint digits (cs : list ascii) (acc : Z) (count : nat)
    : Z * nat * list ascii :=
  match cs with
  | c :: cs' =>
      match digit c with
      | Some d =>
          match cs' with
          | "_"%char :: ((c' :: _) as cs'') =>
              if is_digit c' then digits cs'' (acc * 10 + d)%Z (S count)
              else (acc * 10 + d, S count, cs')%Z
          | _ => digits cs' (acc * 10 + d)%Z (S count)
          end
      | None => (acc, count, cs)
      end
  | [] => (acc, count, [])
  end.

(** A sign, if there is one: whether it is a minus, and the rest. *)
Definition sign (cs : list ascii) : bool * list ascii :=
  match cs with
  | "-"%char :: cs' => (true, cs')
  | "+"%char :: cs' => (false, cs')
  | _ => (false, cs)
  end.

(** [int(s)], base ten, with the default limit of 4300 digits. *)
Definition int_of_str (s : string) : option Z :=
  let '(neg, cs) := sign (strip (list_ascii_of_string s)) in
  match digits cs 0 0 with
  | (n, S count, []) =>
      if Nat.leb (S count) 4300 then Some (if neg then (- n)%Z else n) else None
  | _ => None
  end.

(** The double nearest to [n * 10^x], ties to even, for [n] positive;
    an infinity when it is out of range. *)
Definition nearest (neg : bool) (n x : Z) : float :=
  let signed (m : Z) := if neg then (- m)%Z else m in
  if (0 <=? x)%Z then
    SF2Prim (binary_normalize prec emax (signed (n * 10 ^ x)%Z) 0 neg)
  else
    let d := (10 ^ (- x))%Z in
    let s := (Z.log2 d + 64)%Z in
    let q := (n * 2 ^ s / d)%Z in
    let sticky := if (n * 2 ^ s mod d =? 0)%Z then 0%Z else 1%Z in
    SF2Prim (binary_normalize prec emax (signed (2 * q + sticky)%Z) (- (s + 1)) neg).

(** The exponent part of a literal, [e] or [E] having been read. *)
Definition exponent (cs : list ascii) : option Z :=
  let '(neg, cs) := sign cs in
  match digits cs 0 0 with
  | (x, S _, []) => Some (if neg then (- x)%Z else x)
  | _ => None
  end.

(** [float(s)] *)
Definition float_of_str (s : string) : option float :=
  let '(neg, cs) := sign (strip (list_ascii_of_string s)) in
  let word := lower (string_of_list_ascii cs) in
  if (word =? "inf")%string || (word =? "infinity")%string then
    Some (if neg then neg_infinity else infinity)
  else if (word =? "nan")%string then Some nan
  else
    let '(i, ni, cs) := digits cs 0 0 in
    let '(n, nf, cs) :=
      match cs with
      | "."%char :: cs' =>
          let '(n, nf, cs'') := digits cs' i 0 in (n, nf, cs'')
      | _ => (i, O, cs)
      end in
    match (ni + nf)%nat with
    | O => None
    | S _ =>
        let x :=
          match cs with
          | [] => Some 0%Z
          | c :: cs' =>
              if (c =? "e")%char || (c =? "E")%char then exponent cs' else None
          end in
        match x with
        | Some x => Some (nearest neg n (x - Z.of_nat nf))
        | None => None
        end
    end.

End Ascii_builtins.

Definition ascii_builtins : Builtins :=
  {| int_of_str := Ascii_builtins.int_of_str;
     float_of_str := Ascii_builtins.float_of_str |}.


(* ===================================================================== *)
(** * The other functions of the script *)
(* ===================================================================== *)

(** ** Text helpers *)

(** [s.replace(old, new)] for an [old] of one ASCII character.  A string
    is kept as its UTF-8 bytes, among which an ASCII character occurs only
    as itself. *)
Fixpoint replace_char (old : ascii) (new : string) (s : string) : string :=
  match s with
  | EmptyString => EmptyString
  | String c s' =>
      if Ascii.eqb c old then new ++ replace_char old new s'
      else String c (replace_char old new s')
  end.

Definition backslash : ascii := "092"%char.
Definition quote : ascii := "034"%char.
Definition newline : ascii := "010"%char.
Definition carriage_return : ascii := "013"%char.
Definition tab : ascii := "009"%char.

(** A backslash followed by [c]. *)
Definition escaped (c : ascii) : string := String backslash (String c EmptyString).

(** Escape string for YAML double quotes. *)
Definition yaml_escape (s : string) : string :=
  replace_char tab (escaped "t")
    (replace_char carriage_return (escaped "r")
       (replace_char newline (escaped "n")
          (replace_char quote (escaped quote)
             (replace_char backslash (escaped backslash) s)))).

(** [str(n)] for an [int]. *)
Definition str_of_int (n : Z) : string :=
  if (n <? 0)%Z then "-" ++ decimal (- n) else decimal n.

(** The integer nearest to [m * 2^e * 10^places], ties to even. *)
Definition scaled (places : nat) (m : positive) (e : Z) : Z :=
  let unit := (10 ^ Z.of_nat places)%Z in
  if (0 <=? e)%Z then (Z.pos m * unit * 2 ^ e)%Z
  else
    let d := (2 ^ (- e))%Z in
    let q := (Z.pos m * unit / d)%Z in
    let r := (Z.pos m * unit mod d)%Z in
    match (2 * r ?= d)%Z with
    | Lt => q
    | Gt => (q + 1)%Z
    | Eq => if Z.even q then q else (q + 1)%Z
    end.

(** [n] in decimal, with zeros in front up to [width] digits. *)
Definition zero_padded (width : nat) (n : Z) : string :=
  let digits := decimal n in
  string_of_list_ascii (repeat "0"%char (width - String.length digits)) ++ digits.

(** [f"{x:.1f}"], [f"{x:.0f}"] and so on: the decimal expansion of the
    double, correctly rounded to [places] places. *)
Definition format_f (places : nat) (x : float) : string :=
  let fixed (n : Z) : string :=
    match places with
    | O => decimal n
    | S _ =>
        let unit := (10 ^ Z.of_nat places)%Z in
        decimal (n / unit) ++ "." ++ zero_padded places (n mod unit)
    end in
  match Prim2SF x with
  | S754_nan => "nan"
  | S754_infinity s => if s then "-inf" else "inf"
  | S754_zero s => (if s then "-" else "") ++ fixed 0%Z
  | S754_finite s m e => (if s then "-" else "") ++ fixed (scaled places m e)
  end.

(** [n / 10**k] for a positive [n]: the quotient of two [int]s is the
    double nearest to it, and an [OverflowError] when that is out of
    range. *)
Definition true_div_pow10 (n : Z) (k : Z) : result float :=
  let q := Ascii_builtins.nearest false n (- k) in
  match Prim2SF q with
  | S754_infinity _ => Raise (OverflowError "integer division result too large for a float")
  | _ => Ok q
  end.

(** Format token count with K/M suffix. *)
Definition format_tokens (n : Z) : result string :=
  if (1000000 <=? n)%Z then
    millions ← true_div_pow10 n 6; Ok (format_f 1 millions ++ "M")
  else if (1000 <=? n)%Z then
    thousands ← true_div_pow10 n 3; Ok (format_f 0 thousands ++ "K")
  else Ok (str_of_int n).

(** ** The status check *)

(** [len(v)]; a string counts its characters, that is the bytes of its
    UTF-8 form that do not continue a character. *)
Definition py_len (v : json) : result Z :=
  match v with
  | JList l => Ok (Z.of_nat (length l))
  | JDict d => Ok (Z.of_nat (size d))
  | JStr s =>
      Ok (Z.of_nat (length (filter (λ c, negb (Nat.eqb (nat_of_ascii c / 64) 2))
                              (list_ascii_of_string s))))
  | _ => Raise (TypeError ("object of type '" ++ type_name v ++ "' has no len()"))
  end.

(** The dict [get_api_status] returns: ["status": "ok"] with the number of
    models, or ["status": "error"] with the message of the exception, kept
    as the exception itself, and with a ["code"] entry when the exception
    is an [HTTPError]. *)
Inductive ApiStatus :=
| StatusOk (models_available : Z)
| StatusHTTPError (code : option Z) (message : exn)
| StatusError (message : exn).

(** The truth value of a [requests.Response] is its [ok]: whether
    [raise_for_status] lets its status through. *)
Definition status_truthy (status : Z) : bool :=
  negb ((400 <=? status)%Z && (status <? 600)%Z).

Section status.
Context `{Builtins}.

(** Check API status. *)
Definition get_api_status (self : VeniceClient.t) : IO ApiStatus :=
  io_try
    (data ← VeniceClient._fetch self "models" [("type", "text")];
     models ← lift (obj_get_default data "data" (JList []));
     n ← lift (py_len models);
     mret (StatusOk n))
    (λ e,
       match e with
       | HTTPError status =>
           mret (StatusHTTPError (if status_truthy status then Some status else None) e)
       | _ => mret (StatusError e)
       end).
End status.

(* ===================================================================== *)
(** * The vocabulary of the statements *)
(* ===================================================================== *)

(** ** Raw records and entries *)

(** The record has a non-empty string under ["id"]. *)
Definition has_id (data : gmap string json) (model_id : string) : Prop :=
  data !! "id" = Some (JStr model_id) ∧ model_id ≠ "".

(** The dict [from_api_response] reads the specification fields from. *)
Definition spec_of (data : gmap string json) : gmap string json :=
  match py_or (dict_get data "model_spec") (JDict ∅) with
  | JDict d => d
  | _ => ∅
  end.

(** The id under which a raw record yields an entry, if it does. *)
Definition record_id (raw : json) : option string :=
  match raw with
  | JDict d =>
      match d !! "id" with
      | Some (JStr s) => if (s =? "")%string then None else Some s
      | _ => None
      end
  | _ => None
  end.

(** The ids of a result, in its order. *)
Definition ids_of (r : result (list Model.t)) : result (list string) :=
  match r with
  | Ok ms => Ok (Model.id <$> ms)
  | Raise e => Raise e
  end.

(** [a] comes no later than [b] in the order of the ids. *)
Definition id_le (a b : Model.t) : Prop :=
  (Model.id a <=? Model.id b)%string = true.

(** The two prices of an entry, by their key in the pricing of a
    record. *)
Definition price_fields : list (string * (ModelPricing.t → option float)) :=
  [("input", ModelPricing.input_usd); ("output", ModelPricing.output_usd)].

(** ** Failures and waits *)

(** The failures the wrapper catches and retries. *)
Definition retryable (e : exn) : bool :=
  match e with
  | RetryableError _ _ | HTTPError _ | RequestException _ | ValueError _ => true
  | _ => false
  end.

(** The wait a failure asks for, if it carries one. *)
Definition hint (e : exn) : option float :=
  match e with
  | RetryableError _ retry_after => retry_after
  | _ => None
  end.

(** The wait the specification gives for a failure: the hint whenever the
    failure carries one, the current delay otherwise, capped. *)
Definition specified_wait (e : exn) (current_delay max_delay : float) : float :=
  py_min (default current_delay (hint e)) max_delay.

(** The Retry-After header of a response as a hint: what [float] makes of
    it. *)
Definition retry_after_of `{Builtins} (resp : Response) : option float :=
  headers resp !! "retry-after" ≫= float_of_str.

(** The delay after [i] waits. *)
Definition grown (backoff max_delay delay : float) (i : nat) : float :=
  Nat.iter i (λ d, py_min (d * backoff)%float max_delay) delay.

Section retry_states.
Context {W A : Type}.
Variable sleep : float → W → W.
Variables (retries : Z) (delay backoff max_delay : float).
Variable func : W → result A * W.

(** The states of the loop at the start of a turn, from the call of the
    wrapper in [w0] on: turns left, attempt number, current delay, last
    exception and state.  Every turn before has failed with a failure the
    wrapper catches, and [time.sleep] has accepted the wait after it. *)
Inductive reached (w0 : W) : nat → Z → float → option exn → W → Prop :=
| reached_first :
    reached w0 (Z.to_nat (retries + 1)) 0%Z delay None w0
| reached_after_wait n attempt d last w e w' wait :
    reached w0 (S n) attempt d last w →
    func w = (Raise e, w') →
    caught_wait e d = Some wait →
    (attempt < retries)%Z →
    sleep_error (py_min wait max_delay) = None →
    reached w0 n (attempt + 1)%Z (py_min (d * backoff)%float max_delay) (Some e)
      (sleep (py_min wait max_delay) w')
| reached_last n attempt d last w e w' wait :
    reached w0 (S n) attempt d last w →
    func w = (Raise e, w') →
    caught_wait e d = Some wait →
    ¬ (attempt < retries)%Z →
    reached w0 n (attempt + 1)%Z d (Some e) w'.
End retry_states.

(** ** The server and the cache directory *)

(** The server answers no request. *)
Definition unreachable (w : World.t) : Prop :=
  ∀ k r, ∃ e, World.net w k r = Fails e.

(** [w'] has the server and the files of [w], and the same lookups
    fail. *)
Definition same_surroundings (w w' : World.t) : Prop :=
  World.net w' = World.net w ∧ World.files w' = World.files w
  ∧ World.blocked w' = World.blocked w.

(** The world without the file at [path]. *)
Definition forget (path : string) (w : World.t) : World.t :=
  World.with_files (delete path (World.files w)) w.

(** A cache file, or the lack of one, out of which [get_stale] makes no
    data that is true as a condition. *)
Definition unusable (file : option CacheFile) : Prop :=
  ∀ f data, file = Some f → content f = Ok data → truthy data = false.

(** ** Test doubles and scenarios *)

(** A test double for the wrapped function: its state counts the calls
    made and keeps the sleeps taken, and the outcome of a call is given by
    its number. *)
Module Mock.
Record t := {
  calls : nat;
  slept : list float;
}.

Definition start : t := {| calls := 0; slept := [] |}.

Definition sleep (x : float) (w : t) : t :=
  {| calls := calls w; slept := slept w ++ [x] |}.

Definition scripted {A} (script : nat → result A) (w : t) : result A * t :=
  (script (calls w), {| calls := S (calls w); slept := slept w |}).
End Mock.

(** A 429 response with the given Retry-After header. *)
Definition rate_limited (retry_after : string) : Response :=
  {| status_code := 429;
     headers := {[ "retry-after" := retry_after ]};
     body := Raise (ValueError "Expecting value") |}.

(** A 200 response with the given records under ["data"]. *)
Definition catalogue (records : list json) : Response :=
  {| status_code := 200;
     headers := ∅;
     body := Ok (JDict {[ "data" := JList records ]}) |}.

(** A server whose catalogue lists the records in the order given, whatever
    the partition asked for. *)
Definition serving (records : list json) (_ : nat) (_ : Request) : Outcome :=
  Responds (catalogue records).

(** A server that limits the rate twice, then answers. *)
Definition throttling_server (k : nat) (_ : Request) : Outcome :=
  match k with
  | 0 => Responds (rate_limited "0")
  | 1 => Responds (rate_limited "Wed, 21 Oct 2015 07:28:00 GMT")
  | _ => Responds (catalogue [])
  end.

(** A server that refuses every connection. *)
Definition refusing_server (_ : nat) (_ : Request) : Outcome :=
  Fails (RequestException "Connection refused").

(** Nothing goes wrong with a write; [mkstemp] chooses [x1y2z3a4]. *)
Definition no_faults : Faults_of CacheFile :=
  {| mkdir_fails := false; mkstemp_fails := false; write_fails := None;
     replace_fails := false; unlink_fails := false; tmp_path := "x1y2z3a4" |}.

(** A client made by [VeniceClient()] and a machine with an empty cache
    directory, facing the server [net]. *)
Definition home_client : VeniceClient.t :=
  VeniceClient.init "/home/faye/.cache/venice_sync" DEFAULT_BASE_URL DEFAULT_TIMEOUT true.

Definition world_facing (net : nat → Request → Outcome) : World.t :=
  {| World.now := 1700000000; World.files := ∅; World.blocked := ∅;
     World.faults := no_faults;
     World.net := net; World.requests := []; World.sleeps := [] |}.

(** A machine whose cache holds for the text partition a record written
    [age] seconds ago. *)
Definition world_with_record (age : float) (data : json)
    (net : nat → Request → Outcome) : World.t :=
  {| World.now := (1700000000 + age)%float;
     World.files :=
       {[ "/home/faye/.cache/venice_sync/models_text.json" :=
            {| mtime := 1700000000; content := Ok data |} ]};
     World.blocked := ∅;
     World.faults := no_faults;
     World.net := net;
     World.requests := []; World.sleeps := [] |}.

(** A key of 251 letters: with [.json] the name of its file has one
    character more than the 255 a file system takes. *)
Definition long_key : string := Nat.iter 251 (String "k") "".

(** A machine with an empty cache directory on which the lookup of the
    file of [key] fails, the name being too long. *)
Definition name_too_long (cache : CacheManager.t) (key : string)
    (net : nat → Request → Outcome) : World.t :=
  {| World.now := 1700000000; World.files := ∅;
     World.blocked :=
       {[ CacheManager._cache_path cache key := OSError "[Errno 36] File name too long" ]};
     World.faults := no_faults;
     World.net := net; World.requests := []; World.sleeps := [] |}.

(** The record of the end-to-end scenario of the specification. *)
Definition zero_priced_record : gmap string json :=
  {[ "id" := JStr "m1";
     "model_spec" :=
       JDict {[ "pricing" := JDict {[ "input" := JDict {[ "usd" := JInt 0 ]} ]} ]} ]}.

(** ** The run of the wrapper *)

(** What a call of the wrapper makes of the outcome of an invocation that
    ends it. *)
Definition returned {A} (r : result A) : result (option A) :=
  match r with
  | Ok a => Ok (Some a)
  | Raise e => Raise e
  end.

(** The wait after the failure [e] of invocation number [i], counted
    from zero: the hint of the failure when it has one other than zero,
    the delay as grown by the [i] waits before otherwise, capped. *)
Definition scheduled_wait (backoff max_delay delay : float) (i : nat) (e : exn) : float :=
  let current_delay := grown backoff max_delay delay i in
  py_min (match hint e with
          | Some h => if float_truthy h then h else current_delay
          | None => current_delay
          end) max_delay.

(** A function that fails with each of [failures] in turn and then ends
    with [last], as a test double. *)
Definition failing_then {A} (failures : list exn) (last : result A) (i : nat) : result A :=
  match failures !! i with
  | Some e => Raise e
  | None => last
  end.

(** ** Capabilities *)

(** A capability: the flag of the API that grants it, its key in the
    serialized entry and its label in a listing. *)
Definition capability_table : list (string * string * string) :=
  [("supportsVision", "vision", "Vision");
   ("supportsReasoning", "reasoning", "Reasoning");
   ("supportsFunctionCalling", "tools", "Tools");
   ("supportsWebSearch", "web_search", "Web Search");
   ("optimizedForCode", "code_optimized", "Code");
   ("supportsResponseSchema", "response_schema", "Structured Output")].

(** ** The traffic of a run *)

(** From [w] to [w'] the program has sent the requests [rs] and taken
    the sleeps [ss], in this order each; the server is the same, and so
    is what the directory lets the program look up and write. *)
Definition traffic (w w' : World.t) (rs : list Request) (ss : list float) : Prop :=
  World.requests w' = (World.requests w ++ rs)%list
  ∧ World.sleeps w' = (World.sleeps w ++ ss)%list
  ∧ World.net w' = World.net w
  ∧ World.blocked w' = World.blocked w
  ∧ World.faults w' = World.faults w.

(** The partitions a fetch for [model_type] asks the server for. *)
Definition partitions (model_type : ModelType) : list ModelType :=
  if is_ALL model_type then [TEXT; IMAGE; CODE] else [model_type].

(** The request for the models of one partition. *)
Definition models_request (self : VeniceClient.t) (partition : string) : Request :=
  {| url := VeniceClient.base_url self ++ "/models";
     params := [("type", partition)];
     timeout := VeniceClient.timeout self |}.

(** The file that holds what [fetch_models] caches for [model_type]. *)
Definition cache_file_of (cache : CacheManager.t) (model_type : ModelType) : string :=
  CacheManager._cache_path cache ("models_" ++ value model_type).

(** Neither a failure of the transport nor one of the decoding of a body
    is an [HTTPError]: only the status of a response makes one. *)
Definition http_errors_from_status_only (w : World.t) : Prop :=
  ∀ k r status,
    World.net w k r ≠ Fails (HTTPError status)
    ∧ ∀ resp, World.net w k r = Responds resp → body resp ≠ Raise (HTTPError status).

(** The raw records a call of [fetch_models] in [w] can settle on: the
    data of a fresh cache record that is true as a condition, the records
    gathered from the server, or, when none was gathered, the data that
    [get_stale] gives after the attempt, if it is true as a condition. *)
Inductive settled_on `{Builtins} (self : VeniceClient.t) (model_type : ModelType)
    (w : World.t) : json → Prop :=
| settled_on_fresh cache cached_data :
    VeniceClient.cache self = Some cache →
    CacheManager.get cache ("models_" ++ value model_type) w = (Ok (cached_data, true), w) →
    truthy cached_data = true →
    settled_on self model_type w cached_data
| settled_on_live raw_models fetch_error w1 :
    VeniceClient.gather self model_type w = ((raw_models, fetch_error), w1) →
    settled_on self model_type w (JList raw_models)
| settled_on_stale cache fetch_error w1 stale_data :
    VeniceClient.cache self = Some cache →
    VeniceClient.gather self model_type w = (([], fetch_error), w1) →
    CacheManager.get_stale cache ("models_" ++ value model_type) w1 = (Ok stale_data, w1) →
    truthy stale_data = true →
    settled_on self model_type w stale_data.

(** The temporary file of a write to the file of [model_type]. *)
Definition temp_file_of (cache : CacheManager.t) (model_type : ModelType) (w : World.t)
    : string :=
  temp_name (cache_file_of cache model_type) (tmp_path (World.faults w)).


(** ** Text between double quotes *)

(** What a reader of YAML makes of the text between two double quotes,
    for the escapes [yaml_escape] writes: a backslash and the character
    after it stand for one character. *)
Fixpoint yaml_unescape (s : string) : string :=
  match s with
  | EmptyString => EmptyString
  | String c s' =>
      if Ascii.eqb c backslash then
        match s' with
        | String e s'' =>
            String (if Ascii.eqb e "n" then newline
                    else if Ascii.eqb e "r" then carriage_return
                    else if Ascii.eqb e "t" then tab
                    else e)
              (yaml_unescape s'')
        | EmptyString => String c EmptyString
        end
      else String c (yaml_unescape s')
  end.

(** The characters that end or break a line of YAML. *)
Definition breaks_line (c : ascii) : bool :=
  Ascii.eqb c newline || Ascii.eqb c carriage_return || Ascii.eqb c tab.

(** [P] holds of [start], [start + 1], and so on, [count] numbers in
    all. *)
Fixpoint all_from (P : Z → bool) (start : Z) (count : nat) : bool :=
  match count with
  | O => true
  | S count => P start && all_from P (start + 1)%Z count
  end.

(** ** Records that carry their partition *)

(** A record, if it is a dict, has a ["type"] key or the marker of one of
    the partitions [types]. *)
Definition marked (types : list ModelType) (m : json) : Prop :=
  match m with
  | JDict d =>
      is_Some (d !! "type")
      ∨ ∃ p, p ∈ types ∧ d !! "_fallback_type" = Some (JStr (value p))
  | _ => True
  end.

(* ===================================================================== *)
(** * The parser of raw records *)
(* ===================================================================== *)

Lemma bind_Ok {A B} (r : result A) (f : A → result B) (b : B) :
  r ≫= f = Ok b ↔ ∃ a, r = Ok a ∧ f a = Ok b.
Proof.
  destruct r as [a|e]; simpl.
  - split; [eauto | intros (a' & [= ->] & ?); done].
  - split; [done | intros (a' & [=] & _)].
Qed.

Lemma truthy_JStr (s : string) : truthy (JStr s) = true ↔ s ≠ "".
Proof.
  simpl. rewrite negb_true_iff. split.
  - intros Hs ->. by rewrite String.eqb_refl in Hs.
  - intros Hs. by apply String.eqb_neq.
Qed.

Lemma truthy_JDict_lookup (d : gmap string json) (k : string) (v : json) :
  d !! k = Some v → truthy (JDict d) = true.
Proof.
  intros Hk. simpl. rewrite negb_true_iff, bool_decide_eq_false.
  intros Hsize%map_size_empty_iff. by rewrite Hsize, lookup_empty in Hk.
Qed.

Lemma spec_of_dict (data spec : gmap string json) :
  data !! "model_spec" = Some (JDict spec) → spec_of data = spec.
Proof.
  intros Hspec. unfold spec_of, py_or, dict_get. rewrite Hspec. simpl.
  case_bool_decide as Hsize; simpl; [|done].
  by apply map_size_empty_iff in Hsize.
Qed.

Lemma spec_of_missing (data : gmap string json) :
  data !! "model_spec" = None → spec_of data = ∅.
Proof. intros Hspec. unfold spec_of, py_or, dict_get. by rewrite Hspec. Qed.

Section parser_facts.
Context `{Builtins}.

(** The parser on a record that has an id, step by step. *)
Lemma from_api_response_steps (data : gmap string json) (fallback_type : json)
    (model_id : string) :
  has_id data model_id →
  Model.from_api_response data fallback_type =
    (context ← try_except
                 (py_int (dict_get_default (spec_of data) "availableContextTokens"
                            (JInt 32768)))
                 is_TypeError_or_ValueError (λ _, Ok 32768%Z);
     temperature ← obj_get (py_or (dict_get (spec_of data) "constraints") (JDict ∅))
                     "temperature";
     default_temp ← Model.temperature_of (py_or temperature (JDict ∅));
     pricing ← ModelPricing.from_dict (dict_get (spec_of data) "pricing");
     Ok (Some {| Model.id := model_id;
                 Model.name := py_str (py_or (dict_get (spec_of data) "name")
                                         (JStr model_id));
                 Model.model_type := py_or (dict_get data "type") fallback_type;
                 Model.context_tokens := context;
                 Model.default_temperature := default_temp;
                 Model.capabilities :=
                   ModelCapabilities.from_dict (dict_get (spec_of data) "capabilities");
                 Model.pricing := pricing |})).
Proof.
  intros [Hid Hne%truthy_JStr].
  unfold Model.from_api_response. unfold dict_get at 1.
  rewrite Hid. simpl default. cbv iota. by rewrite Hne.
Qed.

(** What the record lacks when the parser answers [None]. *)
Lemma from_api_response_None (data : gmap string json) (fallback_type : json) :
  Model.from_api_response data fallback_type = Ok None
  ↔ ¬ ∃ model_id, has_id data model_id.
Proof.
  split.
  - intros Hnone [model_id Hid].
    rewrite (from_api_response_steps _ _ _ Hid) in Hnone.
    repeat (apply bind_Ok in Hnone as (? & _ & Hnone)). done.
  - intros Hno. unfold Model.from_api_response, dict_get.
    destruct (data !! "id") as [[| | | |s| |]|] eqn:Hid; simpl; try done.
    destruct (String.eqb_spec s "") as [->|Hs]; [done|].
    destruct Hno. by exists s.
Qed.

(** An entry carries the id of the record, and as type the declared one
    when that is true as a condition, the fallback otherwise. *)
Lemma from_api_response_Some (data : gmap string json) (fallback_type : json)
    (m : Model.t) :
  Model.from_api_response data fallback_type = Ok (Some m) →
  has_id data (Model.id m)
  ∧ Model.model_type m = py_or (dict_get data "type") fallback_type.
Proof.
  intros Hm.
  assert (∃ model_id, has_id data model_id) as [model_id Hid].
  { unfold Model.from_api_response, has_id in *. unfold dict_get at 1 in Hm.
    destruct (data !! "id") as [[| | | |s| |]|] eqn:Hid; simpl in Hm; try done.
    destruct (String.eqb_spec s "") as [->|Hs]; [done|]. by exists s. }
  rewrite (from_api_response_steps _ _ _ Hid) in Hm.
  repeat (apply bind_Ok in Hm as (? & _ & Hm)).
  by injection Hm as <-.
Qed.

(** Where the parser raises: a [constraints] field that is true as a
    condition and is not a dict has no [get]. *)
Lemma from_api_response_constraints (data : gmap string json)
    (fallback_type : json) (model_id : string) (c : json) :
  has_id data model_id →
  spec_of data !! "constraints" = Some c →
  truthy c = true →
  (∀ d, c ≠ JDict d) →
  ∃ e, Model.from_api_response data fallback_type = Raise e.
Proof.
  intros Hid Hc Htrue Hnd.
  rewrite (from_api_response_steps _ _ _ Hid).
  destruct (try_except _ _ _) as [ctx|e]; [|by eexists].
  assert (py_or (dict_get (spec_of data) "constraints") (JDict ∅) = c) as ->.
  { unfold py_or, dict_get. rewrite Hc. simpl. by rewrite Htrue. }
  destruct c; try (by eexists). by destruct (Hnd d).
Qed.

(** What [float(val)] raises on an integer out of the range of a double
    is not among the exceptions [extract_price] handles. *)
Lemma extract_price_overflow (data sub : gmap string json) (key : string) (z : Z) (e : exn) :
  data !! key = Some (JDict sub) →
  sub !! "usd" = Some (JInt z) →
  float_of_int z = Raise e →
  ModelPricing.extract_price data key = Raise e.
Proof.
  intros Hkey Husd Hov. unfold ModelPricing.extract_price, dict_get.
  rewrite Hkey. simpl. rewrite Husd. simpl. rewrite Hov. simpl.
  unfold float_of_int in Hov.
  destruct (binary_normalize _ _ _ _ _); by inversion Hov.
Qed.

Lemma from_api_response_pricing (data : gmap string json) (fallback_type : json)
    (m : Model.t) :
  Model.from_api_response data fallback_type = Ok (Some m) →
  ModelPricing.from_dict (dict_get (spec_of data) "pricing") = Ok (Model.pricing m).
Proof.
  intros Hm. destruct (from_api_response_Some _ _ _ Hm) as [Hid _].
  rewrite (from_api_response_steps _ _ _ Hid) in Hm.
  apply bind_Ok in Hm as (ctx & _ & Hm).
  apply bind_Ok in Hm as (temperature & _ & Hm).
  apply bind_Ok in Hm as (default_temp & _ & Hm).
  apply bind_Ok in Hm as (pricing & Hpricing & Hm).
  injection Hm as <-. done.
Qed.

Lemma extract_price_zero (data sub : gmap string json) (key : string) :
  data !! key = Some (JDict sub) →
  sub !! "usd" = Some (JInt 0) →
  ModelPricing.extract_price data key = Ok (Some 0%float).
Proof.
  intros Hkey Husd. unfold ModelPricing.extract_price, dict_get.
  by rewrite Hkey; simpl; rewrite Husd.
Qed.

Lemma extract_price_missing (data : gmap string json) (key : string) :
  data !! key = None → ModelPricing.extract_price data key = Ok None.
Proof.
  intros Hkey. unfold ModelPricing.extract_price, dict_get. by rewrite Hkey.
Qed.
End parser_facts.

Lemma format_price_known (usd : float) : format_price (Some usd) ≠ format_price None.
Proof. unfold format_price. by destruct (usd =? 0)%float. Qed.

(** C2: the parser raises on every record that has an id and whose
    [constraints] is true as a condition without being a dict, a string or
    a list for instance, where the specification has it return an entry
    or nothing for every mapping. *)
Theorem from_api_response_raises `{Builtins} (data spec : gmap string json)
    (fallback_type : string) (model_id : string) (constraints : json) :
  has_id data model_id →
  data !! "model_spec" = Some (JDict spec) →
  spec !! "constraints" = Some constraints →
  truthy constraints = true →
  (∀ d, constraints ≠ JDict d) →
  ∃ e, Model.from_api_response data (JStr fallback_type) = Raise e.
Proof.
  intros Hid Hspec Hc Htrue Hnd.
  apply (from_api_response_constraints data (JStr fallback_type) model_id constraints);
    try done.
  by rewrite (spec_of_dict _ _ Hspec).
Qed.

Lemma from_api_response_raises_witness :
  let spec : gmap string json := {[ "constraints" := JStr "x" ]} in
  let data : gmap string json := {[ "id" := JStr "m1"; "model_spec" := JDict spec ]} in
  Model.from_api_response (H:=ascii_builtins) data (JStr "text")
  = Raise (AttributeError "'str' object has no attribute 'get'")
  ∧ ∃ e, Model.from_api_response (H:=ascii_builtins) data (JStr "text") = Raise e.
Proof.
  intros spec data. split; [reflexivity|].
  apply (from_api_response_raises (H:=ascii_builtins) data spec "text" "m1" (JStr "x")).
  - split; [reflexivity | discriminate].
  - reflexivity.
  - reflexivity.
  - reflexivity.
  - discriminate.
Defined.

(** C7: the parser answers [None] exactly for the records without a
    non-empty string id, and an entry it returns has the declared type when
    that is there and not empty, the fallback otherwise; but a record that
    has an id need not yield an entry: on one with the id "m1", the
    declared type "image" and a list as [constraints] the parser raises,
    where the specification has it return an entry of type "image". *)
Theorem from_api_response_no_entry `{Builtins} :
  (∀ data fallback_type,
     Model.from_api_response data fallback_type = Ok None
     ↔ ¬ ∃ model_id, has_id data model_id)
  ∧ (∀ data fallback_type m,
       Model.from_api_response data fallback_type = Ok (Some m) →
       Model.model_type m = py_or (dict_get data "type") fallback_type)
  ∧ (∀ fallback_type : string,
       let data : gmap string json :=
         {[ "id" := JStr "m1"; "type" := JStr "image";
            "model_spec" := JDict {[ "constraints" := JList [JInt 1] ]} ]} in
       has_id data "m1"
       ∧ py_or (dict_get data "type") (JStr fallback_type) = JStr "image"
       ∧ Model.from_api_response data (JStr fallback_type)
         = Raise (AttributeError "'list' object has no attribute 'get'")).
Proof.
  split; [|split].
  - apply from_api_response_None.
  - intros data fallback_type m Hm. by apply from_api_response_Some in Hm as [_ ?].
  - intros fallback_type. repeat split; done.
Qed.

(** The two prices are extracted one like the other. *)
Lemma from_dict_fields `{Builtins} (pricing : gmap string json) (p : ModelPricing.t)
    (key : string) (field : ModelPricing.t → option float) :
  ModelPricing.from_dict (JDict pricing) = Ok p →
  (key, field) ∈ price_fields →
  ModelPricing.extract_price pricing key = Ok (field p).
Proof.
  intros Hp Hkey. simpl in Hp.
  apply bind_Ok in Hp as (i & Hi & Hp). apply bind_Ok in Hp as (o & Ho & [= <-]).
  unfold price_fields in Hkey.
  apply elem_of_cons in Hkey as [[= -> ->]|Hkey]; [done|].
  apply list_elem_of_singleton in Hkey as [= -> ->]. done.
Qed.

(** C8: each of the two prices of an entry, input and output, is unknown,
    zero or another number, as the record has it.  In every entry made
    from a record whose pricing is a dict, the price is the number under
    ["usd"] in the dict under its key, [{"usd": 0}] giving the price 0.0
    and not unknown, and it is unknown when the key is missing or holds no
    dict, or when ["usd"] is missing or null; when the pricing field is
    missing both prices are unknown.  For the record of the end-to-end
    scenario the input price is 0.0 and the output price unknown.  And
    [format_price] writes "N/A" for unknown and "$0.00/M" for zero, and
    never "N/A" for a known price. *)
Theorem pricing_zero_is_not_unknown `{Builtins} :
  (∀ data fallback_type m pricing key field,
     Model.from_api_response data fallback_type = Ok (Some m) →
     spec_of data !! "pricing" = Some (JDict pricing) →
     (key, field) ∈ price_fields →
     (∀ sub, pricing !! key = Some (JDict sub) → sub !! "usd" = Some (JInt 0) →
             field (Model.pricing m) = Some 0%float)
     ∧ (∀ sub z usd, pricing !! key = Some (JDict sub) → sub !! "usd" = Some (JInt z) →
                     float_of_int z = Ok usd →
                     field (Model.pricing m) = Some usd)
     ∧ (∀ sub usd, pricing !! key = Some (JDict sub) → sub !! "usd" = Some (JFloat usd) →
                   field (Model.pricing m) = Some usd)
     ∧ (∀ sub, pricing !! key = Some (JDict sub) →
               sub !! "usd" = None ∨ sub !! "usd" = Some JNull →
               field (Model.pricing m) = None)
     ∧ ((∀ sub, pricing !! key ≠ Some (JDict sub)) →
        field (Model.pricing m) = None))
  ∧ (∀ data fallback_type m,
       Model.from_api_response data fallback_type = Ok (Some m) →
       spec_of data !! "pricing" = None →
       Model.pricing m = ModelPricing.unknown)
  ∧ (∀ fallback_type, ∃ m,
       Model.from_api_response zero_priced_record fallback_type = Ok (Some m)
       ∧ ModelPricing.input_usd (Model.pricing m) = Some 0%float
       ∧ ModelPricing.output_usd (Model.pricing m) = None)
  ∧ format_price None = "N/A"
  ∧ format_price (Some 0%float) = "$0.00/M"
  ∧ (∀ usd, format_price (Some usd) ≠ format_price None).
Proof.
  split; [|split; [|split; [|split; [|split]]]].
  - intros data fb m pricing key field Hm Hpricing Hkey.
    apply from_api_response_pricing in Hm.
    unfold dict_get in Hm. rewrite Hpricing in Hm. simpl default in Hm.
    pose proof (from_dict_fields pricing _ key field Hm Hkey) as Hfield.
    unfold ModelPricing.extract_price, dict_get in Hfield.
    assert (∀ sub z usd, pricing !! key = Some (JDict sub) → sub !! "usd" = Some (JInt z) →
                         float_of_int z = Ok usd →
                         field (Model.pricing m) = Some usd) as Hint.
    { intros sub z usd Hsub Husd Hz. rewrite Hsub in Hfield. simpl in Hfield.
      rewrite Husd in Hfield. simpl in Hfield. rewrite Hz in Hfield.
      by injection Hfield as <-. }
    split; [|split; [|split; [|split]]].
    + intros sub Hsub Husd. by apply (Hint sub 0%Z).
    + exact Hint.
    + intros sub usd Hsub Husd. rewrite Hsub in Hfield. simpl in Hfield.
      rewrite Husd in Hfield. by injection Hfield as <-.
    + intros sub Hsub Husd. rewrite Hsub in Hfield. simpl in Hfield.
      destruct Husd as [Husd|Husd]; rewrite Husd in Hfield; by injection Hfield as <-.
    + intros Hsub.
      destruct (pricing !! key) as [[| | | | | |sub]|]; simpl in Hfield;
        try (by injection Hfield as <-).
      by destruct (Hsub sub).
  - intros data fb m Hm Hpricing.
    apply from_api_response_pricing in Hm.
    unfold dict_get in Hm. rewrite Hpricing in Hm. by injection Hm.
  - intros fb. eexists. split; [reflexivity|]. done.
  - done.
  - done.
  - apply format_price_known.
Qed.

Lemma pricing_zero_is_not_unknown_witness :
  let pricing : gmap string json :=
    {[ "input" := JDict {[ "usd" := JInt 0 ]};
       "output" := JDict {[ "usd" := JFloat 0x1.8p+1 ]} ]} in
  let spec : gmap string json := {[ "pricing" := JDict pricing ]} in
  let data : gmap string json := {[ "id" := JStr "m1"; "model_spec" := JDict spec ]} in
  let m :=
    {| Model.id := "m1"; Model.name := Text "m1"; Model.model_type := JStr "text";
       Model.context_tokens := 32768; Model.default_temperature := 0x1.6666666666666p-1;
       Model.capabilities := ModelCapabilities.none;
       Model.pricing := {| ModelPricing.input_usd := Some 0%float;
                           ModelPricing.output_usd := Some 3%float |} |} in
  Model.from_api_response (H:=ascii_builtins) data (JStr "text") = Ok (Some m)
  ∧ ModelPricing.input_usd (Model.pricing m) = Some 0%float
  ∧ ModelPricing.output_usd (Model.pricing m) = Some 3%float.
Proof.
  intros pricing spec data m. split; [reflexivity|]. split.
  - apply (proj1 (proj1 (pricing_zero_is_not_unknown (H:=ascii_builtins))
                    data (JStr "text") m pricing "input" ModelPricing.input_usd
                    eq_refl eq_refl ltac:(apply list_elem_of_here))
             {[ "usd" := JInt 0 ]}); reflexivity.
  - apply (proj1 (proj2 (proj2 (proj1 (pricing_zero_is_not_unknown (H:=ascii_builtins))
                                  data (JStr "text") m pricing "output"
                                  ModelPricing.output_usd eq_refl eq_refl
                                  ltac:(apply list_elem_of_further, list_elem_of_here))))
             {[ "usd" := JFloat 0x1.8p+1 ]} 3%float); reflexivity.
Defined.

(* ===================================================================== *)
(** * The retry decorator: attempts, waits and failures *)
(* ===================================================================== *)

Lemma caught_wait_retryable (e : exn) (d : float) :
  retryable e = true → ∃ wait, caught_wait e d = Some wait.
Proof. destruct e; simpl; try done; eauto. Qed.

Lemma caught_wait_not_retryable (e : exn) (d : float) :
  retryable e = false → caught_wait e d = None.
Proof. by destruct e. Qed.

(** With no hint, or with a hint other than zero, the wait is the hint
    if there is one and the current delay if not. *)
Lemma caught_wait_hint (e : exn) (d : float) :
  retryable e = true →
  (∀ h, hint e = Some h → float_truthy h = true) →
  caught_wait e d = Some (default d (hint e)).
Proof.
  destruct e as [msg [h|]| | | | | | |]; simpl; try done.
  intros _ Hh. by rewrite (Hh h).
Qed.

(** A hint of zero is passed over for the current delay. *)
Lemma caught_wait_zero_hint (message : string) (h d : float) :
  float_truthy h = false →
  caught_wait (RetryableError message (Some h)) d = Some d.
Proof. intros Hh. simpl. by rewrite Hh. Qed.

Lemma caught_wait_scheduled (e : exn) (d : float) :
  retryable e = true →
  caught_wait e d
  = Some (match hint e with
          | Some h => if float_truthy h then h else d
          | None => d
          end).
Proof. by destruct e as [msg [h|]| | | | | | |]. Qed.

(** [time.sleep] takes a wait of no more than a minute that is not
    negative. *)
Lemma sleep_error_examples :
  sleep_error 0 = None ∧ sleep_error 1 = None ∧ sleep_error 60 = None
  ∧ sleep_error (-5) = Some (ValueError "sleep length must be non-negative")
  ∧ sleep_error nan = Some (ValueError "Invalid value NaN (not a number)")
  ∧ sleep_error infinity
    = Some (OverflowError "timestamp too large to convert to C _PyTime_t").
Proof. vm_compute. repeat split; reflexivity. Qed.

Section retry_facts.
Context {W A : Type}.
Variable sleep : float → W → W.
Variables (retries : Z) (delay backoff max_delay : float).
Variable func : W → result A * W.

Abbreviation attempts := (attempts sleep retries backoff max_delay func).
Abbreviation retry_with_backoff :=
  (retry_with_backoff sleep retries delay backoff max_delay func).
Abbreviation reached := (reached sleep retries delay backoff max_delay func).

(** The call returns what the loop returns from any state it reaches. *)
Lemma reached_run (w0 : W) n attempt d last w :
  reached w0 n attempt d last w →
  retry_with_backoff w0 = attempts n attempt d last w.
Proof.
  induction 1 as [|n attempt d last w e w' wait _ IH Hf Hc Hlt Hs
                  |n attempt d last w e w' wait _ IH Hf Hc Hge]; [done| |].
  - rewrite IH. simpl. rewrite Hf, Hc, Hs.
    by apply Z.ltb_lt in Hlt as ->.
  - rewrite IH. simpl. rewrite Hf, Hc.
    by apply Z.ltb_nlt in Hge as ->.
Qed.

Lemma reached_count (w0 : W) n attempt d last w :
  (0 ≤ retries)%Z →
  reached w0 n attempt d last w →
  (0 ≤ attempt)%Z ∧ (attempt + Z.of_nat n = retries + 1)%Z.
Proof. intros Hr. induction 1; lia. Qed.

(** At the start of a turn the delay has grown once per wait taken. *)
Lemma reached_delay (w0 : W) n attempt d last w :
  (0 ≤ retries)%Z →
  reached w0 n attempt d last w →
  d = grown backoff max_delay delay (Z.to_nat (Z.min attempt retries)).
Proof.
  intros Hr Hreach.
  induction Hreach as [|n attempt d last w e w' wait Hp IH Hf Hc Hlt Hs
                       |n attempt d last w e w' wait Hp IH Hf Hc Hge].
  - by rewrite Z.min_l by lia.
  - apply reached_count in Hp as [? ?]; [|done].
    rewrite Z.min_l in IH by lia. rewrite Z.min_l by lia.
    replace (Z.to_nat (attempt + 1)) with (S (Z.to_nat attempt)) by lia.
    simpl. by rewrite <- IH.
  - apply reached_count in Hp as [? ?]; [|done].
    rewrite IH. f_equal. lia.
Qed.

(** A failure the wrapper does not catch ends the call in the state the
    failing invocation leaves. *)
Lemma attempts_not_retryable n attempt d last w e w' :
  func w = (Raise e, w') →
  retryable e = false →
  attempts (S n) attempt d last w = (Raise e, w').
Proof.
  intros Hf He. simpl. by rewrite Hf, (caught_wait_not_retryable _ _ He).
Qed.

Lemma attempts_not_caught n attempt d last w e w' :
  func w = (Raise e, w') →
  caught_wait e d = None →
  attempts (S n) attempt d last w = (Raise e, w').
Proof. intros Hf Hc. simpl. by rewrite Hf, Hc. Qed.

(** A caught failure with another attempt to come and a wait that
    [time.sleep] accepts: one wait, then the next turn with the delay
    grown. *)
Lemma attempts_retry n attempt d last w e w' wait :
  func w = (Raise e, w') →
  caught_wait e d = Some wait →
  (attempt < retries)%Z →
  sleep_error (py_min wait max_delay) = None →
  attempts (S n) attempt d last w
  = attempts n (attempt + 1)%Z (py_min (d * backoff)%float max_delay) (Some e)
      (sleep (py_min wait max_delay) w').
Proof.
  intros Hf Hc Hlt Hs. simpl. rewrite Hf, Hc, Hs. by apply Z.ltb_lt in Hlt as ->.
Qed.

(** A caught failure with another attempt to come and a wait that
    [time.sleep] refuses: the call ends with what [time.sleep] raises, in
    the state the failing invocation leaves. *)
Lemma attempts_refused n attempt d last w e w' wait e' :
  func w = (Raise e, w') →
  caught_wait e d = Some wait →
  (attempt < retries)%Z →
  sleep_error (py_min wait max_delay) = Some e' →
  attempts (S n) attempt d last w = (Raise e', w').
Proof.
  intros Hf Hc Hlt Hs. simpl. rewrite Hf, Hc, Hs. by apply Z.ltb_lt in Hlt as ->.
Qed.

(** A caught failure at the last attempt is raised. *)
Lemma attempts_give_up attempt d last w e w' wait :
  func w = (Raise e, w') →
  caught_wait e d = Some wait →
  ¬ (attempt < retries)%Z →
  attempts 1 attempt d last w = (Raise e, w').
Proof.
  intros Hf Hc Hge. simpl. rewrite Hf, Hc. by apply Z.ltb_nlt in Hge as ->.
Qed.

(** A success ends the call. *)
Lemma attempts_success n attempt d last w a w' :
  func w = (Ok a, w') →
  attempts (S n) attempt d last w = (Ok (Some a), w').
Proof. intros Hf. simpl. by rewrite Hf. Qed.

(** A change of the state that the function and the sleep do not see goes
    through the loop unchanged. *)
Lemma attempts_frame (g : W → W) :
  (∀ w, func (g w) = ((func w).1, g (func w).2)) →
  (∀ x w, sleep x (g w) = g (sleep x w)) →
  ∀ n attempt d last w,
    attempts n attempt d last (g w)
    = ((attempts n attempt d last w).1, g (attempts n attempt d last w).2).
Proof.
  intros Hfunc Hsleep. induction n as [|n IH]; intros attempt d last w; simpl.
  - by destruct last.
  - rewrite Hfunc. destruct (func w) as [[a|e] w']; simpl; [done|].
    destruct (caught_wait e d) as [wait|]; [|done].
    destruct (attempt <? retries)%Z; [|apply IH].
    destruct (sleep_error (py_min wait max_delay)); [done|].
    rewrite Hsleep. apply IH.
Qed.

Section counted.
(** A property [inv] of the states the run goes through, and a count
    [calls] of the invocations of [func], kept in the state. *)
Variable inv : W → Prop.
Variable calls : W → nat.
Hypothesis func_counted : ∀ w, inv w → inv (func w).2 ∧ calls (func w).2 = S (calls w).
Hypothesis sleep_counted : ∀ x w, inv w → inv (sleep x w) ∧ calls (sleep x w) = calls w.

(** At the start of attempt number [attempt] the function has been
    invoked [attempt] times. *)
Lemma reached_calls (w0 : W) n attempt d last w :
  inv w0 →
  reached w0 n attempt d last w →
  inv w ∧ (0 ≤ attempt)%Z ∧ calls w = (calls w0 + Z.to_nat attempt)%nat.
Proof.
  intros Hw0.
  induction 1 as [|n attempt d last w e w' wait _ (Hw & ? & IH) Hf _ _ _
                  |n attempt d last w e w' wait _ (Hw & ? & IH) Hf _ _].
  - split; [done|]. split; [done|]. simpl. lia.
  - destruct (func_counted w Hw) as [Hw' Hcalls]. rewrite Hf in Hw', Hcalls.
    simpl in Hw', Hcalls.
    destruct (sleep_counted (py_min wait max_delay) w' Hw') as [? ->].
    split; [done|]. split; lia.
  - destruct (func_counted w Hw) as [Hw' Hcalls]. rewrite Hf in Hw', Hcalls.
    simpl in Hw', Hcalls.
    split; [done|]. split; lia.
Qed.

Hypothesis always_fails : ∀ w, inv w → ∃ e, (func w).1 = Raise e ∧ retryable e = true.
Hypothesis waits_accepted :
  ∀ w e i, inv w → (Z.of_nat i < retries)%Z → (func w).1 = Raise e →
           sleep_error (scheduled_wait backoff max_delay delay i e) = None.

Lemma attempts_exhausted n i last w :
  inv w →
  (Z.of_nat i + Z.of_nat (S n) = retries + 1)%Z →
  ∃ w_last e,
    attempts (S n) (Z.of_nat i) (grown backoff max_delay delay i) last w
    = (Raise e, (func w_last).2)
    ∧ inv w_last
    ∧ (func w_last).1 = Raise e
    ∧ calls (func w_last).2 = (calls w + S n)%nat.
Proof.
  revert i last w. induction n as [|n IH]; intros i last w Hw Hn;
    set (attempt := Z.of_nat i) in *; set (d := grown backoff max_delay delay i).
  - destruct (always_fails w Hw) as (e & Hf & He).
    destruct (caught_wait_retryable e d He) as [wait Hwait].
    destruct (func_counted w Hw) as [_ Hcalls].
    exists w, e.
    simpl. destruct (func w) as [r w'] eqn:Hfw. simpl in *. subst r.
    rewrite Hwait. replace (attempt <? retries)%Z with false by lia.
    split; [done|]. split; [done|]. split; [done|]. lia.
  - destruct (always_fails w Hw) as (e & Hf & He).
    destruct (caught_wait_retryable e d He) as [wait Hwait].
    destruct (func_counted w Hw) as [Hw' Hcalls].
    destruct (func w) as [r w'] eqn:Hfw. simpl in Hf, Hw', Hcalls. subst r.
    destruct (sleep_counted (py_min wait max_delay) w' Hw') as [Hw'' Hcalls'].
    assert (sleep_error (py_min wait max_delay) = None) as Hs.
    { pose proof (waits_accepted w e i Hw ltac:(lia) ltac:(by rewrite Hfw)) as Hs.
      unfold scheduled_wait in Hs. fold d in Hs.
      rewrite (caught_wait_scheduled _ d He) in Hwait. by injection Hwait as <-. }
    rewrite (attempts_retry _ _ _ _ _ _ _ _ Hfw Hwait) by (done || lia).
    replace (attempt + 1)%Z with (Z.of_nat (S i)) by lia.
    change (py_min (d * backoff)%float max_delay) with (grown backoff max_delay delay (S i)).
    destruct (IH (S i) (Some e) (sleep (py_min wait max_delay) w'))
      as (w_last & e' & Hrun & Hinv & Hlast & Hn'); [done|lia|].
    exists w_last, e'. rewrite Hrun. split; [done|]. split; [done|]. split; [done|].
    rewrite Hn', Hcalls'. lia.
Qed.
End counted.
End retry_facts.

(** C5: with [retries = N], a function each invocation of which fails
    with a failure the wrapper catches, after which [time.sleep] accepts
    the wait, is invoked [N + 1] times, and the call then raises the
    failure of the last invocation; a failure of another class, at
    whichever attempt it comes, is raised by the call at once, the function
    having been invoked that number of times and the state left as that
    invocation left it.  Where the code departs from this: after a caught failure
    with an attempt to come whose wait [time.sleep] refuses, a negative
    hint for one, the call ends at once with the exception of
    [time.sleep], not with the failure, and the function is not invoked
    again.  [calls] is any count of its invocations the function keeps in
    the state, [inv] any property the run maintains, such as the server
    being down. *)
Theorem retry_exhaustion_and_propagation {W A : Type}
    (sleep : float → W → W) (retries : Z) (delay backoff max_delay : float)
    (func : W → result A * W) (inv : W → Prop) (calls : W → nat) :
  (0 ≤ retries)%Z →
  (∀ w, inv w → inv (func w).2 ∧ calls (func w).2 = S (calls w)) →
  (∀ x w, inv w → inv (sleep x w) ∧ calls (sleep x w) = calls w) →
  ((∀ w, inv w → ∃ e, (func w).1 = Raise e ∧ retryable e = true) →
   (∀ w e i, inv w → (Z.of_nat i < retries)%Z → (func w).1 = Raise e →
             sleep_error (scheduled_wait backoff max_delay delay i e) = None) →
   ∀ w, inv w →
     ∃ w_last e,
       retry_with_backoff sleep retries delay backoff max_delay func w
         = (Raise e, (func w_last).2)
       ∧ inv w_last
       ∧ (func w_last).1 = Raise e
       ∧ calls (func w_last).2 = (calls w + Z.to_nat (retries + 1))%nat)
  ∧ (∀ w0 n attempt d last w e w',
       inv w0 →
       reached sleep retries delay backoff max_delay func w0 (S n) attempt d last w →
       func w = (Raise e, w') →
       retryable e = false →
       retry_with_backoff sleep retries delay backoff max_delay func w0 = (Raise e, w')
       ∧ calls w' = (calls w0 + Z.to_nat attempt + 1)%nat)
  ∧ (∀ w0 n attempt d last w e w' wait e',
       inv w0 →
       reached sleep retries delay backoff max_delay func w0 (S n) attempt d last w →
       func w = (Raise e, w') →
       caught_wait e d = Some wait →
       (attempt < retries)%Z →
       sleep_error (py_min wait max_delay) = Some e' →
       retry_with_backoff sleep retries delay backoff max_delay func w0 = (Raise e', w')
       ∧ calls w' = (calls w0 + Z.to_nat attempt + 1)%nat).
Proof.
  intros Hretries Hfunc Hsleep.
  assert (∀ w0 n attempt d last w e w',
            inv w0 →
            reached sleep retries delay backoff max_delay func w0 (S n) attempt d last w →
            func w = (Raise e, w') →
            calls w' = (calls w0 + Z.to_nat attempt + 1)%nat) as Hcount.
  { intros w0 n attempt d last w e w' Hw0 Hreach Hf.
    destruct (reached_calls sleep retries delay backoff max_delay func inv calls
                Hfunc Hsleep _ _ _ _ _ _ Hw0 Hreach) as (Hw & _ & Hcalls).
    destruct (Hfunc w Hw) as [_ Hcalls']. rewrite Hf in Hcalls'. simpl in Hcalls'. lia. }
  split; [|split].
  - intros Hfails Hwaits w Hw. unfold retry_with_backoff.
    destruct (Z.to_nat (retries + 1)) as [|n] eqn:Hn; [lia|].
    apply (attempts_exhausted sleep retries delay backoff max_delay func inv calls
             Hfunc Hsleep Hfails Hwaits n 0%nat None w Hw).
    lia.
  - intros w0 n attempt d last w e w' Hw0 Hreach Hf He. split; [|by eapply Hcount].
    rewrite (reached_run _ _ _ _ _ _ _ _ _ _ _ _ Hreach).
    by apply attempts_not_retryable.
  - intros w0 n attempt d last w e w' wait e' Hw0 Hreach Hf Hc Hlt Hs.
    split; [|by eapply Hcount].
    rewrite (reached_run _ _ _ _ _ _ _ _ _ _ _ _ Hreach).
    by eapply attempts_refused.
Qed.

Lemma retry_exhaustion_and_propagation_witness :
  let refused := Mock.scripted (A:=json) (λ _, Raise (RequestException "Connection refused")) in
  let limited :=
    Mock.scripted (A:=json) (λ _, Raise (RetryableError "Rate limited (429)" (Some (-5)%float))) in
  (∃ w_last e,
     retry_with_backoff Mock.sleep 3 1 2 60 refused Mock.start
     = (Raise e, (refused w_last).2)
     ∧ (refused w_last).1 = Raise e
     ∧ Mock.calls (refused w_last).2 = 4%nat)
  ∧ retry_with_backoff Mock.sleep 3 1 2 60 limited Mock.start
    = (Raise (ValueError "sleep length must be non-negative"),
       {| Mock.calls := 1; Mock.slept := [] |}).
Proof.
  intros refused limited. split.
  - assert (∀ w e i, True → (Z.of_nat i < 3)%Z → (refused w).1 = Raise e →
                       sleep_error (scheduled_wait 2 60 1 i e) = None) as Hwaits.
    { intros w e i _ Hi [= <-]. do 3 (destruct i as [|i]; [reflexivity|]). lia. }
    destruct (proj1 (retry_exhaustion_and_propagation Mock.sleep 3 1 2 60 refused
                       (λ _, True) Mock.calls
                       ltac:(done) (λ w _, conj I eq_refl) (λ x w _, conj I eq_refl))
                (λ w _, ex_intro _ _ (conj eq_refl eq_refl)) Hwaits Mock.start I)
      as (w_last & e & Hrun & _ & Hlast & Hcalls).
    by exists w_last, e.
  - apply (proj2 (proj2 (retry_exhaustion_and_propagation Mock.sleep 3 1 2 60 limited
                           (λ _, True) Mock.calls
                           ltac:(done) (λ w _, conj I eq_refl) (λ x w _, conj I eq_refl)))
             Mock.start 3%nat 0%Z 1%float None Mock.start
             (RetryableError "Rate limited (429)" (Some (-5)%float))
             {| Mock.calls := 1; Mock.slept := [] |} (-5)%float
             (ValueError "sleep length must be non-negative") I
             (reached_first Mock.sleep 3 1 2 60 limited Mock.start)
             eq_refl eq_refl ltac:(done) eq_refl).
Defined.

Section fetch_once_facts.
Context `{Builtins}.

Lemma _fetch_once_429 (self : VeniceClient.t) (endpoint : string)
    (params : list (string * string)) (w : World.t) (resp : Response) :
  (World.send (Build_Request (VeniceClient.base_url self ++ "/" ++ lstrip_slash endpoint)
                 params (VeniceClient.timeout self)) w).1 = Ok resp →
  status_code resp = 429%Z →
  (VeniceClient._fetch_once self endpoint params w).1
  = Raise (RetryableError "Rate limited (429)" (retry_after_of resp)).
Proof.
  intros Hsend Hstatus. unfold VeniceClient._fetch_once.
  unfold mbind, IO_bind.
  destruct (World.send _ w) as [[r|e] w'] eqn:Hs; simpl in Hsend; [|done].
  injection Hsend as ->. rewrite Hstatus. simpl.
  unfold retry_after_of. by destruct (headers resp !! _).
Qed.
End fetch_once_facts.

(** C6, as the code has it: after a caught failure that carries no hint
    or a hint other than zero, and with a further attempt to come, the
    wrapper asks [time.sleep] for the hint if there is one and for the
    current delay if not, capped by [max_delay]; when [time.sleep] accepts
    that wait the wrapper sleeps it and goes on with the current delay
    multiplied by [backoff] and capped, and when it refuses there is no
    further attempt: the call ends with what [time.sleep] raises.  A 429
    response gives as hint the number [float] reads from its Retry-After
    header, and none when the header is missing or is not such a
    number. *)
Theorem wait_between_attempts `{Builtins} :
  (∀ (W A : Type) (sleep : float → W → W) (retries : Z) (backoff max_delay : float)
     (func : W → result A * W) n attempt current_delay last w e w',
     func w = (Raise e, w') →
     retryable e = true →
     (attempt < retries)%Z →
     (∀ h, hint e = Some h → float_truthy h = true) →
     match sleep_error (specified_wait e current_delay max_delay) with
     | None =>
         attempts sleep retries backoff max_delay func (S n) attempt current_delay last w
         = attempts sleep retries backoff max_delay func n (attempt + 1)%Z
             (py_min (current_delay * backoff)%float max_delay) (Some e)
             (sleep (specified_wait e current_delay max_delay) w')
     | Some e' =>
         attempts sleep retries backoff max_delay func (S n) attempt current_delay last w
         = (Raise e', w')
     end)
  ∧ (∀ self endpoint params w resp,
       (World.send (Build_Request (VeniceClient.base_url self ++ "/" ++ lstrip_slash endpoint)
                      params (VeniceClient.timeout self)) w).1 = Ok resp →
       status_code resp = 429%Z →
       (VeniceClient._fetch_once self endpoint params w).1
       = Raise (RetryableError "Rate limited (429)" (retry_after_of resp)))
  ∧ (∀ x w, World.sleeps (World.sleep x w) = (World.sleeps w ++ [x])%list).
Proof.
  split; [|split].
  - intros W A sleep retries backoff max_delay func n attempt d last w e w'
      Hf He Hlt Hhint.
    pose proof (caught_wait_hint e d He Hhint) as Hc.
    destruct (sleep_error (specified_wait e d max_delay)) as [e'|] eqn:Hs.
    + by eapply attempts_refused.
    + by apply attempts_retry.
  - apply _fetch_once_429.
  - done.
Qed.

Lemma wait_between_attempts_witness :
  let e := RetryableError "Rate limited (429)" (Some 5%float) in
  let func := Mock.scripted (A:=json) (λ _, Raise e) in
  attempts Mock.sleep 3 2 60 func 4 0 1 None Mock.start
  = attempts Mock.sleep 3 2 60 func 3 1 2 (Some e)
      {| Mock.calls := 1; Mock.slept := [5%float] |}.
Proof.
  intros e func.
  apply (proj1 (wait_between_attempts (H:=ascii_builtins)) Mock.t json Mock.sleep 3%Z
           2%float 60%float func 3%nat 0%Z 1%float None Mock.start e
           {| Mock.calls := 1; Mock.slept := [] |});
    [reflexivity | reflexivity | reflexivity |].
  intros h [= <-]. reflexivity.
Defined.

(** C6 fails on the code: the first response is a 429 whose Retry-After is
    0, the failure carries the hint 0.0 and the specified wait is 0.0,
    yet the wrapper sleeps the current delay, 1.0; the second is a 429 with
    a Retry-After header that is a date, and the failure carries no
    hint. *)
Lemma retry_after_zero_or_date :
  let params := [("type", "text")] in
  let w0 := world_facing throttling_server in
  let first := VeniceClient._fetch_once (H:=ascii_builtins) home_client "models" params w0 in
  let second :=
    VeniceClient._fetch_once (H:=ascii_builtins) home_client "models" params
      (World.sleep 1 first.2) in
  let run := VeniceClient._fetch (H:=ascii_builtins) home_client "models" params w0 in
  first.1 = Raise (RetryableError "Rate limited (429)" (Some 0%float))
  ∧ specified_wait (RetryableError "Rate limited (429)" (Some 0%float)) 1 60 = 0%float
  ∧ World.sleeps run.2 = [1%float; 2%float]
  ∧ (1 =? 0)%float = false
  ∧ second.1 = Raise (RetryableError "Rate limited (429)" None)
  ∧ run.1 = Ok (JDict {[ "data" := JList [] ]}).
Proof. vm_compute. repeat split; reflexivity. Qed.

(* ===================================================================== *)
(** * The cache: fresh, stale, expired *)
(* ===================================================================== *)

Lemma float_le_int_mono (x : float) (n n' : Z) :
  (n ≤ n')%Z → float_le_int x n = true → float_le_int x n' = true.
Proof.
  unfold float_le_int. intros Hn.
  destruct (Prim2SF x) as [| | |s m e]; try done.
  - rewrite !Z.leb_le. lia.
  - destruct (0 <=? e)%Z; rewrite !Z.leb_le; [lia|].
    intros Hm. etrans; [exact Hm|].
    apply Z.mul_le_mono_nonneg_r; [|done].
    apply Z.pow_nonneg. lia.
Qed.

Section cache_facts.
Variables (self : CacheManager.t) (key : string) (w : World.t).

Lemma get_missing :
  World.files w !! CacheManager._cache_path self key = None →
  World.blocked w !! CacheManager._cache_path self key = None →
  CacheManager.get self key w = (Ok (JNull, false), w).
Proof. intros Hf Hb. unfold CacheManager.get. by rewrite Hf, Hb. Qed.

Lemma get_stale_missing :
  World.files w !! CacheManager._cache_path self key = None →
  World.blocked w !! CacheManager._cache_path self key = None →
  CacheManager.get_stale self key w = (Ok JNull, w).
Proof. intros Hf Hb. unfold CacheManager.get_stale. by rewrite Hf, Hb. Qed.

(** Where the lookup of the path fails, the failure leaves the read. *)
Lemma get_blocked (e : exn) :
  World.files w !! CacheManager._cache_path self key = None →
  World.blocked w !! CacheManager._cache_path self key = Some e →
  CacheManager.get self key w = (Raise e, w).
Proof. intros Hf Hb. unfold CacheManager.get. by rewrite Hf, Hb. Qed.

Lemma get_stale_blocked (e : exn) :
  World.files w !! CacheManager._cache_path self key = None →
  World.blocked w !! CacheManager._cache_path self key = Some e →
  CacheManager.get_stale self key w = (Raise e, w).
Proof. intros Hf Hb. unfold CacheManager.get_stale. by rewrite Hf, Hb. Qed.

Lemma get_unreadable (file : CacheFile) (e : exn) :
  World.files w !! CacheManager._cache_path self key = Some file →
  content file = Raise e →
  CacheManager.get self key w = (Ok (JNull, false), w).
Proof.
  intros Hf Hc. unfold CacheManager.get. rewrite Hf.
  unfold io_try, mbind, IO_bind, lift. by rewrite Hc.
Qed.

Lemma get_stale_unreadable (file : CacheFile) (e : exn) :
  World.files w !! CacheManager._cache_path self key = Some file →
  content file = Raise e →
  CacheManager.get_stale self key w = (Ok JNull, w).
Proof.
  intros Hf Hc. unfold CacheManager.get_stale. rewrite Hf.
  unfold io_try, lift. rewrite Hc. by destruct (float_le_int _ _).
Qed.

(** What [get] answers on a file that decodes to [data]. *)
Lemma get_readable (file : CacheFile) (data : json) :
  World.files w !! CacheManager._cache_path self key = Some file →
  content file = Ok data →
  let age := (World.now w - mtime file)%float in
  CacheManager.get self key w =
    (Ok (if float_le_int age (CacheManager.fresh_ttl self) then (data, true)
         else if float_le_int age (CacheManager.stale_ttl self) then (data, false)
         else (JNull, false)), w).
Proof.
  intros Hf Hc age. unfold CacheManager.get. rewrite Hf.
  unfold io_try, mbind, IO_bind, lift. rewrite Hc. fold age.
  by repeat destruct (float_le_int _ _).
Qed.

Lemma get_stale_readable (file : CacheFile) (data : json) :
  World.files w !! CacheManager._cache_path self key = Some file →
  content file = Ok data →
  let age := (World.now w - mtime file)%float in
  CacheManager.get_stale self key w =
    (Ok (if float_le_int age (CacheManager.stale_ttl self) then data else JNull), w).
Proof.
  intros Hf Hc age. unfold CacheManager.get_stale. rewrite Hf.
  unfold io_try, lift. rewrite Hc. fold age.
  by destruct (float_le_int _ _).
Qed.

(** Where the lookup of the path does not fail, neither read raises. *)
Lemma get_returns :
  World.blocked w !! CacheManager._cache_path self key = None →
  ∃ r, CacheManager.get self key w = (Ok r, w).
Proof.
  intros Hb.
  destruct (World.files w !! CacheManager._cache_path self key) as [file|] eqn:Hf.
  - destruct (content file) as [data|e] eqn:Hc.
    + eexists. by apply get_readable.
    + eexists. by eapply get_unreadable.
  - eexists. by apply get_missing.
Qed.

Lemma get_stale_returns :
  World.blocked w !! CacheManager._cache_path self key = None →
  ∃ r, CacheManager.get_stale self key w = (Ok r, w).
Proof.
  intros Hb.
  destruct (World.files w !! CacheManager._cache_path self key) as [file|] eqn:Hf.
  - destruct (content file) as [data|e] eqn:Hc.
    + eexists. by apply get_stale_readable.
    + eexists. by eapply get_stale_unreadable.
  - eexists. by apply get_stale_missing.
Qed.

(** A read changes nothing, however it ends. *)
Lemma get_state : (CacheManager.get self key w).2 = w.
Proof.
  unfold CacheManager.get.
  destruct (World.files w !! _) as [file|]; [|by destruct (World.blocked w !! _)].
  unfold io_try, mbind, IO_bind, lift. destruct (content file); simpl; [|done].
  by repeat destruct (float_le_int _ _).
Qed.

Lemma get_stale_state : (CacheManager.get_stale self key w).2 = w.
Proof.
  unfold CacheManager.get_stale.
  destruct (World.files w !! _) as [file|]; [|by destruct (World.blocked w !! _)].
  unfold io_try, lift. destruct (float_le_int _ _); [|done]. by destruct (content file).
Qed.
End cache_facts.

(** C4: for a record that holds [D], of an age at most the fresh TTL
    [get] gives [(D, True)]; of an age above it and at most the stale TTL
    [get] gives [(D, False)] and [get_stale] gives [D]; of an age above
    the stale TTL, or when the file cannot be read or decoded, or is
    missing where the lookup of the path does not fail, [get] gives
    [(None, False)] and [get_stale] gives [None].  Where the code raises:
    when the lookup of the path fails, [path.exists()] standing before the
    [try], both [get] and [get_stale] raise the failure.  The fresh TTL is
    at most the stale one. *)
Theorem cache_aging (self : CacheManager.t) (key : string) (w : World.t) :
  (CacheManager.fresh_ttl self ≤ CacheManager.stale_ttl self)%Z →
  let path := CacheManager._cache_path self key in
  (∀ file D,
     World.files w !! path = Some file →
     content file = Ok D →
     let age := (World.now w - mtime file)%float in
     (float_le_int age (CacheManager.fresh_ttl self) = true →
      CacheManager.get self key w = (Ok (D, true), w))
     ∧ (float_le_int age (CacheManager.fresh_ttl self) = false →
        float_le_int age (CacheManager.stale_ttl self) = true →
        CacheManager.get self key w = (Ok (D, false), w)
        ∧ CacheManager.get_stale self key w = (Ok D, w))
     ∧ (float_le_int age (CacheManager.stale_ttl self) = false →
        CacheManager.get self key w = (Ok (JNull, false), w)
        ∧ CacheManager.get_stale self key w = (Ok JNull, w)))
  ∧ (World.files w !! path = None →
     World.blocked w !! path = None →
     CacheManager.get self key w = (Ok (JNull, false), w)
     ∧ CacheManager.get_stale self key w = (Ok JNull, w))
  ∧ (∀ file e,
       World.files w !! path = Some file →
       content file = Raise e →
       CacheManager.get self key w = (Ok (JNull, false), w)
       ∧ CacheManager.get_stale self key w = (Ok JNull, w))
  ∧ (∀ e,
       World.files w !! path = None →
       World.blocked w !! path = Some e →
       CacheManager.get self key w = (Raise e, w)
       ∧ CacheManager.get_stale self key w = (Raise e, w)).
Proof.
  intros Httl path. split; [|split; [|split]].
  - intros file D Hf Hc age.
    pose proof (get_readable self key w file D Hf Hc) as Hget.
    pose proof (get_stale_readable self key w file D Hf Hc) as Hstale.
    simpl in Hget, Hstale. fold age in Hget, Hstale.
    split; [|split].
    + intros Hfresh. by rewrite Hget, Hfresh.
    + intros Hfresh Hst. by rewrite Hget, Hstale, Hfresh, Hst.
    + intros Hst. rewrite Hget, Hstale, Hst.
      destruct (float_le_int age (CacheManager.fresh_ttl self)) eqn:Hfresh; [|done].
      by rewrite (float_le_int_mono _ _ _ Httl Hfresh) in Hst.
  - intros Hf Hb. split; [by apply get_missing | by apply get_stale_missing].
  - intros file e Hf Hc.
    split; [by eapply get_unreadable | by eapply get_stale_unreadable].
  - intros e Hf Hb. split; [by apply get_blocked | by apply get_stale_blocked].
Qed.

Lemma cache_aging_witness :
  let self := CacheManager.init "/home/faye/.cache/venice_sync" in
  let data := JList [JDict {[ "id" := JStr "m1" ]}] in
  let w := world_with_record 3600 data refusing_server in
  let too_long := name_too_long self long_key refusing_server in
  (CacheManager.get self "models_text" w = (Ok (data, false), w)
   ∧ CacheManager.get_stale self "models_text" w = (Ok data, w))
  ∧ CacheManager.get self long_key too_long
    = (Raise (OSError "[Errno 36] File name too long"), too_long)
  ∧ CacheManager.get_stale self long_key too_long
    = (Raise (OSError "[Errno 36] File name too long"), too_long).
Proof.
  intros self data w too_long. split.
  - refine (proj1 (proj2 (proj1 (cache_aging self "models_text" w _)
                            {| mtime := 1700000000; content := Ok data |} data _ _)) _ _);
      [done | reflexivity | reflexivity | reflexivity | reflexivity].
  - refine (proj2 (proj2 (proj2 (cache_aging self long_key too_long _))) _ _ _);
      [done | reflexivity | reflexivity].
Defined.

(* ===================================================================== *)
(** * The result of a fetch: order and repetitions *)
(* ===================================================================== *)

Lemma string_leb_trans (a b c : string) :
  (a <=? b)%string = true → (b <=? c)%string = true → (a <=? c)%string = true.
Proof.
  unfold String.leb. revert b c.
  induction a as [|x a IH]; intros [|y b] [|z c]; simpl; try done.
  unfold Ascii.compare.
  destruct (N.compare_spec (N_of_ascii x) (N_of_ascii y)) as [Hxy|Hxy|Hxy];
    destruct (N.compare_spec (N_of_ascii y) (N_of_ascii z)) as [Hyz|Hyz|Hyz];
    destruct (N.compare_spec (N_of_ascii x) (N_of_ascii z)) as [Hxz|Hxz|Hxz];
    try done; try lia.
  apply IH.
Qed.

#[local] Instance id_le_trans : Transitive id_le.
Proof. intros a b c. apply string_leb_trans. Qed.

Lemma id_le_total (a b : Model.t) : id_le a b ∨ id_le b a.
Proof. apply String.leb_total. Qed.

Lemma insert_by_id_perm (m : Model.t) (l : list Model.t) :
  insert_by_id m l ≡ₚ m :: l.
Proof.
  induction l as [|x l IH]; simpl; [done|].
  destruct (_ <=? _)%string; [done|].
  by rewrite IH, Permutation_swap.
Qed.

Lemma insert_by_id_sorted (m : Model.t) (l : list Model.t) :
  StronglySorted id_le l → StronglySorted id_le (insert_by_id m l).
Proof.
  induction 1 as [|x l Hl IH Hx]; simpl.
  - by repeat constructor.
  - destruct (Model.id m <=? Model.id x)%string eqn:Hmx.
    + constructor; [by constructor|].
      constructor; [done|].
      eapply Forall_impl; [exact Hx|]. intros y Hy. by trans x.
    + constructor; [done|].
      rewrite insert_by_id_perm. constructor; [|done].
      destruct (id_le_total m x) as [Hle|Hle]; [|done].
      unfold id_le in Hle. congruence.
Qed.

Lemma sorted_by_id_sorted (l : list Model.t) : StronglySorted id_le (sorted_by_id l).
Proof.
  induction l as [|m l IH]; simpl; [constructor|].
  by apply insert_by_id_sorted.
Qed.

Lemma sorted_by_id_perm (l : list Model.t) : sorted_by_id l ≡ₚ l.
Proof.
  induction l as [|m l IH]; simpl; [done|].
  by rewrite insert_by_id_perm, IH.
Qed.

(** The sort is stable: the entries of one id keep their order. *)
Lemma insert_by_id_filter (s : string) (m : Model.t) (l : list Model.t) :
  StronglySorted id_le l →
  filter (λ x, Model.id x = s) (insert_by_id m l)
  = filter (λ x, Model.id x = s) (m :: l).
Proof.
  induction 1 as [|x l Hl IH Hx]; simpl; [done|].
  destruct (Model.id m <=? Model.id x)%string eqn:Hmx; [done|].
  rewrite (filter_cons _ x (insert_by_id m l)), IH, !filter_cons.
  destruct (decide (Model.id x = s)) as [Hxs|]; [|done].
  destruct (decide (Model.id m = s)) as [Hms|]; [|done].
  rewrite Hxs, Hms in Hmx.
  destruct (String.leb_total s s) as [Hs|Hs]; congruence.
Qed.

Lemma sorted_by_id_stable (s : string) (l : list Model.t) :
  filter (λ x, Model.id x = s) (sorted_by_id l) = filter (λ x, Model.id x = s) l.
Proof.
  induction l as [|m l IH]; simpl; [done|].
  rewrite insert_by_id_filter by apply sorted_by_id_sorted.
  by rewrite !filter_cons, IH.
Qed.

Section parse_facts.
Context `{Builtins}.

Lemma parse_each_ids (items : list json) (default_type : string)
    (models ms : list Model.t) :
  VeniceClient.parse_each items default_type models = Ok ms →
  Model.id <$> ms = ((Model.id <$> models) ++ omap record_id items)%list.
Proof.
  revert models. induction items as [|raw items IH]; intros models; simpl.
  - intros [= <-]. by rewrite app_nil_r.
  - intros Hms.
    apply bind_Ok in Hms as ([fallback d] & Hpop & Hms).
    apply bind_Ok in Hms as (model & Hmodel & Hms).
    apply IH in Hms. rewrite Hms.
    destruct raw as [| | | | | |d0]; try done.
    injection Hpop as <- <-. simpl.
    destruct model as [m|].
    + destruct (from_api_response_Some _ _ _ Hmodel) as [[Hid Hne] _].
      rewrite lookup_delete_ne in Hid by done. rewrite Hid.
      apply String.eqb_neq in Hne as ->.
      by rewrite fmap_app, <- app_assoc.
    + apply from_api_response_None in Hmodel.
      destruct (d0 !! "id") as [[| | | |s| |]|] eqn:Hid; try done.
      destruct (String.eqb_spec s "") as [->|Hs]; [done|].
      destruct Hmodel. exists s. split; [|done].
      by rewrite lookup_delete_ne.
Qed.

(** The ids of the entries are those of the raw records that have one,
    in some order; none is dropped. *)
Lemma _parse_models_ids (self : VeniceClient.t) (raw_models : json)
    (model_type : ModelType) (ms : list Model.t) :
  VeniceClient._parse_models self raw_models model_type = Ok ms →
  ∃ items, py_iter raw_models = Ok items
           ∧ Model.id <$> ms ≡ₚ omap record_id items.
Proof.
  unfold VeniceClient._parse_models. intros Hms.
  apply bind_Ok in Hms as (items & Hitems & Hms).
  apply bind_Ok in Hms as (models & Hmodels & [= <-]).
  exists items. split; [done|].
  apply parse_each_ids in Hmodels. simpl in Hmodels.
  by rewrite sorted_by_id_perm, Hmodels.
Qed.

Lemma _parse_models_sorted (self : VeniceClient.t) (raw_models : json)
    (model_type : ModelType) (ms : list Model.t) :
  VeniceClient._parse_models self raw_models model_type = Ok ms →
  StronglySorted id_le ms.
Proof.
  unfold VeniceClient._parse_models. intros Hms.
  apply bind_Ok in Hms as (items & Hitems & Hms).
  apply bind_Ok in Hms as (models & Hmodels & [= <-]).
  apply sorted_by_id_sorted.
Qed.

(** Whatever [fetch_models] returns, [_parse_models] made it, out of
    the raw records of the cache or of the live fetch. *)
Lemma fetch_uncached_parsed (self : VeniceClient.t) (model_type : ModelType)
    (cache_key : string) (w w' : World.t) (ms : list Model.t) :
  VeniceClient.fetch_uncached self model_type cache_key w = (Ok ms, w') →
  ∃ raw_models, VeniceClient._parse_models self raw_models model_type = Ok ms.
Proof.
  unfold VeniceClient.fetch_uncached.
  destruct (VeniceClient.try_live_fetch _ _ _ _) as [[raw_models fetch_error] w1].
  destruct (VeniceClient.cache self) as [cache|]; [|intros [= <- _]; eauto].
  destruct (negb _); [|intros [= <- _]; eauto].
  destruct (CacheManager.get_stale _ _ _) as [[stale_data|e] w2]; [|done].
  destruct (truthy stale_data); [intros [= <- _]; eauto|].
  destruct fetch_error; [done|]. intros [= <- _]; eauto.
Qed.

Lemma fetch_models_parsed (self : VeniceClient.t) (model_type : ModelType)
    (w w' : World.t) (ms : list Model.t) :
  VeniceClient.fetch_models self model_type w = (Ok ms, w') →
  ∃ raw_models, VeniceClient._parse_models self raw_models model_type = Ok ms.
Proof.
  unfold VeniceClient.fetch_models.
  destruct (VeniceClient.cache self) as [cache|]; [|apply fetch_uncached_parsed].
  destruct (CacheManager.get _ _ _) as [[[cached_data is_fresh]|e] w1]; [|done].
  destruct (_ && _); [|apply fetch_uncached_parsed].
  unfold VeniceClient._parse_cached_models. intros [= <- _]; eauto.
Qed.
End parse_facts.

(** C9: the list a fetch returns is the work of [_parse_models] on the raw
    records the fetch settled on, whatever the state of the world, and its
    ids are in ascending order. *)
Theorem fetch_models_sorted `{Builtins} (self : VeniceClient.t) (model_type : ModelType)
    (w w' : World.t) (ms : list Model.t) :
  VeniceClient.fetch_models self model_type w = (Ok ms, w') →
  (∃ raw_models, VeniceClient._parse_models self raw_models model_type = Ok ms)
  ∧ StronglySorted id_le ms.
Proof.
  intros Hms. destruct (fetch_models_parsed _ _ _ _ _ Hms) as [raw Hraw].
  split; [eauto|]. by eapply _parse_models_sorted.
Qed.

Lemma fetch_models_sorted_witness :
  let w := world_facing (serving [JDict {[ "id" := JStr "zeta" ]};
                                  JDict {[ "id" := JStr "alpha" ]}]) in
  ∃ ms w',
    VeniceClient.fetch_models (H:=ascii_builtins) home_client TEXT w = (Ok ms, w')
    ∧ Model.id <$> ms = ["alpha"; "zeta"]
    ∧ StronglySorted id_le ms.
Proof.
  intros w. eexists. eexists.
  split; [vm_compute; reflexivity|].
  split; [reflexivity|].
  eapply (fetch_models_sorted (H:=ascii_builtins) home_client TEXT w).
  vm_compute. reflexivity.
Defined.

(** C3 fails on the code: the same record listed under the three
    partitions comes back three times when all partitions are asked for. *)
Lemma same_id_under_each_partition :
  let w := world_facing (serving [JDict {[ "id" := JStr "m1" ]}]) in
  match (VeniceClient.fetch_models (H:=ascii_builtins) home_client ALL w).1 with
  | Ok ms =>
      Model.id <$> ms = ["m1"; "m1"; "m1"]
      ∧ Model.model_type <$> ms = [JStr "text"; JStr "image"; JStr "code"]
      ∧ ¬ NoDup (Model.id <$> ms)
  | Raise _ => False
  end.
Proof.
  vm_compute. split; [reflexivity|]. split; [reflexivity|].
  intros Hnd. inversion Hnd as [|? ? Hin _]. apply Hin. left.
Qed.


(* ===================================================================== *)
(** * The network side and the cache files *)
(* ===================================================================== *)

Lemma with_files_same (w : World.t) : World.with_files (World.files w) w = w.
Proof. by destruct w. Qed.

(** The network side of the program does not look at the cache files. *)
Section frame.
Context `{Builtins}.
Variable fs : gmap string CacheFile.

Lemma send_frame (r : Request) (w : World.t) :
  World.send r (World.with_files fs w)
  = ((World.send r w).1, World.with_files fs (World.send r w).2).
Proof. unfold World.send. simpl. by destruct (World.net w _ r). Qed.

Lemma _fetch_once_frame (self : VeniceClient.t) (endpoint : string)
    (params : list (string * string)) (w : World.t) :
  VeniceClient._fetch_once self endpoint params (World.with_files fs w)
  = ((VeniceClient._fetch_once self endpoint params w).1,
     World.with_files fs (VeniceClient._fetch_once self endpoint params w).2).
Proof.
  unfold VeniceClient._fetch_once, mbind, IO_bind. rewrite send_frame.
  destruct (World.send _ w) as [[resp|e] w']; simpl; [|done].
  destruct (status_code resp =? 429)%Z; [done|].
  unfold lift. by destruct (raise_for_status resp).
Qed.

Lemma _fetch_frame (self : VeniceClient.t) (endpoint : string)
    (params : list (string * string)) (w : World.t) :
  VeniceClient._fetch self endpoint params (World.with_files fs w)
  = ((VeniceClient._fetch self endpoint params w).1,
     World.with_files fs (VeniceClient._fetch self endpoint params w).2).
Proof.
  unfold VeniceClient._fetch, retry_with_backoff.
  rewrite (attempts_frame World.sleep _ _ _ _ (World.with_files fs))
    by (try done; apply _fetch_once_frame).
  by destruct (attempts _ _ _ _ _ _ _ _ _ w) as [[[a|]|e] w'].
Qed.

Lemma _fetch_models_for_type_frame (self : VeniceClient.t) (model_type : string)
    (w : World.t) :
  VeniceClient._fetch_models_for_type self model_type (World.with_files fs w)
  = ((VeniceClient._fetch_models_for_type self model_type w).1,
     World.with_files fs (VeniceClient._fetch_models_for_type self model_type w).2).
Proof.
  unfold VeniceClient._fetch_models_for_type, io_try, mbind, IO_bind.
  rewrite _fetch_frame.
  destruct (VeniceClient._fetch _ _ _ w) as [[data|e] w']; simpl; [|done].
  unfold lift. destruct (obj_get_default _ _ _) as [models|e]; simpl; [|done].
  by destruct models.
Qed.

Lemma fetch_each_frame (self : VeniceClient.t) (types : list ModelType)
    (raw_models : list json) (w : World.t) :
  VeniceClient.fetch_each self types raw_models (World.with_files fs w)
  = ((VeniceClient.fetch_each self types raw_models w).1,
     World.with_files fs (VeniceClient.fetch_each self types raw_models w).2).
Proof.
  revert raw_models w. induction types as [|mt types IH]; intros raw_models w; simpl.
  - done.
  - rewrite _fetch_models_for_type_frame.
    destruct (VeniceClient._fetch_models_for_type _ _ w) as [[fetched|e] w']; simpl; [|done].
    destruct (annotate_all _ fetched) as [fetched' [e|]]; [done|]. apply IH.
Qed.

Lemma gather_frame (self : VeniceClient.t) (model_type : ModelType) (w : World.t) :
  VeniceClient.gather self model_type (World.with_files fs w)
  = ((VeniceClient.gather self model_type w).1,
     World.with_files fs (VeniceClient.gather self model_type w).2).
Proof.
  unfold VeniceClient.gather. destruct (is_ALL model_type).
  - apply fetch_each_frame.
  - rewrite _fetch_models_for_type_frame.
    by destruct (VeniceClient._fetch_models_for_type _ _ w) as [[fetched|e] w'].
Qed.
End frame.


(* ===================================================================== *)
(** * Strings *)
(* ===================================================================== *)

Lemma append_assoc (a b c : string) : (a ++ b) ++ c = a ++ (b ++ c).
Proof.
  induction a as [|x a IH]; [done|].
  change ((String x a ++ b) ++ c) with (String x ((a ++ b) ++ c)). by rewrite IH.
Qed.

Lemma append_nil_r (a : string) : a ++ "" = a.
Proof.
  induction a as [|x a IH]; [done|].
  change (String x a ++ "") with (String x (a ++ "")). by rewrite IH.
Qed.

Lemma append_inv_head (a b c : string) : a ++ b = a ++ c → b = c.
Proof. induction a as [|x a IH]; simpl; [done|]. intros [= ?]. by apply IH. Qed.

Lemma length_append (a b : string) :
  String.length (a ++ b) = (String.length a + String.length b)%nat.
Proof. induction a as [|x a IH]; simpl; [done|]. by rewrite IH. Qed.

Lemma append_inv_tail (a b c : string) : a ++ c = b ++ c → a = b.
Proof.
  revert b. induction a as [|x a IH]; intros [|y b] Heq.
  - done.
  - apply (f_equal String.length) in Heq.
    rewrite !length_append in Heq. simpl in Heq. lia.
  - apply (f_equal String.length) in Heq.
    rewrite !length_append in Heq. simpl in Heq. lia.
  - injection Heq as -> Heq. f_equal. by apply IH.
Qed.


(* ===================================================================== *)
(** * The cache: paths and writes *)
(* ===================================================================== *)



Lemma length_hidden (path : string) :
  String.length (hidden path) = S (String.length path).
Proof.
  induction path as [|c path IH]; [done|].
  change (hidden (String c path))
    with (if has_slash (String c path) then String c (hidden path)
          else "." ++ String c path).
  destruct (has_slash (String c path)); simpl; by rewrite ?IH.
Qed.

(** The temporary file is not the file itself. *)
Lemma temp_name_neq (path chosen : string) : temp_name path chosen ≠ path.
Proof.
  intros Heq. apply (f_equal String.length) in Heq. unfold temp_name in Heq.
  rewrite !length_append, length_hidden in Heq. lia.
Qed.





(** [pathlib] drops a slash that is doubled and a component that is a
    dot, so that two keys can have one file; and a key that begins with a
    slash has its file outside the cache directory. *)
Lemma _cache_path_examples :
  let self := CacheManager.init "/home/faye/.cache/venice_sync" in
  CacheManager._cache_path self "models_text"
  = "/home/faye/.cache/venice_sync/models_text.json"
  ∧ CacheManager._cache_path self "a//b" = CacheManager._cache_path self "a/b"
  ∧ CacheManager._cache_path self "./a/b" = CacheManager._cache_path self "a/b"
  ∧ CacheManager._cache_path self "/etc/x" = "/etc/x.json"
  ∧ CacheManager._cache_path self "a/../b" = "/home/faye/.cache/venice_sync/a/../b.json"
  ∧ CacheManager._cache_path self "" = "/home/faye/.cache/venice_sync/.json"
  ∧ CacheManager._cache_path (CacheManager.init "") "a" = "a.json"
  ∧ CacheManager._cache_path (CacheManager.init "//h") "a" = "//h/a.json"
  ∧ CacheManager._cache_path (CacheManager.init "///") "k" = "/k.json"
  ∧ temp_name "/home/faye/.cache/venice_sync/models_text.json" "x1y2z3a4"
    = "/home/faye/.cache/venice_sync/.models_text.json.x1y2z3a4.tmp".
Proof. vm_compute. repeat split; reflexivity. Qed.



(** What a write does: nothing but to the files, and there to the file of
    the key, which stays as it is or holds the data, and to the temporary
    file. *)
Lemma set_files (self : CacheManager.t) (key : string) (data : json) (w : World.t) :
  let path := CacheManager._cache_path self key in
  let tmp := temp_name path (tmp_path (World.faults w)) in
  ∃ fs,
    CacheManager.set self key data w = (Ok (), World.with_files fs w)
    ∧ (∀ p, p ≠ path → p ≠ tmp → fs !! p = World.files w !! p)
    ∧ (fs !! path = World.files w !! path
       ∨ fs !! path = Some {| mtime := World.now w; content := Ok data |})
    ∧ (World.files w !! tmp = None → unlink_fails (World.faults w) = false →
       fs !! tmp = None).
Proof.
  intros path tmp.
  pose proof (temp_name_neq path (tmp_path (World.faults w))) as Hne. fold tmp in Hne.
  assert (CacheManager.set self key data w = (Ok (), World.with_files (World.files w) w)
          → ∃ fs,
              CacheManager.set self key data w = (Ok (), World.with_files fs w)
              ∧ (∀ p, p ≠ path → p ≠ tmp → fs !! p = World.files w !! p)
              ∧ (fs !! path = World.files w !! path
                 ∨ fs !! path = Some {| mtime := World.now w; content := Ok data |})
              ∧ (World.files w !! tmp = None → unlink_fails (World.faults w) = false →
                 fs !! tmp = None)) as Hsame.
  { intros Hset. exists (World.files w). split; [done|]. split; [done|].
    split; [by left|done]. }
  unfold CacheManager.set, io_try, atomic_write_on, World.faults_at in *.
  fold path in Hsame |- *. simpl in Hsame |- *. fold tmp in Hsame |- *.
  destruct (mkdir_fails (World.faults w)); [apply Hsame; by rewrite with_files_same|].
  destruct (World.blocked w !! path); [apply Hsame; by rewrite with_files_same|].
  destruct (mkstemp_fails (World.faults w)); [apply Hsame; by rewrite with_files_same|].
  clear Hsame.
  destruct (write_fails (World.faults w)) as [written|];
    [|destruct (replace_fails (World.faults w))];
    destruct (unlink_fails (World.faults w)); simpl;
    (eexists; split; [reflexivity|]);
    (split; [intros p Hp Hp'; by simplify_map_eq|]);
    (split; [first [by left; simplify_map_eq | by right; simplify_map_eq]|]);
    intros Hnone Hunlink; by simplify_map_eq.
Qed.

(** A write never raises, and changes nothing but the files. *)
Lemma set_returns (self : CacheManager.t) (key : string) (data : json) (w : World.t) :
  ∃ fs, CacheManager.set self key data w = (Ok (), World.with_files fs w).
Proof. destruct (set_files self key data w) as (fs & Hset & _). by exists fs. Qed.

(** A write the directory accepts. *)
Lemma set_accepted (self : CacheManager.t) (key : string) (data : json) (w : World.t) :
  World.writable w = true →
  ∃ fs,
    CacheManager.set self key data w = (Ok (), World.with_files fs w)
    ∧ fs !! CacheManager._cache_path self key
      = Some {| mtime := World.now w; content := Ok data |}.
Proof.
  unfold World.writable, accepts. intros Hw.
  apply andb_true_iff in Hw as [Hw Hb]. apply bool_decide_eq_true in Hb.
  apply andb_true_iff in Hw as [Hw Hreplace].
  apply andb_true_iff in Hw as [Hw Hwrite].
  apply andb_true_iff in Hw as [Hmkdir Hmkstemp].
  apply negb_true_iff in Hmkdir, Hmkstemp, Hreplace.
  unfold CacheManager.set, io_try, atomic_write_on, World.faults_at. simpl.
  rewrite Hmkdir, Hb, lookup_empty, Hmkstemp, Hreplace.
  destruct (write_fails (World.faults w)); [done|]. simpl.
  eexists. split; [reflexivity|]. by rewrite lookup_insert_eq.
Qed.

(** X4: what is written is read back.  After a write that the directory
    accepts, [get] for the same key gives the data written, as fresh, and
    [get_stale] gives it too, the age of the record being zero; zero has to
    be within the two TTLs. *)
Theorem cache_set_then_get (self : CacheManager.t) (key : string) (data : json)
    (w : World.t) :
  World.writable w = true →
  float_le_int (World.now w - World.now w)%float (CacheManager.fresh_ttl self) = true →
  float_le_int (World.now w - World.now w)%float (CacheManager.stale_ttl self) = true →
  let w' := (CacheManager.set self key data w).2 in
  CacheManager.get self key w' = (Ok (data, true), w')
  ∧ CacheManager.get_stale self key w' = (Ok data, w').
Proof.
  intros Hw Hfresh Hstale w'. subst w'.
  destruct (set_accepted self key data w Hw) as (fs & -> & Hfs). simpl. split.
  - rewrite (get_readable self key (World.with_files fs w) _ data Hfs eq_refl).
    simpl. by rewrite Hfresh.
  - rewrite (get_stale_readable self key (World.with_files fs w) _ data Hfs eq_refl).
    simpl. by rewrite Hstale.
Qed.

Lemma cache_set_then_get_witness :
  let self := CacheManager.init "/home/faye/.cache/venice_sync" in
  let data := JList [JDict {[ "id" := JStr "m1" ]}] in
  let w' := (CacheManager.set self "models_text" data (world_facing refusing_server)).2 in
  CacheManager.get self "models_text" w' = (Ok (data, true), w')
  ∧ CacheManager.get_stale self "models_text" w' = (Ok data, w').
Proof.
  intros self data.
  apply (cache_set_then_get self "models_text" data (world_facing refusing_server));
    reflexivity.
Defined.


(* ===================================================================== *)
(** * The client: what a fetch sends, and what it writes *)
(* ===================================================================== *)

Lemma traffic_refl (w : World.t) : traffic w w [] [].
Proof. unfold traffic. by rewrite !app_nil_r. Qed.

Lemma traffic_trans (w1 w2 w3 : World.t) rs ss rs' ss' :
  traffic w1 w2 rs ss → traffic w2 w3 rs' ss' →
  traffic w1 w3 (rs ++ rs')%list (ss ++ ss')%list.
Proof.
  intros (Hr & Hs & Hn & Hb & Hf) (Hr' & Hs' & Hn' & Hb' & Hf'). unfold traffic.
  rewrite Hr', Hr, Hs', Hs, Hn', Hn, Hb', Hb, Hf', Hf, !app_assoc. done.
Qed.

(** No wait is above the cap. *)
Lemma py_min_capped (wait max_delay : float) :
  (max_delay <? max_delay)%float = false →
  (max_delay <? py_min wait max_delay)%float = false.
Proof. intros Hcap. unfold py_min. by destruct (max_delay <? wait)%float eqn:Hlt. Qed.

Lemma sleep_traffic (x : float) (w : World.t) : traffic w (World.sleep x w) [] [x].
Proof. unfold traffic. simpl. by rewrite app_nil_r. Qed.

Lemma set_traffic (self : CacheManager.t) (key : string) (data : json) (w : World.t) :
  traffic w (CacheManager.set self key data w).2 [] [].
Proof.
  destruct (set_returns self key data w) as [fs ->].
  unfold traffic. simpl. by rewrite !app_nil_r.
Qed.

(** What the directory lets the program write is the same after a run. *)
Lemma traffic_writable (w w' : World.t) rs ss :
  traffic w w' rs ss → World.writable w' = World.writable w.
Proof. intros (_ & _ & _ & Hb & Hf). unfold World.writable. by rewrite Hb, Hf. Qed.

Section traffic_facts.
Context `{Builtins}.

(** One invocation of the wrapped function is one request. *)
Lemma _fetch_once_traffic (self : VeniceClient.t) (endpoint : string)
    (params : list (string * string)) (w : World.t) :
  traffic w (VeniceClient._fetch_once self endpoint params w).2
    [Build_Request (VeniceClient.base_url self ++ "/" ++ lstrip_slash endpoint) params
       (VeniceClient.timeout self)] [].
Proof.
  unfold VeniceClient._fetch_once, mbind, IO_bind, World.send.
  destruct (World.net w _ _) as [resp|e]; simpl.
  - destruct (status_code resp =? 429)%Z; simpl.
    + unfold traffic. simpl. by rewrite app_nil_r.
    + unfold lift. destruct (raise_for_status resp); simpl;
        unfold traffic; simpl; by rewrite app_nil_r.
  - unfold traffic. simpl. by rewrite app_nil_r.
Qed.

Lemma attempts_traffic (self : VeniceClient.t) (endpoint : string)
    (params : list (string * string)) (retries : Z) (backoff max_delay : float)
    n attempt d last (w : World.t) :
  (max_delay <? max_delay)%float = false →
  (attempt + Z.of_nat (S n) = retries + 1)%Z →
  ∃ k ss,
    (1 ≤ k ≤ S n)%nat ∧ (length ss + 1 = k)%nat
    ∧ Forall (λ x, (max_delay <? x)%float = false) ss
    ∧ traffic w
        (attempts World.sleep retries backoff max_delay
           (VeniceClient._fetch_once self endpoint params) (S n) attempt d last w).2
        (replicate k
           (Build_Request (VeniceClient.base_url self ++ "/" ++ lstrip_slash endpoint)
              params (VeniceClient.timeout self))) ss.
Proof.
  intros Hcap.
  revert attempt d last w. induction n as [|n IH]; intros attempt d last w Hcount;
    pose proof (_fetch_once_traffic self endpoint params w) as Hone;
    destruct (VeniceClient._fetch_once self endpoint params w) as [[a|e] w'] eqn:Hf;
    simpl in Hone.
  - exists 1%nat, []. split; [lia|]. split; [done|]. split; [constructor|].
    simpl. by rewrite Hf.
  - exists 1%nat, []. split; [lia|]. split; [done|]. split; [constructor|].
    simpl. rewrite Hf.
    destruct (caught_wait e d); [|done].
    by replace (attempt <? retries)%Z with false by lia.
  - exists 1%nat, []. split; [lia|]. split; [done|]. split; [constructor|].
    by rewrite (attempts_success _ _ _ _ _ _ _ _ _ _ _ _ Hf).
  - destruct (caught_wait e d) as [wait|] eqn:Hc;
      [destruct (sleep_error (py_min wait max_delay)) as [e'|] eqn:Hs|].
    + exists 1%nat, []. split; [lia|]. split; [done|]. split; [constructor|].
      assert (attempt < retries)%Z as Hlt by lia.
      by rewrite (attempts_refused _ _ _ _ _ _ _ _ _ _ _ _ _ _ Hf Hc Hlt Hs).
    + rewrite (attempts_retry _ _ _ _ _ _ _ _ _ _ _ _ _ Hf Hc) by (done || lia).
      destruct (IH (attempt + 1)%Z (py_min (d * backoff)%float max_delay) (Some e)
                  (World.sleep (py_min wait max_delay) w'))
        as (k & ss & Hk & Hss & Hcapped & Htraffic); [lia|].
      exists (S k), (py_min wait max_delay :: ss).
      split; [lia|]. split; [simpl; lia|].
      split; [constructor; [by apply py_min_capped|done]|].
      pose proof (traffic_trans _ _ _ _ _ _ _ Hone
                    (traffic_trans _ _ _ _ _ _ _ (sleep_traffic (py_min wait max_delay) w')
                       Htraffic)) as Hall.
      exact Hall.
    + exists 1%nat, []. split; [lia|]. split; [done|]. split; [constructor|].
      assert (attempts World.sleep retries backoff max_delay
                (VeniceClient._fetch_once self endpoint params) (S (S n)) attempt d last w
              = (Raise e, w')) as ->; [|done].
      change (attempts World.sleep retries backoff max_delay
                (VeniceClient._fetch_once self endpoint params) (S (S n)) attempt d last w)
        with (match VeniceClient._fetch_once self endpoint params w with
              | (Ok a, w) => (Ok (Some a), w)
              | (Raise e, w) =>
                  match caught_wait e d with
                  | None => (Raise e, w)
                  | Some wait =>
                      if (attempt <? retries)%Z then
                        match sleep_error (py_min wait max_delay) with
                        | Some e' => (Raise e', w)
                        | None =>
                            attempts World.sleep retries backoff max_delay
                              (VeniceClient._fetch_once self endpoint params) (S n)
                              (attempt + 1)%Z (py_min (d * backoff)%float max_delay)
                              (Some e) (World.sleep (py_min wait max_delay) w)
                        end
                      else
                        attempts World.sleep retries backoff max_delay
                          (VeniceClient._fetch_once self endpoint params) (S n)
                          (attempt + 1)%Z d (Some e) w
                  end
              end).
      by rewrite Hf, Hc.
Qed.

(** A call of [_fetch]: from one to four requests, all the same, and one
    sleep fewer. *)
Lemma _fetch_traffic (self : VeniceClient.t) (endpoint : string)
    (params : list (string * string)) (w : World.t) :
  ∃ k ss,
    (1 ≤ k ≤ 4)%nat ∧ (length ss + 1 = k)%nat
    ∧ Forall (λ x, (60 <? x)%float = false) ss
    ∧ traffic w (VeniceClient._fetch self endpoint params w).2
        (replicate k
           (Build_Request (VeniceClient.base_url self ++ "/" ++ lstrip_slash endpoint)
              params (VeniceClient.timeout self))) ss.
Proof.
  destruct (attempts_traffic self endpoint params DEFAULT_RETRIES 2 60 3 0
              DEFAULT_RETRY_DELAY None w eq_refl eq_refl)
    as (k & ss & Hk & Hss & Hcapped & Htraffic).
  exists k, ss. split; [done|]. split; [done|]. split; [done|].
  unfold VeniceClient._fetch, retry_with_backoff.
  change (Z.to_nat (DEFAULT_RETRIES + 1)) with 4%nat.
  by destruct (attempts _ _ _ _ _ _ _ _ _ w) as [[[a|]|e] w'].
Qed.

Lemma _fetch_models_for_type_traffic (self : VeniceClient.t) (model_type : string)
    (w : World.t) :
  ∃ k ss,
    (1 ≤ k ≤ 4)%nat ∧ (length ss + 1 = k)%nat
    ∧ Forall (λ x, (60 <? x)%float = false) ss
    ∧ traffic w (VeniceClient._fetch_models_for_type self model_type w).2
        (replicate k (models_request self model_type)) ss.
Proof.
  destruct (_fetch_traffic self "models" [("type", model_type)] w)
    as (k & ss & Hk & Hss & Hcapped & Htraffic).
  exists k, ss. split; [done|]. split; [done|]. split; [done|].
  unfold VeniceClient._fetch_models_for_type, io_try, mbind, IO_bind.
  destruct (VeniceClient._fetch _ _ _ w) as [[data|e] w']; simpl in *; [|done].
  unfold lift. destruct (obj_get_default _ _ _) as [models|e]; simpl; [|done].
  by destruct models.
Qed.

Lemma fetch_each_traffic (self : VeniceClient.t) (types : list ModelType)
    (raw_models : list json) (w : World.t) :
  ∃ rs ss,
    traffic w (VeniceClient.fetch_each self types raw_models w).2 rs ss
    ∧ Forall (λ r, ∃ p, p ∈ types ∧ r = models_request self (value p)) rs
    ∧ (length rs ≤ 4 * length types)%nat
    ∧ (length ss ≤ 3 * length types)%nat
    ∧ (length ss ≤ length rs)%nat
    ∧ Forall (λ x, (60 <? x)%float = false) ss.
Proof.
  revert raw_models w. induction types as [|mt types IH]; intros raw_models w; simpl.
  - exists [], []. split; [apply traffic_refl|]. split; [constructor|].
    split; [simpl; lia|]. split; [simpl; lia|]. split; [done|constructor].
  - destruct (_fetch_models_for_type_traffic self (value mt) w)
      as (k & ss & Hk & Hss & Hcapped & Htraffic).
    assert (Forall (λ r, ∃ p, p ∈ mt :: types ∧ r = models_request self (value p))
              (replicate k (models_request self (value mt)))) as Hshape.
    { apply Forall_replicate. exists mt. split; [apply list_elem_of_here|done]. }
    destruct (VeniceClient._fetch_models_for_type _ _ w) as [[fetched|e] w'];
      simpl in Htraffic.
    + destruct (annotate_all _ fetched) as [fetched' [e|]].
      * exists (replicate k (models_request self (value mt))), ss.
        split; [done|]. split; [done|]. rewrite length_replicate.
        split; [lia|]. split; [lia|]. split; [lia|done].
      * destruct (IH (raw_models ++ fetched')%list w')
          as (rs' & ss' & Htraffic' & Hshape' & Hrs & Hss' & Hle & Hcapped').
        exists (replicate k (models_request self (value mt)) ++ rs')%list, (ss ++ ss')%list.
        split; [by eapply traffic_trans|]. split.
        { apply Forall_app. split; [done|].
          eapply Forall_impl; [exact Hshape'|].
          intros r (p & Hp & ->). exists p. split; [by apply list_elem_of_further|done]. }
        rewrite !length_app, length_replicate.
        split; [lia|]. split; [lia|]. split; [lia|]. by apply Forall_app.
    + exists (replicate k (models_request self (value mt))), ss.
      split; [done|]. split; [done|]. rewrite length_replicate.
      split; [lia|]. split; [lia|]. split; [lia|done].
Qed.

Lemma gather_traffic (self : VeniceClient.t) (model_type : ModelType) (w : World.t) :
  ∃ rs ss,
    traffic w (VeniceClient.gather self model_type w).2 rs ss
    ∧ Forall (λ r, ∃ p, p ∈ partitions model_type ∧ r = models_request self (value p)) rs
    ∧ (length rs ≤ 4 * length (partitions model_type))%nat
    ∧ (length ss ≤ 3 * length (partitions model_type))%nat
    ∧ (length ss ≤ length rs)%nat
    ∧ Forall (λ x, (60 <? x)%float = false) ss.
Proof.
  unfold VeniceClient.gather, partitions. destruct (is_ALL model_type).
  - apply fetch_each_traffic.
  - destruct (_fetch_models_for_type_traffic self (value model_type) w)
      as (k & ss & Hk & Hss & Hcapped & Htraffic).
    exists (replicate k (models_request self (value model_type))), ss.
    split; [by destruct (VeniceClient._fetch_models_for_type _ _ w) as [[fetched|e] w']|].
    split.
    { apply Forall_replicate. exists model_type. split; [apply list_elem_of_here|done]. }
    rewrite length_replicate. simpl.
    split; [lia|]. split; [lia|]. split; [lia|done].
Qed.

Lemma try_live_fetch_traffic (self : VeniceClient.t) (model_type : ModelType)
    (cache_key : string) (w : World.t) :
  ∃ rs ss,
    traffic w (VeniceClient.try_live_fetch self model_type cache_key w).2 rs ss
    ∧ Forall (λ r, ∃ p, p ∈ partitions model_type ∧ r = models_request self (value p)) rs
    ∧ (length rs ≤ 4 * length (partitions model_type))%nat
    ∧ (length ss ≤ 3 * length (partitions model_type))%nat
    ∧ (length ss ≤ length rs)%nat
    ∧ Forall (λ x, (60 <? x)%float = false) ss.
Proof.
  destruct (gather_traffic self model_type w) as (rs & ss & Htraffic & Hrest).
  exists rs, ss. split; [|done].
  unfold VeniceClient.try_live_fetch.
  destruct (VeniceClient.gather self model_type w) as [[raw_models fetch_error] w'].
  simpl in Htraffic.
  destruct fetch_error as [e|]; [done|].
  destruct (VeniceClient.cache self) as [cache|]; [|done].
  destruct (truthy (JList raw_models)); [|done].
  pose proof (set_traffic cache cache_key (JList raw_models) w') as Hset.
  destruct (CacheManager.set cache cache_key (JList raw_models) w') as [[[]|e] w''];
    simpl in *;
    pose proof (traffic_trans _ _ _ _ _ _ _ Htraffic Hset) as Hall;
    by rewrite !app_nil_r in Hall.
Qed.

Lemma fetch_uncached_traffic (self : VeniceClient.t) (model_type : ModelType)
    (cache_key : string) (w : World.t) :
  (VeniceClient.fetch_uncached self model_type cache_key w).2
  = (VeniceClient.try_live_fetch self model_type cache_key w).2.
Proof.
  unfold VeniceClient.fetch_uncached.
  destruct (VeniceClient.try_live_fetch self model_type cache_key w)
    as [[raw_models fetch_error] w'].
  destruct (VeniceClient.cache self) as [cache|]; [|done].
  destruct (negb _); [|done].
  pose proof (get_stale_state cache cache_key w') as Hstate.
  destruct (CacheManager.get_stale cache cache_key w') as [[stale_data|e] w''];
    simpl in Hstate; subst w''; [|done].
  destruct (truthy stale_data); [done|]. by destruct fetch_error.
Qed.

(** A call of [fetch_models] ends in the state its live fetch leaves, or
    in the one it began in. *)
Lemma fetch_models_state (self : VeniceClient.t) (model_type : ModelType) (w : World.t) :
  (VeniceClient.fetch_models self model_type w).2 = w
  ∨ (VeniceClient.fetch_models self model_type w).2
    = (VeniceClient.try_live_fetch self model_type ("models_" ++ value model_type) w).2.
Proof.
  unfold VeniceClient.fetch_models.
  destruct (VeniceClient.cache self) as [cache|];
    [|right; apply fetch_uncached_traffic].
  pose proof (get_state cache ("models_" ++ value model_type) w) as Hstate.
  destruct (CacheManager.get cache _ w) as [[[cached is_fresh]|e] w'];
    simpl in Hstate; subst w'; [|by left].
  destruct (truthy cached && is_fresh); [by left|].
  right. apply fetch_uncached_traffic.
Qed.

(** The cache files a live fetch leaves. *)
Lemma gather_files (self : VeniceClient.t) (model_type : ModelType) (w : World.t) :
  World.files (VeniceClient.gather self model_type w).2 = World.files w.
Proof.
  pose proof (gather_frame (World.files w) self model_type w) as Hframe.
  rewrite with_files_same in Hframe.
  by rewrite Hframe.
Qed.

Lemma try_live_fetch_files (self : VeniceClient.t) (model_type : ModelType)
    (cache_key : string) (w : World.t) :
  match VeniceClient.cache self with
  | None => World.files (VeniceClient.try_live_fetch self model_type cache_key w).2
            = World.files w
  | Some cache =>
      ∀ path,
        path ≠ CacheManager._cache_path cache cache_key →
        path ≠ temp_name (CacheManager._cache_path cache cache_key)
                 (tmp_path (World.faults w)) →
        World.files (VeniceClient.try_live_fetch self model_type cache_key w).2 !! path
        = World.files w !! path
  end.
Proof.
  pose proof (gather_files self model_type w) as Hfiles.
  destruct (gather_traffic self model_type w) as (rs & ss & (_ & _ & _ & _ & Hfaults) & _).
  unfold VeniceClient.try_live_fetch.
  destruct (VeniceClient.gather self model_type w) as [[raw_models fetch_error] w'].
  simpl in Hfiles, Hfaults.
  destruct (VeniceClient.cache self) as [cache|].
  - intros path Hpath Htmp.
    destruct fetch_error as [e|]; [by rewrite <- Hfiles|].
    destruct (truthy (JList raw_models)); [|by rewrite <- Hfiles].
    destruct (set_files cache cache_key (JList raw_models) w')
      as (fs & -> & Hset & _).
    simpl. rewrite Hset, Hfiles; [done|done|by rewrite Hfaults].
  - by destruct fetch_error.
Qed.
End traffic_facts.

(** X9: the traffic of a fetch.  Whatever the server does, and whatever
    the cache holds, a call of [fetch_models] sends at most four requests
    for each partition it asks for, three partitions for [ALL] and one
    otherwise, and takes at most three sleeps for each, never more sleeps
    than requests and none above 60 seconds; every request is a GET of
    [base_url/models] with the partition as [type] and the timeout of the
    client. *)
Theorem fetch_models_traffic `{Builtins} (self : VeniceClient.t) (model_type : ModelType)
    (w : World.t) :
  ∃ rs ss,
    traffic w (VeniceClient.fetch_models self model_type w).2 rs ss
    ∧ Forall (λ r, ∃ p, p ∈ partitions model_type ∧ r = models_request self (value p)) rs
    ∧ (length rs ≤ 4 * length (partitions model_type))%nat
    ∧ (length ss ≤ 3 * length (partitions model_type))%nat
    ∧ (length ss ≤ length rs)%nat
    ∧ Forall (λ x, (60 <? x)%float = false) ss.
Proof.
  pose proof (try_live_fetch_traffic self model_type ("models_" ++ value model_type) w)
    as Hlive.
  destruct (fetch_models_state self model_type w) as [-> | ->]; [|done].
  exists [], []. split; [apply traffic_refl|]. split; [constructor|].
  split; [simpl; lia|]. split; [simpl; lia|]. split; [done|constructor].
Qed.

(** X10: the files of a fetch.  A call of [fetch_models] leaves every
    file as it is but the cache file of the type asked for and the
    temporary file of a write to it, and all of them when the client has
    no cache. *)
Theorem fetch_models_files `{Builtins} (self : VeniceClient.t) (model_type : ModelType)
    (w : World.t) :
  match VeniceClient.cache self with
  | None => World.files (VeniceClient.fetch_models self model_type w).2 = World.files w
  | Some cache =>
      ∀ path, path ≠ cache_file_of cache model_type →
              path ≠ temp_file_of cache model_type w →
              World.files (VeniceClient.fetch_models self model_type w).2 !! path
              = World.files w !! path
  end.
Proof.
  pose proof (try_live_fetch_files self model_type ("models_" ++ value model_type) w)
    as Hlive.
  unfold cache_file_of, temp_file_of, cache_file_of.
  destruct (fetch_models_state self model_type w) as [-> | ->]; [|done].
  by destruct (VeniceClient.cache self).
Qed.

(* ===================================================================== *)
(** * The cache check of [fetch_models] *)
(* ===================================================================== *)

Section stale_facts.
Variables (self : CacheManager.t) (key : string).

Lemma get_stale_unusable (w : World.t) :
  World.blocked w !! CacheManager._cache_path self key = None →
  unusable (World.files w !! CacheManager._cache_path self key) →
  ∃ v, CacheManager.get_stale self key w = (Ok v, w) ∧ truthy v = false.
Proof.
  intros Hb Hun.
  destruct (World.files w !! CacheManager._cache_path self key) as [file|] eqn:Hf.
  - destruct (content file) as [data|e] eqn:Hc.
    + rewrite (get_stale_readable _ _ _ _ _ Hf Hc). eexists. split; [done|].
      destruct (float_le_int _ _); [|done]. by eapply Hun.
    + rewrite (get_stale_unreadable _ _ _ _ _ Hf Hc). by eexists.
  - rewrite (get_stale_missing _ _ _ Hf Hb). by eexists.
Qed.

Lemma get_unusable (w : World.t) :
  World.blocked w !! CacheManager._cache_path self key = None →
  unusable (World.files w !! CacheManager._cache_path self key) →
  ∃ v is_fresh, CacheManager.get self key w = (Ok (v, is_fresh), w) ∧ truthy v = false.
Proof.
  intros Hb Hun.
  destruct (World.files w !! CacheManager._cache_path self key) as [file|] eqn:Hf.
  - destruct (content file) as [data|e] eqn:Hc.
    + rewrite (get_readable _ _ _ _ _ Hf Hc).
      destruct (float_le_int _ (CacheManager.fresh_ttl self));
        [|destruct (float_le_int _ _)]; eexists _, _; (split; [done|]);
        [by eapply Hun | by eapply Hun | done].
    + rewrite (get_unreadable _ _ _ _ _ Hf Hc). by eexists _, _.
  - rewrite (get_missing _ _ _ Hf Hb). by eexists _, _.
Qed.
End stale_facts.

Section cache_check.
Context `{Builtins}.

(** The first thing a live fetch does is to send the request for the
    first partition. *)
Lemma fetch_each_first_request (self : VeniceClient.t) (mt : ModelType)
    (types : list ModelType) (raw_models : list json) (w : World.t) :
  ∃ later,
    World.requests (VeniceClient.fetch_each self (mt :: types) raw_models w).2
    = (World.requests w ++ models_request self (value mt) :: later)%list.
Proof.
  simpl.
  destruct (_fetch_models_for_type_traffic self (value mt) w)
    as (k & ss & Hk & _ & _ & Hr & _).
  destruct k as [|k]; [lia|]. simpl in Hr.
  destruct (VeniceClient._fetch_models_for_type self (value mt) w)
    as [[fetched|e] w1]; simpl in Hr; [|by eexists].
  destruct (annotate_all (value mt) fetched) as [fetched' [e|]]; [by eexists|].
  destruct (fetch_each_traffic self types (raw_models ++ fetched')%list w1)
    as (rs & _ & (Hr' & _) & _).
  eexists. rewrite Hr', Hr, <- app_assoc. reflexivity.
Qed.

Lemma gather_first_request (self : VeniceClient.t) (model_type : ModelType) (w : World.t) :
  ∃ p types later,
    partitions model_type = p :: types
    ∧ World.requests (VeniceClient.gather self model_type w).2
      = (World.requests w ++ models_request self (value p) :: later)%list.
Proof.
  unfold VeniceClient.gather, partitions. destruct (is_ALL model_type).
  - exists TEXT, [IMAGE; CODE].
    destruct (fetch_each_first_request self TEXT [IMAGE; CODE] [] w) as [later Hr].
    by exists later.
  - exists model_type, [].
    destruct (_fetch_models_for_type_traffic self (value model_type) w)
      as (k & ss & Hk & _ & _ & Hr & _).
    destruct k as [|k]; [lia|]. simpl in Hr.
    exists (replicate k (models_request self (value model_type))). split; [done|].
    by destruct (VeniceClient._fetch_models_for_type self (value model_type) w)
      as [[fetched|e] w1].
Qed.

(** The cache takes no part in the traffic of a live fetch. *)
Lemma try_live_fetch_log (self : VeniceClient.t) (model_type : ModelType)
    (cache_key : string) (w : World.t) :
  World.requests (VeniceClient.try_live_fetch self model_type cache_key w).2
  = World.requests (VeniceClient.gather self model_type w).2
  ∧ World.sleeps (VeniceClient.try_live_fetch self model_type cache_key w).2
    = World.sleeps (VeniceClient.gather self model_type w).2.
Proof.
  unfold VeniceClient.try_live_fetch.
  destruct (VeniceClient.gather self model_type w) as [[raw_models fetch_error] w'].
  destruct fetch_error as [e|]; [done|].
  destruct (VeniceClient.cache self) as [cache|]; [|done].
  destruct (truthy (JList raw_models)); [|done].
  by destruct (set_returns cache cache_key (JList raw_models) w') as [fs ->].
Qed.

Lemma fetch_uncached_log (self : VeniceClient.t) (model_type : ModelType)
    (cache_key : string) (fs : gmap string CacheFile) (w : World.t) :
  World.requests (VeniceClient.fetch_uncached self model_type cache_key
                    (World.with_files fs w)).2
  = World.requests (VeniceClient.gather self model_type w).2
  ∧ World.sleeps (VeniceClient.fetch_uncached self model_type cache_key
                    (World.with_files fs w)).2
    = World.sleeps (VeniceClient.gather self model_type w).2.
Proof.
  rewrite fetch_uncached_traffic.
  destruct (try_live_fetch_log self model_type cache_key (World.with_files fs w))
    as [-> ->].
  by rewrite gather_frame.
Qed.

(** Two machines that differ in the cache files only, and there in files
    of no use to [get_stale], get the same answer from the live fetch. *)
Lemma fetch_uncached_unusable (self : VeniceClient.t) (cache : CacheManager.t)
    (model_type : ModelType) (cache_key : string)
    (fs1 fs2 : gmap string CacheFile) (w : World.t) :
  VeniceClient.cache self = Some cache →
  World.blocked w !! CacheManager._cache_path cache cache_key = None →
  unusable (fs1 !! CacheManager._cache_path cache cache_key) →
  unusable (fs2 !! CacheManager._cache_path cache cache_key) →
  (VeniceClient.fetch_uncached self model_type cache_key (World.with_files fs1 w)).1
  = (VeniceClient.fetch_uncached self model_type cache_key (World.with_files fs2 w)).1.
Proof.
  intros Hcache Hblocked Hun1 Hun2.
  unfold VeniceClient.fetch_uncached, VeniceClient.try_live_fetch.
  rewrite !gather_frame, Hcache.
  destruct (gather_traffic self model_type w) as (rs & ss & (_ & _ & _ & Hb & _) & _).
  destruct (VeniceClient.gather self model_type w) as [[raw_models fetch_error] w'].
  simpl fst. simpl snd. cbv iota. simpl in Hb. rewrite <- Hb in Hblocked.
  assert (∀ err : option exn,
    (match CacheManager.get_stale cache cache_key (World.with_files fs1 w') with
     | (Raise e, w) => (Raise e, w)
     | (Ok stale_data, w) =>
         if truthy stale_data
         then (VeniceClient._parse_models self stale_data model_type, w)
         else match err with
              | Some e => (Raise e, w)
              | None => (VeniceClient._parse_models self (JList raw_models) model_type, w)
              end
     end).1
    = (match CacheManager.get_stale cache cache_key (World.with_files fs2 w') with
       | (Raise e, w) => (Raise e, w)
       | (Ok stale_data, w) =>
           if truthy stale_data
           then (VeniceClient._parse_models self stale_data model_type, w)
           else match err with
                | Some e => (Raise e, w)
                | None => (VeniceClient._parse_models self (JList raw_models) model_type, w)
                end
       end).1) as Hstale.
  { intros err.
    destruct (get_stale_unusable cache cache_key (World.with_files fs1 w') Hblocked Hun1)
      as (v1 & -> & ->).
    destruct (get_stale_unusable cache cache_key (World.with_files fs2 w') Hblocked Hun2)
      as (v2 & -> & ->).
    by destruct err. }
  destruct fetch_error as [e|].
  - destruct raw_models as [|raw raw_models]; [apply (Hstale (Some e)) | done].
  - destruct raw_models as [|raw raw_models]; [apply (Hstale None)|].
    simpl truthy. cbv iota.
    destruct (set_returns cache cache_key (JList (raw :: raw_models))
                (World.with_files fs1 w')) as [fs1' ->].
    by destruct (set_returns cache cache_key (JList (raw :: raw_models))
                   (World.with_files fs2 w')) as [fs2' ->].
Qed.
End cache_check.

(** C10: the cache check of [fetch_models] on a fresh record.  When the
    data of the record is true as a condition, the call returns what
    [_parse_models] makes of it and leaves the world as it is: no request
    is sent.  When it is false as a condition, an empty list for one, the
    call goes on with the live fetch: it sends the request for the first
    partition, whatever comes after, and it returns what it returns, and
    sends and sleeps what it sends and sleeps, on a machine without that
    record. *)
Theorem falsy_fresh_record_goes_live `{Builtins} (self : VeniceClient.t)
    (cache : CacheManager.t) (model_type : ModelType) (w : World.t)
    (cached_data : json) :
  VeniceClient.cache self = Some cache →
  CacheManager.get cache ("models_" ++ value model_type) w = (Ok (cached_data, true), w) →
  let run := VeniceClient.fetch_models self model_type w in
  (truthy cached_data = true →
   run = (VeniceClient._parse_models self cached_data model_type, w))
  ∧ (truthy cached_data = false →
     (∃ p types later,
        partitions model_type = p :: types
        ∧ World.requests run.2
          = (World.requests w ++ models_request self (value p) :: later)%list)
     ∧ run = VeniceClient.fetch_uncached self model_type ("models_" ++ value model_type) w
     ∧ (World.blocked w !! cache_file_of cache model_type = None →
        let bare :=
          VeniceClient.fetch_models self model_type
            (forget (cache_file_of cache model_type) w) in
        run.1 = bare.1
        ∧ World.requests run.2 = World.requests bare.2
        ∧ World.sleeps run.2 = World.sleeps bare.2)).
Proof.
  intros Hcache Hget run. subst run. unfold cache_file_of.
  set (cache_key := "models_" ++ value model_type) in *.
  set (path := CacheManager._cache_path cache cache_key).
  split.
  { intros Htruthy. unfold VeniceClient.fetch_models. fold cache_key.
    by rewrite Hcache, Hget, Htruthy. }
  intros Hfalsy.
  assert (VeniceClient.fetch_models self model_type w
          = VeniceClient.fetch_uncached self model_type cache_key w) as Hlive.
  { unfold VeniceClient.fetch_models. fold cache_key.
    by rewrite Hcache, Hget, Hfalsy. }
  rewrite Hlive.
  pose proof (fetch_uncached_log self model_type cache_key (World.files w) w) as Hlog.
  rewrite with_files_same in Hlog. destruct Hlog as [Hrequests Hsleeps].
  split; [|split; [done|]].
  { rewrite Hrequests. apply gather_first_request. }
  intros Hblocked.
  assert (VeniceClient.fetch_models self model_type (forget path w)
          = VeniceClient.fetch_uncached self model_type cache_key (forget path w)) as ->.
  { unfold VeniceClient.fetch_models. fold cache_key. rewrite Hcache.
    rewrite get_missing; [done| |done]. unfold forget. simpl. apply lookup_delete_eq. }
  unfold forget.
  destruct (fetch_uncached_log self model_type cache_key (delete path (World.files w)) w)
    as [-> ->].
  split; [|done].
  rewrite <- (with_files_same w) at 1.
  apply (fetch_uncached_unusable self cache model_type cache_key); [done|done| |].
  - intros file data Hfile Hdata. fold path in Hfile.
    rewrite (get_readable _ _ _ _ _ Hfile Hdata) in Hget.
    injection Hget as Hget.
    destruct (float_le_int _ (CacheManager.fresh_ttl cache)); [by injection Hget as ->|].
    by destruct (float_le_int _ _).
  - intros file data Hfile. fold path in Hfile. by rewrite lookup_delete_eq in Hfile.
Qed.

Lemma falsy_fresh_record_goes_live_witness :
  let w := world_with_record 60 (JList []) (serving [JDict {[ "id" := JStr "m1" ]}]) in
  let path := "/home/faye/.cache/venice_sync/models_text.json" in
  let run := VeniceClient.fetch_models (H:=ascii_builtins) home_client TEXT w in
  let bare := VeniceClient.fetch_models (H:=ascii_builtins) home_client TEXT (forget path w) in
  ids_of run.1 = Ok ["m1"]
  ∧ World.requests run.2 = [models_request home_client "text"]
  ∧ run.1 = bare.1
  ∧ World.requests run.2 = World.requests bare.2
  ∧ World.sleeps run.2 = World.sleeps bare.2.
Proof.
  intros w path run bare. split; [by vm_compute|]. split; [by vm_compute|].
  apply (proj2 (proj2 (proj2 (falsy_fresh_record_goes_live (H:=ascii_builtins) home_client
                                (CacheManager.init "/home/faye/.cache/venice_sync") TEXT w
                                (JList []) eq_refl eq_refl) eq_refl)) eq_refl).
Defined.

(* ===================================================================== *)
(** * A live fetch that fails *)
(* ===================================================================== *)

Section failing_fetch.
Context `{Builtins}.

(** The failure of a partition never leaves [_fetch_models_for_type]. *)
Lemma _fetch_models_for_type_returns (self : VeniceClient.t) (model_type : string)
    (w : World.t) :
  ∃ fetched w', VeniceClient._fetch_models_for_type self model_type w = (Ok fetched, w').
Proof.
  unfold VeniceClient._fetch_models_for_type, io_try.
  destruct (_ ≫= _) as [[fetched|e] w'] eqn:Hbody; eauto.
Qed.

Lemma same_surroundings_trans (w1 w2 w3 : World.t) :
  same_surroundings w1 w2 → same_surroundings w2 w3 → same_surroundings w1 w3.
Proof.
  intros (Hn & Hf & Hb) (Hn' & Hf' & Hb'). unfold same_surroundings.
  by rewrite Hn', Hf', Hb'.
Qed.

Lemma unreachable_same (w w' : World.t) :
  same_surroundings w w' → unreachable w → unreachable w'.
Proof. intros (Hn & _) Hdown k r. rewrite Hn. apply Hdown. Qed.

Lemma _fetch_once_unreachable (self : VeniceClient.t) (endpoint : string)
    (params : list (string * string)) (w : World.t) :
  unreachable w →
  ∃ e w', VeniceClient._fetch_once self endpoint params w = (Raise e, w')
          ∧ same_surroundings w w'
          ∧ length (World.requests w') = S (length (World.requests w)).
Proof.
  intros Hdown. unfold VeniceClient._fetch_once, mbind, IO_bind, World.send.
  destruct (Hdown (length (World.requests w))
              (Build_Request (VeniceClient.base_url self ++ "/" ++ lstrip_slash endpoint)
                 params (VeniceClient.timeout self))) as [e ->].
  eexists _, _. split; [done|]. split; [by repeat split|].
  simpl. rewrite length_app. simpl. lia.
Qed.

Lemma attempts_unreachable (self : VeniceClient.t) (endpoint : string)
    (params : list (string * string)) (retries : Z) (backoff max_delay : float)
    n attempt d last (w : World.t) :
  unreachable w →
  ∃ r w',
    attempts World.sleep retries backoff max_delay
      (VeniceClient._fetch_once self endpoint params) n attempt d last w = (r, w')
    ∧ (∀ a, r ≠ Ok (Some a))
    ∧ same_surroundings w w'.
Proof.
  revert attempt d last w. induction n as [|n IH]; intros attempt d last w Hdown; simpl.
  - destruct last; eexists _, _; (split; [done|]); by repeat split.
  - destruct (_fetch_once_unreachable self endpoint params w Hdown)
      as (e & w1 & -> & Hsame & _).
    destruct (caught_wait e d) as [wait|]; [|by eexists _, _].
    destruct (attempt <? retries)%Z.
    + destruct (sleep_error (py_min wait max_delay)); [by eexists _, _|].
      assert (same_surroundings w1 (World.sleep (py_min wait max_delay) w1)) as Hsleep
        by (by repeat split).
      destruct (IH (attempt + 1)%Z (py_min (d * backoff)%float max_delay) (Some e)
                  (World.sleep (py_min wait max_delay) w1))
        as (r & w' & -> & Hr & Hsame').
      { eapply unreachable_same; [|done]. by eapply same_surroundings_trans. }
      eexists _, _. split; [done|]. split; [done|].
      eapply same_surroundings_trans; [done|]. by eapply same_surroundings_trans.
    + destruct (IH (attempt + 1)%Z d (Some e) w1) as (r & w' & -> & Hr & Hsame').
      { by eapply unreachable_same. }
      eexists _, _. split; [done|]. split; [done|].
      by eapply same_surroundings_trans.
Qed.

(** With the server down a partition contributes no record, and no
    exception. *)
Lemma _fetch_models_for_type_unreachable (self : VeniceClient.t) (model_type : string)
    (w : World.t) :
  unreachable w →
  ∃ w', VeniceClient._fetch_models_for_type self model_type w = (Ok [], w')
        ∧ same_surroundings w w'.
Proof.
  intros Hdown.
  unfold VeniceClient._fetch_models_for_type, io_try, mbind, IO_bind,
    VeniceClient._fetch, retry_with_backoff.
  destruct (attempts_unreachable self "models" [("type", model_type)] DEFAULT_RETRIES
              2 60 (Z.to_nat (DEFAULT_RETRIES + 1)) 0%Z DEFAULT_RETRY_DELAY None w Hdown)
    as (r & w' & -> & Hr & Hsame).
  destruct r as [[a|]|e]; [by destruct (Hr a)| |]; by eexists.
Qed.

Lemma fetch_each_unreachable (self : VeniceClient.t) (types : list ModelType)
    (w : World.t) :
  unreachable w →
  ∃ w', VeniceClient.fetch_each self types [] w = (([], None), w')
        ∧ same_surroundings w w'.
Proof.
  revert w. induction types as [|mt types IH]; intros w Hdown; simpl.
  - eexists. split; [done|]. by repeat split.
  - destruct (_fetch_models_for_type_unreachable self (value mt) w Hdown)
      as (w1 & -> & Hsame). simpl.
    destruct (IH w1) as (w' & -> & Hsame'); [by eapply unreachable_same|].
    eexists. split; [done|]. by eapply same_surroundings_trans.
Qed.

Lemma try_live_fetch_unreachable (self : VeniceClient.t) (model_type : ModelType)
    (cache_key : string) (w : World.t) :
  unreachable w →
  ∃ w', VeniceClient.try_live_fetch self model_type cache_key w = (([], None), w')
        ∧ same_surroundings w w'.
Proof.
  intros Hdown. unfold VeniceClient.try_live_fetch, VeniceClient.gather.
  destruct (is_ALL model_type).
  - destruct (fetch_each_unreachable self [TEXT; IMAGE; CODE] w Hdown) as (w' & -> & Hsame).
    exists w'. by destruct (VeniceClient.cache self).
  - destruct (_fetch_models_for_type_unreachable self (value model_type) w Hdown)
      as (w' & -> & Hsame).
    exists w'. by destruct (VeniceClient.cache self).
Qed.

(** Against a server that is down for good, with failures that carry no
    hint, [_fetch] does give up, with the failure of its fourth request:
    the failure is there to be passed on. *)
Lemma _fetch_unreachable (self : VeniceClient.t) (endpoint : string)
    (params : list (string * string)) (w : World.t) :
  (∀ k r, ∃ e, World.net w k r = Fails e ∧ retryable e = true ∧ hint e = None) →
  ∃ e w', VeniceClient._fetch self endpoint params w = (Raise e, w')
          ∧ retryable e = true
          ∧ length (World.requests w') = (length (World.requests w) + 4)%nat.
Proof.
  intros Hdown.
  set (inv := λ w' : World.t, World.net w' = World.net w).
  assert (∀ w1, inv w1 →
    ∃ e w2, VeniceClient._fetch_once self endpoint params w1 = (Raise e, w2)
            ∧ retryable e = true ∧ hint e = None ∧ inv w2
            ∧ length (World.requests w2) = S (length (World.requests w1))) as Honce.
  { intros w1 Hw1. unfold VeniceClient._fetch_once, mbind, IO_bind, World.send.
    rewrite Hw1.
    destruct (Hdown (length (World.requests w1))
                (Build_Request (VeniceClient.base_url self ++ "/" ++ lstrip_slash endpoint)
                   params (VeniceClient.timeout self))) as (e & -> & He & Hh).
    eexists _, _. split; [done|]. split; [done|]. split; [done|]. split; [done|].
    simpl. rewrite length_app. simpl. lia. }
  destruct (attempts_exhausted World.sleep DEFAULT_RETRIES DEFAULT_RETRY_DELAY 2 60
              (VeniceClient._fetch_once self endpoint params) inv
              (λ w, length (World.requests w))) with
    (n := 3%nat) (i := 0%nat) (last := @None exn) (w := w)
    as (w_last & e & Hrun & Hinv & Hlast & Hcalls).
  - intros w1 Hw1. by destruct (Honce w1 Hw1) as (e & w2 & -> & _ & _ & ? & ?).
  - by intros x w1 Hw1.
  - intros w1 Hw1. destruct (Honce w1 Hw1) as (e & w2 & -> & ? & _). by exists e.
  - intros w1 e i Hw1 Hi Hf.
    destruct (Honce w1 Hw1) as (e' & w2 & Heq & _ & Hh & _).
    rewrite Heq in Hf. simpl in Hf. injection Hf as ->.
    unfold scheduled_wait. rewrite Hh.
    do 3 (destruct i as [|i]; [reflexivity|]). unfold DEFAULT_RETRIES in Hi. lia.
  - done.
  - done.
  - unfold VeniceClient._fetch, retry_with_backoff.
    change (Z.to_nat (DEFAULT_RETRIES + 1)) with 4%nat.
    change (attempts World.sleep DEFAULT_RETRIES 2 60
              (VeniceClient._fetch_once self endpoint params) 4 0 DEFAULT_RETRY_DELAY None w)
      with (attempts World.sleep DEFAULT_RETRIES 2 60
              (VeniceClient._fetch_once self endpoint params) 4 (Z.of_nat 0)
              (grown 2 60 DEFAULT_RETRY_DELAY 0) None w).
    rewrite Hrun.
    exists e, (VeniceClient._fetch_once self endpoint params w_last).2.
    split; [done|]. split; [|done].
    destruct (Honce w_last Hinv) as (e' & w2 & Heq & He' & _).
    rewrite Heq in Hlast. simpl in Hlast. by injection Hlast as <-.
Qed.
End failing_fetch.

(** C1: with the server down for every request and, in the cache, no
    record for the key, or one that cannot be read or holds nothing,
    [fetch_models] returns the empty list and raises nothing, where the
    specification has it raise the failure of the fetch.  The lookup of
    the cache file does not fail. *)
Theorem fetch_failure_is_swallowed `{Builtins} (self : VeniceClient.t)
    (model_type : ModelType) (w : World.t) :
  unreachable w →
  (∀ cache, VeniceClient.cache self = Some cache →
            World.blocked w !! CacheManager._cache_path cache ("models_" ++ value model_type)
            = None
            ∧ unusable (World.files w
                          !! CacheManager._cache_path cache ("models_" ++ value model_type))) →
  ∃ w', VeniceClient.fetch_models self model_type w = (Ok [], w').
Proof.
  intros Hdown Hnone.
  assert (∃ w', VeniceClient.fetch_uncached self model_type
                  ("models_" ++ value model_type) w = (Ok [], w')) as Hlive.
  { unfold VeniceClient.fetch_uncached.
    destruct (try_live_fetch_unreachable self model_type ("models_" ++ value model_type)
                w Hdown) as (w' & -> & Hnet & Hfiles & Hblocked).
    destruct (VeniceClient.cache self) as [cache|] eqn:Hcache; [|by eexists].
    simpl negb. cbv iota.
    destruct (Hnone cache eq_refl) as [Hb Hun].
    destruct (get_stale_unusable cache ("models_" ++ value model_type) w')
      as (v & -> & ->); [by rewrite Hblocked | by rewrite Hfiles | by eexists]. }
  unfold VeniceClient.fetch_models.
  destruct (VeniceClient.cache self) as [cache|] eqn:Hcache; [|done].
  destruct (Hnone cache eq_refl) as [Hb Hun].
  destruct (get_unusable cache ("models_" ++ value model_type) w Hb Hun)
    as (v & is_fresh & -> & ->). done.
Qed.

Lemma fetch_failure_is_swallowed_witness :
  let w := world_facing refusing_server in
  let run := VeniceClient.fetch_models (H:=ascii_builtins) home_client TEXT w in
  (∃ w', run = (Ok [], w'))
  ∧ run.1 = Ok []
  ∧ length (World.requests run.2) = 4%nat
  ∧ World.sleeps run.2 = [1%float; 2%float; 4%float].
Proof.
  intros w run. split; [|by vm_compute].
  apply (fetch_failure_is_swallowed (H:=ascii_builtins) home_client TEXT w).
  - intros k r. by eexists.
  - intros cache _. split; [reflexivity|]. intros file data [=].
Defined.

(* ===================================================================== *)
(** * Scenarios of the specification, run on the model *)
(* ===================================================================== *)

(** Two failures, then a success, with [retries = 3]: the result of the
    third call, after two sleeps of the initial delay and of its double. *)
Example fails_twice_then_succeeds :
  let func := Mock.scripted (λ k, if Nat.ltb k 2 then Raise (RequestException "Read timed out")
                                  else Ok (JInt 7)) in
  retry_with_backoff Mock.sleep 3 1 2 60 func Mock.start
  = (Ok (Some (JInt 7)), {| Mock.calls := 3; Mock.slept := [1%float; 2%float] |}).
Proof. reflexivity. Qed.

(** A hint above the cap is cut down to the cap. *)
Example hint_is_capped :
  let func :=
    Mock.scripted (λ k, match k with
                        | O => Raise (RetryableError "Rate limited (429)" (Some 120%float))
                        | _ => Ok (JInt 7)
                        end) in
  retry_with_backoff Mock.sleep 3 1 2 60 func Mock.start
  = (Ok (Some (JInt 7)), {| Mock.calls := 2; Mock.slept := [60%float] |}).
Proof. reflexivity. Qed.

(** A failure of another class is not retried. *)
Example other_failure_is_not_retried :
  let func := Mock.scripted (A:=json) (λ _, Raise (TypeError "unsupported operand")) in
  retry_with_backoff Mock.sleep 3 1 2 60 func Mock.start
  = (Raise (TypeError "unsupported operand"), {| Mock.calls := 1; Mock.slept := [] |}).
Proof. reflexivity. Qed.

(** The live fetch fails and the cache holds a record one hour old: the
    entries of that record are returned, after four requests. *)
Example stale_record_is_served :
  let w := world_with_record 3600 (JList [JDict {[ "id" := JStr "m1" ]}]) refusing_server in
  let run := VeniceClient.fetch_models (H:=ascii_builtins) home_client TEXT w in
  ids_of run.1 = Ok ["m1"]
  ∧ length (World.requests run.2) = 4%nat.
Proof. by vm_compute. Qed.

(** A fresh record is used without any request. *)
Example fresh_record_is_served :
  let w := world_with_record 60 (JList [JDict {[ "id" := JStr "m1" ]}]) refusing_server in
  let run := VeniceClient.fetch_models (H:=ascii_builtins) home_client TEXT w in
  ids_of run.1 = Ok ["m1"]
  ∧ World.requests run.2 = [].
Proof. by vm_compute. Qed.

(** Records without a usable id are dropped, the others kept. *)
Example malformed_records_are_dropped :
  let records := [JDict {[ "id" := JStr "b" ]}; JDict {[ "name" := JStr "x" ]};
                  JDict {[ "id" := JStr "" ]}; JDict {[ "id" := JInt 5 ]};
                  JDict {[ "id" := JStr "a" ]}] in
  ids_of (VeniceClient._parse_models (H:=ascii_builtins) home_client (JList records) TEXT)
  = Ok ["a"; "b"].
Proof. by vm_compute. Qed.

(** A context size that is not a number gives the default, one written as
    text is read. *)
Example context_tokens_coerced :
  let record (v : json) : gmap string json :=
    {[ "id" := JStr "m1"; "model_spec" := JDict {[ "availableContextTokens" := v ]} ]} in
  let context (v : json) :=
    match Model.from_api_response (H:=ascii_builtins) (record v) (JStr "text") with
    | Ok (Some m) => Some (Model.context_tokens m)
    | _ => None
    end in
  context (JStr "abc") = Some 32768%Z
  ∧ context (JStr " 4_096 ") = Some 4096%Z
  ∧ context JNull = Some 32768%Z
  ∧ context (JFloat 8192.5) = Some 8192%Z
  ∧ context (JFloat infinity) = None.
Proof. by vm_compute. Qed.

(** What is written to the cache carries the partition of each record, so
    that a later run reads it back. *)
Example cache_keeps_the_partition :
  let w := world_facing (serving [JDict {[ "id" := JStr "m1" ]}]) in
  let run := VeniceClient.fetch_models (H:=ascii_builtins) home_client IMAGE w in
  content <$> World.files run.2 !! "/home/faye/.cache/venice_sync/models_image.json"
  = Some (Ok (JList [JDict {[ "id" := JStr "m1"; "_fallback_type" := JStr "image" ]}])).
Proof. by vm_compute. Qed.

(* ===================================================================== *)
(** * The retry decorator: counts, outcome and schedule *)
(* ===================================================================== *)

Section retry_run.
Context {W A : Type}.
Variable sleep : float → W → W.
Variables (retries : Z) (delay backoff max_delay : float).
Variable func : W → result A * W.

Abbreviation attempts := (attempts sleep retries backoff max_delay func).
Abbreviation reached := (reached sleep retries delay backoff max_delay func).

(** From any turn on, the loop ends in the state an invocation made in a
    state it reaches leaves, with the outcome of that invocation, or with
    what [time.sleep] raises for the wait after it. *)
Lemma attempts_last (w0 : W) n attempt d last w :
  (0 ≤ retries)%Z →
  reached w0 (S n) attempt d last w →
  ∃ n' attempt' d' last' w_last,
    reached w0 (S n') attempt' d' last' w_last
    ∧ (attempts (S n) attempt d last w = (returned (func w_last).1, (func w_last).2)
       ∨ ∃ e wait e',
           (func w_last).1 = Raise e
           ∧ caught_wait e d' = Some wait
           ∧ (attempt' < retries)%Z
           ∧ sleep_error (py_min wait max_delay) = Some e'
           ∧ attempts (S n) attempt d last w = (Raise e', (func w_last).2)).
Proof.
  intros Hr. revert attempt d last w.
  induction n as [|n IH]; intros attempt d last w Hreach;
    pose proof (reached_count _ _ _ _ _ _ _ _ _ _ _ _ Hr Hreach) as [Hge Hcount];
    destruct (func w) as [[a|e] w'] eqn:Hf.
  - exists 0%nat, attempt, d, last, w. split; [done|]. left. simpl. by rewrite Hf.
  - exists 0%nat, attempt, d, last, w. split; [done|]. left. simpl. rewrite Hf. simpl.
    destruct (caught_wait e d); [|done].
    by replace (attempt <? retries)%Z with false by lia.
  - exists (S n), attempt, d, last, w. split; [done|]. left.
    rewrite (attempts_success _ _ _ _ _ _ _ _ _ _ _ _ Hf). by rewrite Hf.
  - assert (attempt < retries)%Z as Hlt by lia.
    destruct (caught_wait e d) as [wait|] eqn:Hc;
      [destruct (sleep_error (py_min wait max_delay)) as [e'|] eqn:Hs|].
    + exists (S n), attempt, d, last, w. split; [done|]. right.
      exists e, wait, e'. rewrite Hf. do 4 (split; [done|]).
      by apply attempts_refused with e wait.
    + rewrite (attempts_retry _ _ _ _ _ _ _ _ _ _ _ _ _ Hf Hc Hlt Hs).
      apply IH. by eapply reached_after_wait.
    + exists (S n), attempt, d, last, w. split; [done|]. left.
      rewrite (attempts_not_caught _ _ _ _ _ _ _ _ _ _ _ _ Hf Hc). by rewrite Hf.
Qed.

Section counters.
(** Counts of the invocations made and of the sleeps taken, kept in the
    state. *)
Variables calls slept : W → nat.
Hypothesis func_counted : ∀ w, calls (func w).2 = S (calls w) ∧ slept (func w).2 = slept w.
Hypothesis sleep_counted : ∀ x w, calls (sleep x w) = calls w ∧ slept (sleep x w) = S (slept w).

Lemma attempts_counts n attempt d last w :
  (attempt + Z.of_nat (S n) = retries + 1)%Z →
  ∃ k, (1 ≤ k ≤ S n)%nat
       ∧ calls (attempts (S n) attempt d last w).2 = (calls w + k)%nat
       ∧ (slept (attempts (S n) attempt d last w).2 + 1 = slept w + k)%nat.
Proof.
  revert attempt d last w. induction n as [|n IH]; intros attempt d last w Hcount;
    destruct (func_counted w) as [Hcalls Hslept];
    destruct (func w) as [[a|e] w'] eqn:Hf; simpl in Hcalls, Hslept.
  - exists 1%nat. simpl. rewrite Hf. simpl. lia.
  - exists 1%nat. simpl. rewrite Hf. simpl.
    destruct (caught_wait e d); [|simpl; lia].
    replace (attempt <? retries)%Z with false by lia. simpl. lia.
  - exists 1%nat. rewrite (attempts_success _ _ _ _ _ _ _ _ _ _ _ _ Hf). simpl. lia.
  - assert (attempt < retries)%Z as Hlt by lia.
    destruct (caught_wait e d) as [wait|] eqn:Hc;
      [destruct (sleep_error (py_min wait max_delay)) as [e'|] eqn:Hs|].
    + exists 1%nat.
      rewrite (attempts_refused _ _ _ _ _ _ _ _ _ _ _ _ _ _ Hf Hc Hlt Hs). simpl. lia.
    + rewrite (attempts_retry _ _ _ _ _ _ _ _ _ _ _ _ _ Hf Hc Hlt Hs).
      destruct (IH (attempt + 1)%Z (py_min (d * backoff)%float max_delay) (Some e)
                  (sleep (py_min wait max_delay) w')) as (k & Hk & Hc' & Hs'); [lia|].
      destruct (sleep_counted (py_min wait max_delay) w') as [Hcalls' Hslept'].
      exists (S k). lia.
    + exists 1%nat.
      rewrite (attempts_not_caught _ _ _ _ _ _ _ _ _ _ _ _ Hf Hc). simpl. lia.
Qed.
End counters.
End retry_run.

(** X1: one wait between two attempts, none after the last.  A call of
    the wrapper with [retries >= 0] invokes the function [k] times, for
    some [k] from 1 to [retries + 1], and sleeps [k - 1] times, however
    the invocations end; with [retries < 0] it invokes nothing, sleeps
    never and returns [None].  [calls] and [slept] are counts of the
    invocations and of the sleeps kept in the state. *)
Theorem retry_sleeps_between_attempts {W A : Type}
    (sleep : float → W → W) (retries : Z) (delay backoff max_delay : float)
    (func : W → result A * W) (calls slept : W → nat) :
  (∀ w, calls (func w).2 = S (calls w) ∧ slept (func w).2 = slept w) →
  (∀ x w, calls (sleep x w) = calls w ∧ slept (sleep x w) = S (slept w)) →
  ∀ w,
    let run := retry_with_backoff sleep retries delay backoff max_delay func w in
    ((retries < 0)%Z → run = (Ok None, w))
    ∧ ((0 ≤ retries)%Z →
       ∃ k, (1 ≤ k ≤ Z.to_nat (retries + 1))%nat
            ∧ calls run.2 = (calls w + k)%nat
            ∧ (slept run.2 + 1 = slept w + k)%nat).
Proof.
  intros Hfunc Hsleep w run. subst run. unfold retry_with_backoff. split.
  - intros Hneg. by replace (Z.to_nat (retries + 1)) with 0%nat by lia.
  - intros Hr. destruct (Z.to_nat (retries + 1)) as [|n] eqn:Hn; [lia|].
    apply (attempts_counts sleep retries backoff max_delay func calls slept
             Hfunc Hsleep n 0%Z delay None w).
    lia.
Qed.

Lemma retry_sleeps_between_attempts_witness :
  let func :=
    Mock.scripted (failing_then [RequestException "Read timed out"] (Ok (JInt 7))) in
  let run := retry_with_backoff Mock.sleep 3 1 2 60 func Mock.start in
  ∃ k, (1 ≤ k ≤ 4)%nat
       ∧ Mock.calls run.2 = (0 + k)%nat
       ∧ (length (Mock.slept run.2) + 1 = 0 + k)%nat.
Proof.
  intros func run.
  apply (proj2 (retry_sleeps_between_attempts Mock.sleep 3 1 2 60 func
                  Mock.calls (λ w, length (Mock.slept w))
                  (λ w, conj eq_refl eq_refl)
                  (λ x w, conj eq_refl
                            (eq_trans (length_app (Mock.slept w) [x])
                               (Nat.add_1_r (length (Mock.slept w)))))
                  Mock.start)).
  done.
Defined.

(** X2: the wrapper adds nothing to its last invocation but what
    [time.sleep] raises.  With [retries >= 0] a call ends in the state
    that an invocation of the function, made in a state the loop reaches,
    left, and it ends with what that invocation returned or raised, or,
    when the invocation failed with a failure the wrapper catches, another
    attempt was to come and [time.sleep] refused the wait, with the
    exception of [time.sleep]: apart from this the wrapper raises no
    exception of its own, it takes no sleep after the last attempt, and it
    does not return [None] in place of a result. *)
Theorem retry_outcome_is_last_invocation {W A : Type}
    (sleep : float → W → W) (retries : Z) (delay backoff max_delay : float)
    (func : W → result A * W) (w0 : W) :
  (0 ≤ retries)%Z →
  ∃ n attempt d last w_last,
    reached sleep retries delay backoff max_delay func w0 (S n) attempt d last w_last
    ∧ (retry_with_backoff sleep retries delay backoff max_delay func w0
       = (returned (func w_last).1, (func w_last).2)
       ∨ ∃ e wait e',
           (func w_last).1 = Raise e
           ∧ caught_wait e d = Some wait
           ∧ (attempt < retries)%Z
           ∧ sleep_error (py_min wait max_delay) = Some e'
           ∧ retry_with_backoff sleep retries delay backoff max_delay func w0
             = (Raise e', (func w_last).2)).
Proof.
  intros Hr.
  pose proof (reached_first sleep retries delay backoff max_delay func w0) as Hfirst.
  unfold retry_with_backoff.
  destruct (Z.to_nat (retries + 1)) as [|n] eqn:Hn; [lia|].
  by apply attempts_last.
Qed.

Lemma retry_outcome_is_last_invocation_witness :
  let func :=
    Mock.scripted (failing_then [RequestException "Read timed out"] (Ok (JInt 7))) in
  ∃ n attempt d last w_last,
    reached Mock.sleep 3 1 2 60 func Mock.start (S n) attempt d last w_last
    ∧ (retry_with_backoff Mock.sleep 3 1 2 60 func Mock.start
       = (returned (func w_last).1, (func w_last).2)
       ∨ ∃ e wait e',
           (func w_last).1 = Raise e
           ∧ caught_wait e d = Some wait
           ∧ (attempt < 3)%Z
           ∧ sleep_error (py_min wait 60) = Some e'
           ∧ retry_with_backoff Mock.sleep 3 1 2 60 func Mock.start
             = (Raise e', (func w_last).2)).
Proof.
  intros func.
  apply (retry_outcome_is_last_invocation Mock.sleep 3 1 2 60 func Mock.start).
  done.
Defined.

Section schedule.
Context {A : Type}.
Variables (retries : Z) (delay backoff max_delay : float).
Variable script : nat → result A.

Lemma attempts_scripted (failures : list exn) (last : result A) :
  ∀ n j l last_exception,
    (∀ i e, failures !! i = Some e →
            script (j + i) = Raise e ∧ retryable e = true
            ∧ sleep_error (scheduled_wait backoff max_delay delay (j + i) e) = None) →
    script (j + length failures) = last →
    (Z.of_nat (j + length failures) ≤ retries)%Z →
    (Z.of_nat j + Z.of_nat (S n) = retries + 1)%Z →
    (∀ e, last = Raise e → retryable e = true → Z.of_nat (j + length failures) = retries) →
    attempts Mock.sleep retries backoff max_delay (Mock.scripted script) (S n)
      (Z.of_nat j) (grown backoff max_delay delay j) last_exception
      {| Mock.calls := j; Mock.slept := l |}
    = (returned last,
       {| Mock.calls := S (j + length failures);
          Mock.slept :=
            (l ++ imap (λ i, scheduled_wait backoff max_delay delay (j + i)) failures)%list |}).
Proof.
  induction failures as [|e failures IH]; intros n j l last_exception Hfail Hlast Hle Hn Hex.
  - simpl in *. rewrite Nat.add_0_r in *. rewrite app_nil_r.
    unfold Mock.scripted at 1. simpl. rewrite Hlast.
    destruct last as [a|e]; simpl; [done|].
    destruct (retryable e) eqn:He.
    + rewrite (caught_wait_scheduled _ _ He).
      specialize (Hex e eq_refl He).
      replace (Z.of_nat j <? retries)%Z with false by lia.
      assert (n = 0%nat) as -> by lia. done.
    + by rewrite (caught_wait_not_retryable _ _ He).
  - destruct (Hfail 0%nat e eq_refl) as (Hscript & He & Hs).
    rewrite Nat.add_0_r in Hscript, Hs.
    simpl in Hle, Hlast.
    destruct n as [|n]; [lia|].
    assert (Mock.scripted script {| Mock.calls := j; Mock.slept := l |}
            = (Raise e, {| Mock.calls := S j; Mock.slept := l |})) as Hf.
    { unfold Mock.scripted. simpl. by rewrite Hscript. }
    rewrite (attempts_retry Mock.sleep retries backoff max_delay (Mock.scripted script)
               (S n) (Z.of_nat j) _ last_exception _ e _ _ Hf
               (caught_wait_scheduled _ _ He)) by (exact Hs || lia).
    replace (Z.of_nat j + 1)%Z with (Z.of_nat (S j)) by lia.
    change (py_min (grown backoff max_delay delay j * backoff)%float max_delay)
      with (grown backoff max_delay delay (S j)).
    unfold Mock.sleep. simpl Mock.calls. simpl Mock.slept.
    rewrite (IH n (S j) _ (Some e)).
    + f_equal. f_equal; [simpl; lia|].
      rewrite <- app_assoc. f_equal. simpl. f_equal.
      * unfold scheduled_wait. by rewrite Nat.add_0_r.
      * apply imap_ext. intros i x _. simpl. f_equal. lia.
    + intros i e' Hi. replace (S j + i)%nat with (j + S i)%nat by lia.
      by apply Hfail.
    + rewrite <- Hlast. f_equal. lia.
    + lia.
    + lia.
    + intros e' Hl He'. specialize (Hex e' Hl He'). simpl in Hex. lia.
Qed.
End schedule.

(** X3: the schedule of a run.  When the function fails with each of
    [failures] in turn, all of them caught by the wrapper and no more than
    [retries] of them, and then ends with [last], a result, a failure the
    wrapper does not catch, or a caught one at the last attempt, and
    [time.sleep] accepts each wait of the schedule, the call ends as [last]
    does after one invocation more than there were failures, and the
    sleeps taken are, in order, one per failure: the hint of the failure
    if it has one other than zero, the initial delay multiplied by
    [backoff] and capped once per earlier wait if not, capped by
    [max_delay].  A hint does not enter the delay of the later waits. *)
Theorem backoff_schedule {A : Type} (retries : Z) (delay backoff max_delay : float)
    (failures : list exn) (last : result A) :
  (Z.of_nat (length failures) ≤ retries)%Z →
  Forall (λ e, retryable e = true) failures →
  Forall (λ wait, sleep_error wait = None)
    (imap (scheduled_wait backoff max_delay delay) failures) →
  (∀ e, last = Raise e → retryable e = true → Z.of_nat (length failures) = retries) →
  retry_with_backoff Mock.sleep retries delay backoff max_delay
    (Mock.scripted (failing_then failures last)) Mock.start
  = (returned last,
     {| Mock.calls := S (length failures);
        Mock.slept := imap (scheduled_wait backoff max_delay delay) failures |}).
Proof.
  intros Hle Hfail Hwaits Hex. unfold retry_with_backoff.
  destruct (Z.to_nat (retries + 1)) as [|n] eqn:Hn; [lia|].
  apply (attempts_scripted retries delay backoff max_delay (failing_then failures last)
           failures last n 0%nat [] None).
  - intros i e Hi. simpl. unfold failing_then. rewrite Hi. split; [done|].
    split; [by apply (proj1 (Forall_lookup _ _) Hfail i e)|].
    apply (proj1 (Forall_lookup _ _) Hwaits i).
    by rewrite list_lookup_imap, Hi.
  - simpl. unfold failing_then. by rewrite lookup_ge_None_2.
  - simpl. lia.
  - lia.
  - intros e Hl He. specialize (Hex e Hl He). simpl. lia.
Qed.

Lemma backoff_schedule_witness :
  retry_with_backoff Mock.sleep 3 1 2 60
    (Mock.scripted
       (failing_then [RetryableError "Rate limited (429)" (Some 120%float);
                      RequestException "Read timed out";
                      RetryableError "Rate limited (429)" (Some 0%float)]
          (Ok (JInt 7))))
    Mock.start
  = (Ok (Some (JInt 7)),
     {| Mock.calls := 4; Mock.slept := [60%float; 2%float; 4%float] |}).
Proof.
  apply (backoff_schedule 3 1 2 60
           [RetryableError "Rate limited (429)" (Some 120%float);
            RequestException "Read timed out";
            RetryableError "Rate limited (429)" (Some 0%float)]
           (Ok (JInt 7))).
  - simpl. lia.
  - repeat constructor.
  - repeat constructor.
  - intros e [=].
Defined.

(* ===================================================================== *)
(** * The parser: what it raises, what it defaults to *)
(* ===================================================================== *)

Lemma float_of_int_raises (z : Z) (e : exn) :
  float_of_int z = Raise e → ∃ msg, e = OverflowError msg.
Proof.
  unfold float_of_int. destruct (binary_normalize _ _ _ _ _); try done.
  intros [= <-]. by eexists.
Qed.

Lemma int_of_float_raises (f : float) (e : exn) :
  int_of_float f = Raise e →
  is_TypeError_or_ValueError e = true ∨ ∃ msg, e = OverflowError msg.
Proof.
  unfold int_of_float. destruct (Prim2SF f); try done; intros [= <-]; eauto.
Qed.

Section raises.
Context `{Builtins}.

Lemma py_int_raises (v : json) (e : exn) :
  py_int v = Raise e →
  is_TypeError_or_ValueError e = true ∨ ∃ msg, e = OverflowError msg.
Proof.
  destruct v; simpl; try done; try (intros [= <-]; by left).
  - apply int_of_float_raises.
  - destruct (int_of_str _); [done|]. intros [= <-]. by left.
Qed.

Lemma py_float_raises (v : json) (e : exn) :
  py_float v = Raise e →
  is_TypeError_or_ValueError e = true ∨ ∃ msg, e = OverflowError msg.
Proof.
  destruct v; simpl; try done; try (intros [= <-]; by left).
  - intros He. right. by eapply float_of_int_raises.
  - intros He. right. by eapply float_of_int_raises.
  - destruct (float_of_str _); [done|]. intros [= <-]. by left.
Qed.

Lemma extract_price_raises (data : gmap string json) (key : string) (e : exn) :
  ModelPricing.extract_price data key = Raise e → ∃ msg, e = OverflowError msg.
Proof.
  unfold ModelPricing.extract_price.
  destruct (dict_get data key) as [| | | | | |sub]; try done.
  assert (∀ val, try_except (usd ← py_float val; Ok (Some usd))
                   is_TypeError_or_ValueError (λ _, Ok None) = Raise e →
                 ∃ msg, e = OverflowError msg) as Hval.
  { intros val. destruct (py_float val) as [usd|e'] eqn:Hf; simpl; [done|].
    destruct (py_float_raises _ _ Hf) as [->|[msg ->]]; [done|].
    intros [= <-]. by eexists. }
  destruct (dict_get sub "usd"); try done; apply Hval.
Qed.

Lemma pricing_from_dict_raises (data : json) (e : exn) :
  ModelPricing.from_dict data = Raise e → ∃ msg, e = OverflowError msg.
Proof.
  destruct data as [| | | | | |d]; try done. simpl.
  destruct (ModelPricing.extract_price d "input") as [i|e'] eqn:Hi; simpl.
  - destruct (ModelPricing.extract_price d "output") as [o|e'] eqn:Ho; simpl; [done|].
    intros [= <-]. by eapply extract_price_raises.
  - intros [= <-]. by eapply extract_price_raises.
Qed.

Lemma temperature_of_raises (temp_obj : json) (e : exn) :
  Model.temperature_of temp_obj = Raise e → ∃ msg, e = OverflowError msg.
Proof.
  destruct temp_obj as [| | | | | |d]; try done. simpl.
  destruct (dict_get d "default"); try done; apply float_of_int_raises.
Qed.

Lemma spec_of_empty (data : gmap string json) :
  (∀ spec, data !! "model_spec" = Some (JDict spec) → spec = ∅) →
  spec_of data = ∅.
Proof.
  intros Hspec. unfold spec_of, py_or, dict_get.
  destruct (data !! "model_spec") as [[| | | | | |spec]|] eqn:Hd; simpl;
    try done;
    try (by repeat match goal with |- context [if ?c then _ else _] => destruct c end).
  by rewrite (Hspec spec eq_refl).
Qed.
End raises.

(** X6: the two exceptions of the parser.  Whatever the record, when
    [from_api_response] raises it is either an [AttributeError], and then
    the [constraints] of the record are true as a condition without being
    a dict, or an [OverflowError], that of a number out of the range of a
    float: never the [TypeError] or [ValueError] of a failed
    conversion. *)
Theorem from_api_response_exceptions `{Builtins} (data : gmap string json)
    (fallback_type : json) (e : exn) :
  Model.from_api_response data fallback_type = Raise e →
  (∃ msg, e = OverflowError msg)
  ∨ (∃ msg c, e = AttributeError msg
              ∧ spec_of data !! "constraints" = Some c
              ∧ truthy c = true
              ∧ ∀ d, c ≠ JDict d).
Proof.
  destruct (dict_get data "id") as [| | | |model_id| |] eqn:Hid;
    try (unfold Model.from_api_response; by rewrite Hid).
  destruct (truthy (JStr model_id)) eqn:Hne;
    [|unfold Model.from_api_response; by rewrite Hid, Hne].
  assert (has_id data model_id) as Hhas.
  { split; [|by apply truthy_JStr].
    unfold dict_get in Hid. by destruct (data !! "id") as [v|]; simplify_eq/=. }
  rewrite (from_api_response_steps _ _ _ Hhas).
  destruct (try_except _ _ _) as [context|e'] eqn:Hcontext; simpl.
  2:{ intros [= <-]. left.
      destruct (py_int _) as [z|e''] eqn:Hint; simpl in Hcontext; [done|].
      destruct (py_int_raises _ _ Hint) as [Hcaught|[msg ->]].
      - rewrite Hcaught in Hcontext. discriminate Hcontext.
      - simpl in Hcontext. injection Hcontext as <-. by eexists. }
  destruct (obj_get _ "temperature") as [temperature|e'] eqn:Hconstraints; simpl.
  2:{ intros [= <-]. right.
      unfold py_or, dict_get in Hconstraints.
      destruct (spec_of data !! "constraints") as [c|] eqn:Hc; simpl in Hconstraints;
        [|done].
      destruct (truthy c) eqn:Htruthy; [|done].
      destruct c; simpl in Hconstraints; try done;
        injection Hconstraints as <-; by do 2 eexists. }
  destruct (Model.temperature_of _) as [default_temp|e'] eqn:Htemp; simpl.
  2:{ intros [= <-]. left. by eapply temperature_of_raises. }
  destruct (ModelPricing.from_dict _) as [pricing|e'] eqn:Hpricing; simpl; [done|].
  intros [= <-]. left. by eapply pricing_from_dict_raises.
Qed.

Lemma from_api_response_exceptions_witness :
  let data : gmap string json :=
    {[ "id" := JStr "m1";
       "model_spec" := JDict {[ "availableContextTokens" := JFloat infinity ]} ]} in
  let e := OverflowError "cannot convert float infinity to integer" in
  Model.from_api_response (H:=ascii_builtins) data (JStr "text") = Raise e
  ∧ ((∃ msg, e = OverflowError msg)
     ∨ (∃ msg c, e = AttributeError msg
                 ∧ spec_of data !! "constraints" = Some c
                 ∧ truthy c = true
                 ∧ ∀ d, c ≠ JDict d)).
Proof.
  intros data e.
  assert (Model.from_api_response (H:=ascii_builtins) data (JStr "text") = Raise e)
    as Hraise by (vm_compute; reflexivity).
  split; [exact Hraise|].
  exact (from_api_response_exceptions (H:=ascii_builtins) data (JStr "text") e Hraise).
Defined.

(** X7: a record with nothing but an id.  When the record has an id and
    its [model_spec] is missing or empty, or is a string, a list or a
    number, the parser answers an entry with every default: the id as
    name, the declared type or the fallback, 32768 tokens, the
    temperature 0.7, no capability and both prices unknown. *)
Theorem record_without_spec `{Builtins} (data : gmap string json)
    (fallback_type : json) (model_id : string) :
  has_id data model_id →
  (∀ spec, data !! "model_spec" = Some (JDict spec) → spec = ∅) →
  Model.from_api_response data fallback_type
  = Ok (Some {| Model.id := model_id;
                Model.name := Text model_id;
                Model.model_type := py_or (dict_get data "type") fallback_type;
                Model.context_tokens := 32768;
                Model.default_temperature := 0x1.6666666666666p-1;
                Model.capabilities := ModelCapabilities.none;
                Model.pricing := ModelPricing.unknown |}).
Proof.
  intros Hhas Hspec.
  rewrite (from_api_response_steps _ _ _ Hhas), (spec_of_empty _ Hspec).
  destruct Hhas as [_ Hne]. apply truthy_JStr in Hne.
  unfold dict_get_default, dict_get. rewrite !lookup_empty. simpl.
  unfold py_or. simpl.
  by destruct model_id.
Qed.

Lemma record_without_spec_witness :
  let data : gmap string json :=
    {[ "id" := JStr "m1"; "type" := JStr "image"; "model_spec" := JList [JInt 1] ]} in
  Model.from_api_response (H:=ascii_builtins) data (JStr "text")
  = Ok (Some {| Model.id := "m1";
                Model.name := Text "m1";
                Model.model_type := JStr "image";
                Model.context_tokens := 32768;
                Model.default_temperature := 0x1.6666666666666p-1;
                Model.capabilities := ModelCapabilities.none;
                Model.pricing := ModelPricing.unknown |}).
Proof.
  intros data.
  apply (record_without_spec (H:=ascii_builtins) data (JStr "text") "m1").
  - split; [reflexivity|discriminate].
  - intros spec. vm_compute. discriminate.
Defined.

(** X8: from the flags of the API to the listing and the serialized
    entry.  For each capability, its label is in [to_list] of the parsed
    capabilities exactly when the record gives its flag a value that is
    true as a condition, and [to_dict] holds that truth value under its
    key; no label is listed twice. *)
Theorem capabilities_from_flags (d : gmap string json) (flag key label : string) :
  (flag, key, label) ∈ capability_table →
  let c := ModelCapabilities.from_dict (JDict d) in
  (label ∈ ModelCapabilities.to_list c ↔ truthy (dict_get d flag) = true)
  ∧ ModelCapabilities.to_dict c !! key = Some (JBool (truthy (dict_get d flag)))
  ∧ NoDup (ModelCapabilities.to_list c).
Proof.
  intros Hin c. subst c.
  unfold capability_table in Hin. rewrite !elem_of_cons, elem_of_nil in Hin.
  unfold ModelCapabilities.from_dict, ModelCapabilities.to_list. simpl.
  destruct Hin as [Hin|[Hin|[Hin|[Hin|[Hin|[Hin|[]]]]]]]; injection Hin as -> -> ->;
    generalize (truthy (dict_get d "supportsVision")) as b1;
    generalize (truthy (dict_get d "supportsReasoning")) as b2;
    generalize (truthy (dict_get d "supportsFunctionCalling")) as b3;
    generalize (truthy (dict_get d "supportsWebSearch")) as b4;
    generalize (truthy (dict_get d "optimizedForCode")) as b5;
    generalize (truthy (dict_get d "supportsResponseSchema")) as b6;
    intros b6 b5 b4 b3 b2 b1;
    (split; [|split; [reflexivity|]]);
    destruct b1, b2, b3, b4, b5, b6; simpl;
    lazymatch goal with
    | |- _ ↔ true = true =>
        split; [done|intros _; apply (bool_decide_unpack _); vm_compute; exact I]
    | |- _ ↔ false = true =>
        split; [|done];
        let Hx := fresh in
        intros Hx; apply (bool_decide_pack _) in Hx; vm_compute in Hx; destruct Hx
    | |- NoDup _ => apply (bool_decide_unpack _); vm_compute; exact I
    end.
Qed.

Lemma capabilities_from_flags_witness :
  let d : gmap string json :=
    {[ "supportsFunctionCalling" := JBool true; "supportsVision" := JInt 0 ]} in
  let c := ModelCapabilities.from_dict (JDict d) in
  ModelCapabilities.to_list c = ["Tools"]
  ∧ ("Tools" ∈ ModelCapabilities.to_list c
     ↔ truthy (dict_get d "supportsFunctionCalling") = true)
  ∧ ModelCapabilities.to_dict c !! "tools"
    = Some (JBool (truthy (dict_get d "supportsFunctionCalling")))
  ∧ NoDup (ModelCapabilities.to_list c).
Proof.
  intros d c. split; [reflexivity|].
  apply (capabilities_from_flags d "supportsFunctionCalling" "tools" "Tools").
  apply (bool_decide_unpack _). vm_compute. exact I.
Defined.

(* ===================================================================== *)
(** * The client: the cache in a fetch, the type of an entry, the status *)
(* ===================================================================== *)

Section client_facts.
Context `{Builtins}.

(** A record that is not a dict stops the parsing. *)
Lemma parse_each_not_dict (items : list json) (default_type : string)
    (models : list Model.t) (x : json) :
  x ∈ items → (∀ d, x ≠ JDict d) →
  ∃ e, VeniceClient.parse_each items default_type models = Raise e.
Proof.
  intros Hin Hx. revert models.
  induction items as [|raw items IH]; intros models; [by apply elem_of_nil in Hin|].
  apply elem_of_cons in Hin as [<-|Hin].
  - destruct x as [| | | | | |d]; try (by eexists). by destruct (Hx d).
  - simpl. destruct (pop_fallback_type raw default_type) as [[fallback raw']|e]; simpl;
      [|by eexists].
    destruct (Model.from_api_response raw' fallback) as [model|e]; simpl; [|by eexists].
    by apply IH.
Qed.

(** Data that is true as a condition and is not a list of dicts cannot be
    parsed. *)
Lemma _parse_models_wrong_shape (self : VeniceClient.t) (data : json)
    (model_type : ModelType) :
  truthy data = true →
  match data with
  | JList l => ∃ x, x ∈ l ∧ ∀ d, x ≠ JDict d
  | _ => True
  end →
  ∃ e, VeniceClient._parse_models self data model_type = Raise e.
Proof.
  intros Htruthy Hshape. unfold VeniceClient._parse_models.
  assert (∀ items, py_iter data = Ok items →
                   ∃ x, x ∈ items ∧ ∀ d, x ≠ JDict d) as Hitems.
  { destruct data as [|b|z|f|s|l|d]; simpl; try done.
    - intros items [= <-]. destruct s as [|c s]; [done|]. simpl.
      eexists. split; [apply list_elem_of_here|done].
    - by intros items [= <-].
    - intros items [= <-]. simpl in Htruthy.
      destruct (map_to_list d) as [|[k v] kvs] eqn:Hd.
      + apply map_to_list_empty_iff in Hd as ->.
        rewrite map_size_empty in Htruthy. done.
      + simpl. eexists. split; [apply list_elem_of_here|done]. }
  destruct (py_iter data) as [items|e]; simpl; [|by eexists].
  destruct (Hitems items eq_refl) as (x & Hin & Hx).
  destruct (parse_each_not_dict items
              (if negb (is_ALL model_type) then value model_type else "text") [] x Hin Hx)
    as [e ->].
  by eexists.
Qed.

(** What [time.sleep] raises is a [ValueError] or an [OverflowError]. *)
Lemma sleep_error_class (x : float) (e : exn) :
  sleep_error x = Some e → (∃ m, e = ValueError m) ∨ (∃ m, e = OverflowError m).
Proof.
  unfold sleep_error. destruct (is_nan x); [intros [= <-]; eauto|].
  destruct (_ || _); [intros [= <-]; eauto|].
  destruct (_ || _); [intros [= <-]; eauto|done].
Qed.

(** The exceptions [_fetch] raises are those of its invocations, made
    against the same server, and those of [time.sleep]. *)
Lemma _fetch_raises (self : VeniceClient.t) (endpoint : string)
    (params : list (string * string)) (w w' : World.t) (e : exn) :
  VeniceClient._fetch self endpoint params w = (Raise e, w') →
  (∃ w_last, World.net w_last = World.net w
             ∧ (VeniceClient._fetch_once self endpoint params w_last).1 = Raise e)
  ∨ (∃ x, sleep_error x = Some e).
Proof.
  unfold VeniceClient._fetch, retry_with_backoff.
  change (Z.to_nat (DEFAULT_RETRIES + 1)) with 4%nat. intros Hrun.
  destruct (attempts_last World.sleep DEFAULT_RETRIES DEFAULT_RETRY_DELAY 2 60
              (VeniceClient._fetch_once self endpoint params) w 3 0 DEFAULT_RETRY_DELAY
              None w ltac:(done)
              (reached_first World.sleep DEFAULT_RETRIES DEFAULT_RETRY_DELAY 2 60
                 (VeniceClient._fetch_once self endpoint params) w))
    as (n & attempt & d & last & w_last & Hreach & [Hlast|Hlast]).
  - left. rewrite Hlast in Hrun.
    destruct (reached_calls World.sleep DEFAULT_RETRIES DEFAULT_RETRY_DELAY 2 60
                (VeniceClient._fetch_once self endpoint params)
                (λ w1, World.net w1 = World.net w) (λ w1, length (World.requests w1)))
      with (w0 := w) (n := S n) (attempt := attempt) (d := d) (last := last) (w := w_last)
      as (Hnet & _).
    + intros w1 Hw1.
      destruct (_fetch_once_traffic self endpoint params w1) as (Hr & _ & Hn & _).
      split; [by rewrite Hn|]. rewrite Hr, length_app. simpl. lia.
    + by intros x w1 Hw1.
    + done.
    + done.
    + exists w_last. split; [done|].
      destruct (VeniceClient._fetch_once self endpoint params w_last) as [[a|e'] w2];
        simpl in *; [done|]. by injection Hrun as ->.
  - right. destruct Hlast as (e0 & wait & e' & _ & _ & _ & Hs & Hlast).
    rewrite Hlast in Hrun. injection Hrun as -> _. by eexists.
Qed.

(** An [HTTPError] out of [_fetch] comes from [raise_for_status]. *)
Lemma _fetch_HTTPError (self : VeniceClient.t) (endpoint : string)
    (params : list (string * string)) (w w' : World.t) (status : Z) :
  http_errors_from_status_only w →
  VeniceClient._fetch self endpoint params w = (Raise (HTTPError status), w') →
  (400 ≤ status < 600)%Z.
Proof.
  intros Honly Hrun.
  destruct (_fetch_raises _ _ _ _ _ _ Hrun) as [(w_last & Hnet & Hlast)|[x Hs]];
    [|by destruct (sleep_error_class x _ Hs) as [[m Hm]|[m Hm]]].
  unfold VeniceClient._fetch_once, mbind, IO_bind, World.send in Hlast.
  rewrite Hnet in Hlast.
  destruct (Honly (length (World.requests w_last))
              (Build_Request (VeniceClient.base_url self ++ "/" ++ lstrip_slash endpoint)
                 params (VeniceClient.timeout self)) status) as [Hfails Hbody].
  destruct (World.net w _ _) as [resp|e]; simpl in Hlast.
  - destruct (status_code resp =? 429)%Z; [done|].
    unfold lift, raise_for_status in Hlast.
    destruct ((400 <=? status_code resp)%Z && (status_code resp <? 600)%Z) eqn:Hrange;
      simpl in Hlast.
    + injection Hlast as <-. lia.
    + by destruct (Hbody resp eq_refl).
  - injection Hlast as ->. done.
Qed.
End client_facts.

(** X11: a second fetch is served from the cache.  When a call of
    [fetch_models] finds no fresh record to use, gathers from the server
    a list of records that is not empty, and the directory accepts the
    write, then the call returns what [_parse_models] makes of the
    records, and the same call made again in the state the first one
    leaves returns the same and changes nothing: no request is sent.  The
    age zero has to be within the fresh TTL. *)
Theorem repeated_fetch_is_served_from_cache `{Builtins} (self : VeniceClient.t)
    (cache : CacheManager.t) (model_type : ModelType) (w w_g : World.t)
    (raw_models : list json) :
  VeniceClient.cache self = Some cache →
  (∀ cached,
     (CacheManager.get cache ("models_" ++ value model_type) w).1 = Ok (cached, true) →
     truthy cached = false) →
  VeniceClient.gather self model_type w = ((raw_models, None), w_g) →
  raw_models ≠ [] →
  World.writable w = true →
  float_le_int (World.now w_g - World.now w_g)%float (CacheManager.fresh_ttl cache) = true →
  let first := VeniceClient.fetch_models self model_type w in
  first.1 = VeniceClient._parse_models self (JList raw_models) model_type
  ∧ VeniceClient.fetch_models self model_type first.2 = first.
Proof.
  intros Hcache Hnot_fresh Hgather Hraw Hwritable Hzero first.
  assert (truthy (JList raw_models) = true) as Htruthy by (by destruct raw_models).
  assert (World.writable w_g = true) as Hwritable'.
  { destruct (gather_traffic self model_type w) as (rs & ss & Ht & _).
    rewrite Hgather in Ht. simpl in Ht. by rewrite (traffic_writable _ _ _ _ Ht). }
  set (key := "models_" ++ value model_type) in *.
  assert (World.blocked w !! CacheManager._cache_path cache key = None) as Hblocked.
  { unfold World.writable in Hwritable. apply andb_true_iff in Hwritable as [_ Hb].
    apply bool_decide_eq_true in Hb. by rewrite Hb, lookup_empty. }
  destruct (set_accepted cache key (JList raw_models) w_g Hwritable')
    as (fs & Hset & Hfs).
  set (w1 := World.with_files fs w_g).
  assert (first = (VeniceClient._parse_models self (JList raw_models) model_type, w1))
    as Hfirst.
  { subst first. unfold VeniceClient.fetch_models. rewrite Hcache. fold key.
    destruct (get_returns cache key w Hblocked) as [[cached is_fresh] Hget]. rewrite Hget.
    assert (truthy cached && is_fresh = false) as ->.
    { destruct is_fresh; [|by rewrite andb_false_r].
      rewrite (Hnot_fresh cached); [done|]. by rewrite Hget. }
    unfold VeniceClient.fetch_uncached, VeniceClient.try_live_fetch.
    rewrite Hgather, Hcache, Htruthy, Hset. simpl.
    by destruct raw_models. }
  rewrite Hfirst. split; [done|]. simpl.
  unfold VeniceClient.fetch_models. rewrite Hcache. fold key.
  rewrite (get_readable cache key w1 _ (JList raw_models) Hfs eq_refl). simpl.
  rewrite Hzero. by destruct raw_models.
Qed.

Lemma repeated_fetch_is_served_from_cache_witness :
  let w := world_facing (serving [JDict {[ "id" := JStr "m1" ]}]) in
  let first := VeniceClient.fetch_models (H:=ascii_builtins) home_client IMAGE w in
  length (World.requests first.2) = 1%nat
  ∧ first.1
    = VeniceClient._parse_models (H:=ascii_builtins) home_client
        (JList [JDict {[ "id" := JStr "m1"; "_fallback_type" := JStr "image" ]}]) IMAGE
  ∧ VeniceClient.fetch_models (H:=ascii_builtins) home_client IMAGE first.2 = first.
Proof.
  intros w first. split; [by vm_compute|].
  apply (repeated_fetch_is_served_from_cache (H:=ascii_builtins) home_client
           (CacheManager.init "/home/faye/.cache/venice_sync") IMAGE w
           (VeniceClient.gather (H:=ascii_builtins) home_client IMAGE w).2
           [JDict {[ "id" := JStr "m1"; "_fallback_type" := JStr "image" ]}]).
  - reflexivity.
  - intros cached. vm_compute. discriminate.
  - vm_compute. reflexivity.
  - discriminate.
  - reflexivity.
  - vm_compute. reflexivity.
Defined.

(** X12: the stale record is served when the server is down.  With the
    server down for every request and, in the cache, a readable record for
    the type asked for whose data is true as a condition and which is still
    within the stale TTL when the live attempt has ended, [fetch_models]
    returns what [_parse_models] makes of that record. *)
Theorem stale_record_is_served_when_down `{Builtins} (self : VeniceClient.t)
    (cache : CacheManager.t) (model_type : ModelType) (w : World.t)
    (file : CacheFile) (data : json) :
  VeniceClient.cache self = Some cache →
  unreachable w →
  World.files w !! cache_file_of cache model_type = Some file →
  content file = Ok data →
  truthy data = true →
  float_le_int
    (World.now (VeniceClient.try_live_fetch self model_type
                  ("models_" ++ value model_type) w).2 - mtime file)%float
    (CacheManager.stale_ttl cache) = true →
  (VeniceClient.fetch_models self model_type w).1
  = VeniceClient._parse_models self data model_type.
Proof.
  unfold cache_file_of. intros Hcache Hdown Hfile Hcontent Htruthy Hstale.
  set (key := "models_" ++ value model_type) in *.
  unfold VeniceClient.fetch_models. rewrite Hcache. fold key.
  rewrite (get_readable cache key w file data Hfile Hcontent).
  destruct (float_le_int _ (CacheManager.fresh_ttl cache)); [by rewrite Htruthy|].
  assert ((VeniceClient.fetch_uncached self model_type key w).1
          = VeniceClient._parse_models self data model_type) as Hlive.
  { unfold VeniceClient.fetch_uncached.
    destruct (try_live_fetch_unreachable self model_type key w Hdown)
      as (w' & Hrun & Hnet & Hfiles & _).
    rewrite Hrun in Hstale |- *. simpl in Hstale. rewrite Hcache. simpl negb. cbv iota.
    rewrite (get_stale_readable cache key w' file data) by (by rewrite ?Hfiles).
    by rewrite Hstale, Htruthy. }
  destruct (float_le_int (World.now w - mtime file)%float (CacheManager.stale_ttl cache));
    simpl; rewrite ?andb_false_r; exact Hlive.
Qed.

Lemma stale_record_is_served_when_down_witness :
  let data := JList [JDict {[ "id" := JStr "m1" ]}] in
  let w := world_with_record 3600 data refusing_server in
  (VeniceClient.fetch_models (H:=ascii_builtins) home_client TEXT w).1
  = VeniceClient._parse_models (H:=ascii_builtins) home_client data TEXT.
Proof.
  intros data w.
  apply (stale_record_is_served_when_down (H:=ascii_builtins) home_client
           (CacheManager.init "/home/faye/.cache/venice_sync") TEXT w
           {| mtime := 1700000000; content := Ok data |} data).
  - reflexivity.
  - intros k r. by eexists.
  - reflexivity.
  - reflexivity.
  - reflexivity.
  - vm_compute. reflexivity.
Defined.

(** X13: a cached record of the wrong shape.  When the cache holds a
    fresh record whose data is true as a condition and is not a list of
    dicts (a dict, a string, a number, or a list with a member that is not
    a dict), [fetch_models] raises, without sending a request: what is read
    from the cache file is parsed as it is. *)
Theorem cached_record_of_wrong_shape_raises `{Builtins} (self : VeniceClient.t)
    (cache : CacheManager.t) (model_type : ModelType) (w : World.t) (cached : json) :
  VeniceClient.cache self = Some cache →
  (CacheManager.get cache ("models_" ++ value model_type) w).1 = Ok (cached, true) →
  truthy cached = true →
  match cached with
  | JList l => ∃ x, x ∈ l ∧ ∀ d, x ≠ JDict d
  | _ => True
  end →
  ∃ e, VeniceClient.fetch_models self model_type w = (Raise e, w).
Proof.
  intros Hcache Hget Htruthy Hshape.
  unfold VeniceClient.fetch_models. rewrite Hcache.
  pose proof (get_state cache ("models_" ++ value model_type) w) as Hstate.
  destruct (CacheManager.get cache ("models_" ++ value model_type) w) as [r w'].
  simpl in Hget, Hstate. subst r w'.
  rewrite Htruthy. simpl.
  destruct (_parse_models_wrong_shape self cached model_type Htruthy Hshape) as [e He].
  exists e. unfold VeniceClient._parse_cached_models. by rewrite He.
Qed.

Lemma cached_record_of_wrong_shape_raises_witness :
  let w := world_with_record 60 (JDict {[ "data" := JList [] ]}) refusing_server in
  VeniceClient.fetch_models (H:=ascii_builtins) home_client TEXT w
  = (Raise (AttributeError "'str' object has no attribute 'pop'"), w)
  ∧ ∃ e, VeniceClient.fetch_models (H:=ascii_builtins) home_client TEXT w = (Raise e, w).
Proof.
  intros w. split; [by vm_compute|].
  apply (cached_record_of_wrong_shape_raises (H:=ascii_builtins) home_client
           (CacheManager.init "/home/faye/.cache/venice_sync") TEXT w
           (JDict {[ "data" := JList [] ]})).
  - reflexivity.
  - vm_compute. reflexivity.
  - reflexivity.
  - exact I.
Defined.

(** X14: the type of the entry made from a fetched record.  A record
    fetched for a partition and then parsed, with [default_type] the type
    a call for one type passes on and "text" the one a call for [ALL]
    does, gives an entry whose type is the partition when the record has no
    ["type"] key; when it has one, the entry has the declared type if that
    is true as a condition, and otherwise the marker the record came with,
    or [default_type] when it came with none: not the partition. *)
Theorem entry_type_of_fetched_record `{Builtins} (d : gmap string json)
    (partition default_type : string) (m : Model.t) :
  VeniceClient.parse_each (annotate_all partition [JDict d]).1 default_type [] = Ok [m] →
  Model.model_type m
  = match d !! "type" with
    | None => JStr partition
    | Some declared =>
        py_or declared (dict_get_default d "_fallback_type" (JStr default_type))
    end.
Proof.
  unfold annotate_all, annotate. simpl.
  destruct (d !! "type") as [declared|] eqn:Htype.
  - rewrite bool_decide_eq_true_2 by done. simpl.
    destruct (Model.from_api_response _ _) as [[m'|]|e] eqn:Hm; simpl; try done.
    intros [= ->]. apply from_api_response_Some in Hm as [_ ->].
    unfold dict_get. rewrite lookup_delete_ne by done. by rewrite Htype.
  - rewrite bool_decide_eq_false_2 by (by intros [? ?]). simpl.
    destruct (Model.from_api_response _ _) as [[m'|]|e] eqn:Hm; simpl; try done.
    intros [= ->]. apply from_api_response_Some in Hm as [_ ->].
    unfold dict_get, dict_get_default, py_or.
    rewrite lookup_delete_ne, lookup_insert_ne, Htype, lookup_insert_eq by done.
    done.
Qed.

Lemma entry_type_of_fetched_record_witness :
  let d : gmap string json := {[ "id" := JStr "m1"; "type" := JNull ]} in
  ∃ m,
    VeniceClient.parse_each (H:=ascii_builtins) (annotate_all "image" [JDict d]).1 "text" []
    = Ok [m]
    ∧ Model.model_type m = JStr "text".
Proof.
  intros d.
  destruct (VeniceClient.parse_each (H:=ascii_builtins) (annotate_all "image" [JDict d]).1
              "text" []) as [[|m [|? ?]]|e] eqn:Hparse;
    try (vm_compute in Hparse; discriminate Hparse).
  exists m. split; [reflexivity|].
  exact (entry_type_of_fetched_record (H:=ascii_builtins) d "image" "text" m Hparse).
Defined.

(** X15: the status check.  [get_api_status] always returns a report,
    whatever the server does; and when the report is that of an
    [HTTPError], the status of the response being from 400 to 599, its
    ["code"] is [None]: a response with such a status is false as a
    condition, and the status is read from it only if it is true.  The
    transport and the decoding of a body raise no [HTTPError] of their
    own. *)
Theorem get_api_status_has_no_code `{Builtins} (self : VeniceClient.t) (w : World.t) :
  http_errors_from_status_only w →
  ∃ report w',
    get_api_status self w = (Ok report, w')
    ∧ match report with
      | StatusOk _ | StatusError _ => True
      | StatusHTTPError code message =>
          code = None ∧ ∃ status, message = HTTPError status ∧ (400 ≤ status < 600)%Z
      end.
Proof.
  intros Honly. unfold get_api_status, io_try, mbind, IO_bind.
  destruct (VeniceClient._fetch self "models" [("type", "text")] w) as [[data|e] w']
    eqn:Hfetch.
  - unfold lift. destruct (obj_get_default data "data" (JList [])) as [models|e] eqn:Hget.
    + destruct (py_len models) as [n|e] eqn:Hlen; simpl.
      * by eexists _, _.
      * destruct models; simpl in Hlen; try done; injection Hlen as <-; by eexists _, _.
    + simpl. destruct data; simpl in Hget; try done; injection Hget as <-;
        by eexists _, _.
  - destruct e as [| status | | | | | |]; try (by eexists _, _).
    pose proof (_fetch_HTTPError _ _ _ _ _ _ Honly Hfetch) as Hrange.
    eexists _, _. split; [done|]. simpl.
    unfold status_truthy.
    replace ((400 <=? status)%Z && (status <? 600)%Z) with true by lia.
    split; [done|]. by exists status.
Qed.

Lemma get_api_status_has_no_code_witness :
  let not_found (_ : nat) (_ : Request) :=
    Responds {| status_code := 404; headers := ∅; body := Ok JNull |} in
  let w := world_facing not_found in
  (get_api_status (H:=ascii_builtins) home_client w).1
  = Ok (StatusHTTPError None (HTTPError 404))
  ∧ ∃ report w',
      get_api_status (H:=ascii_builtins) home_client w = (Ok report, w')
      ∧ match report with
        | StatusOk _ | StatusError _ => True
        | StatusHTTPError code message =>
            code = None ∧ ∃ status, message = HTTPError status ∧ (400 ≤ status < 600)%Z
        end.
Proof.
  intros not_found w. split; [by vm_compute|].
  apply (get_api_status_has_no_code (H:=ascii_builtins) home_client w).
  intros k r status. split; [discriminate|].
  intros resp [= <-]. discriminate.
Defined.

(* ===================================================================== *)
(** * Text: escaping and formatting *)
(* ===================================================================== *)

Lemma replace_char_app (old : ascii) (new a b : string) :
  replace_char old new (a ++ b) = replace_char old new a ++ replace_char old new b.
Proof.
  induction a as [|c a IH]; [done|].
  change (String c a ++ b) with (String c (a ++ b)). simpl.
  rewrite IH. destruct (Ascii.eqb c old); [|done].
  by rewrite append_assoc.
Qed.

Lemma yaml_escape_app (a b : string) :
  yaml_escape (a ++ b) = yaml_escape a ++ yaml_escape b.
Proof. unfold yaml_escape. by rewrite !replace_char_app. Qed.

Lemma yaml_escape_cons (c : ascii) (s : string) :
  yaml_escape (String c s) = yaml_escape (String c "") ++ yaml_escape s.
Proof. by rewrite <- yaml_escape_app. Qed.

Lemma yaml_unescape_one (c : ascii) (s : string) :
  yaml_unescape (yaml_escape (String c "") ++ s) = String c (yaml_unescape s).
Proof. destruct c as [[] [] [] [] [] [] [] []]; reflexivity. Qed.

Lemma yaml_escape_one_clean (c : ascii) :
  forallb (λ x, negb (breaks_line x)) (list_ascii_of_string (yaml_escape (String c "")))
  = true.
Proof. destruct c as [[] [] [] [] [] [] [] []]; reflexivity. Qed.

Lemma yaml_escape_one_length (c : ascii) :
  (1 ≤ String.length (yaml_escape (String c "")) ≤ 2)%nat.
Proof. destruct c as [[] [] [] [] [] [] [] []]; simpl; lia. Qed.

Lemma list_ascii_of_string_app (a b : string) :
  list_ascii_of_string (a ++ b) = (list_ascii_of_string a ++ list_ascii_of_string b)%list.
Proof.
  induction a as [|c a IH]; [done|].
  change (String c a ++ b) with (String c (a ++ b)). simpl. by rewrite IH.
Qed.

(** X16: what is escaped reads back.  A reader that takes a backslash
    and the character after it for one character, [n], [r] and [t] standing
    for the line feed, the carriage return and the tab, reads from
    [yaml_escape s] the string [s]; so two strings are never escaped to the
    same text. *)
Theorem yaml_escape_reads_back (s : string) :
  yaml_unescape (yaml_escape s) = s
  ∧ ∀ s', yaml_escape s = yaml_escape s' → s = s'.
Proof.
  assert (∀ s, yaml_unescape (yaml_escape s) = s) as Hback.
  { clear s. induction s as [|c s IH]; [done|].
    by rewrite yaml_escape_cons, yaml_unescape_one, IH. }
  split; [done|].
  intros s' Heq. by rewrite <- (Hback s), Heq, Hback.
Qed.

(** X17: the shape of the escaped text.  [yaml_escape s] holds no line
    feed, carriage return or tab; it is the escaped texts of the parts of
    [s] put together, whatever the parts; and it has at least the length of
    [s] and at most twice that. *)
Theorem yaml_escape_shape (s : string) :
  (∀ c, c ∈ list_ascii_of_string (yaml_escape s) → breaks_line c = false)
  ∧ (∀ a b, s = a ++ b → yaml_escape s = yaml_escape a ++ yaml_escape b)
  ∧ (String.length s ≤ String.length (yaml_escape s) ≤ 2 * String.length s)%nat.
Proof.
  split; [|split].
  - induction s as [|c s IH]; intros x Hx; [by apply elem_of_nil in Hx|].
    rewrite yaml_escape_cons, list_ascii_of_string_app in Hx.
    apply elem_of_app in Hx as [Hx|Hx]; [|by apply IH].
    pose proof (yaml_escape_one_clean c) as Hclean.
    rewrite forallb_forall in Hclean.
    apply list_elem_of_In, Hclean in Hx. by destruct (breaks_line x).
  - intros a b ->. apply yaml_escape_app.
  - induction s as [|c s IH]; [simpl; lia|].
    rewrite yaml_escape_cons, length_append.
    pose proof (yaml_escape_one_length c).
    change (String.length (String c s)) with (S (String.length s)). lia.
Qed.

Lemma hundredths_small (m : positive) (e : Z) :
  (e < 0)%Z → (Z.pos m * 200 < 2 ^ (- e))%Z → hundredths m e = 0%Z.
Proof.
  intros He Hsmall. unfold hundredths.
  replace (0 <=? e)%Z with false by lia.
  rewrite Z.div_small, Z.mod_small by lia.
  by replace (2 * (Z.pos m * 100) ?= 2 ^ (- e))%Z with Lt
    by (symmetry; apply Z.compare_lt_iff; lia).
Qed.

(** X18: prices under half a cent.  A positive price below 0.005 dollars
    per million tokens, given as the double [m * 2^e], is written
    "$0.00/M", the text of a price of zero. *)
Theorem format_price_below_half_a_cent (usd : float) (m : positive) (e : Z) :
  Prim2SF usd = S754_finite false m e →
  (e < 0)%Z →
  (Z.pos m * 200 < 2 ^ (- e))%Z →
  format_price (Some usd) = "$0.00/M".
Proof.
  intros Husd He Hsmall. unfold format_price.
  destruct (usd =? 0)%float; [done|].
  unfold format_2f. rewrite Husd, (hundredths_small m e He Hsmall). reflexivity.
Qed.

Lemma format_price_below_half_a_cent_witness :
  format_price (Some 0x1.0624dd2f1a9fcp-8%float) = "$0.00/M"
  ∧ format_price (Some 0x1.0624dd2f1a9fcp-8%float) = format_price (Some 0%float).
Proof.
  assert (format_price (Some 0x1.0624dd2f1a9fcp-8%float) = "$0.00/M") as Hsmall.
  { apply (format_price_below_half_a_cent 0x1.0624dd2f1a9fcp-8%float
             4611686018427388 (-60)).
    - vm_compute. reflexivity.
    - lia.
    - vm_compute. reflexivity. }
  split; [exact Hsmall|]. rewrite Hsmall. reflexivity.
Defined.

Lemma all_from_spec (P : Z → bool) (count : nat) :
  ∀ start, all_from P start count = true →
           ∀ n, (start ≤ n < start + Z.of_nat count)%Z → P n = true.
Proof.
  induction count as [|count IH]; intros start Hall n Hn; [lia|].
  simpl in Hall. apply andb_true_iff in Hall as [Hstart Hrest].
  destruct (decide (n = start)) as [->|Hne]; [done|].
  apply (IH (start + 1)%Z Hrest). lia.
Qed.

(** X19: token counts just below a million.  From 999 500 to 999 999
    tokens the count is written "1000K": the thousands are rounded to the
    nearest whole number, and the suffix is chosen before the rounding. *)
Theorem format_tokens_just_below_a_million (n : Z) :
  (999500 ≤ n < 1000000)%Z → format_tokens n = Ok "1000K".
Proof.
  intros Hn.
  pose proof (all_from_spec
                (λ n, match format_tokens n with
                      | Ok s => String.eqb s "1000K"
                      | Raise _ => false
                      end) 500 999500 ltac:(by vm_compute) n ltac:(lia)) as Hall.
  simpl in Hall. destruct (format_tokens n) as [s|e]; [|done].
  by apply String.eqb_eq in Hall as ->.
Qed.

Lemma format_tokens_just_below_a_million_witness :
  format_tokens 999999 = Ok "1000K" ∧ format_tokens 999499 = Ok "999K"
  ∧ format_tokens 1000000 = Ok "1.0M".
Proof.
  split; [|by vm_compute].
  apply (format_tokens_just_below_a_million 999999). lia.
Defined.

(** X20: a write is all or nothing.  Whatever step of [atomic_write]
    fails, the file at [path] holds the whole of [content] when the call
    returns and what it held before when the call raises, never a part of
    [content]; every other file of the directory is as before; the
    temporary file is gone unless the call raises and cannot remove it;
    and the call returns exactly when no step fails.  The temporary file
    is a new one, as [mkstemp] has it. *)
Theorem atomic_write_all_or_nothing (os : Faults) (path content : string)
    (fs : gmap string string) :
  tmp_path os ≠ path →
  fs !! tmp_path os = None →
  let run := atomic_write os path content fs in
  match run.1 with
  | Ok _ => run.2 !! path = Some content
  | Raise _ => run.2 !! path = fs !! path
  end
  ∧ (∀ p, p ≠ path → p ≠ tmp_path os → run.2 !! p = fs !! p)
  ∧ ((∃ e, run.1 = Raise e ∧ unlink_fails os = true) ∨ run.2 !! tmp_path os = None)
  ∧ (run.1 = Ok ()
     ↔ mkdir_fails os = false ∧ mkstemp_fails os = false
       ∧ write_fails os = None ∧ replace_fails os = false).
Proof.
  intros Htmp Hfresh run. subst run. unfold atomic_write, atomic_write_on.
  destruct (mkdir_fails os).
  { simpl. split; [done|]. split; [done|]. split; [by right|].
    split; [done|]. by intros (? & _). }
  destruct (mkstemp_fails os).
  { simpl. split; [done|]. split; [done|]. split; [by right|].
    split; [done|]. by intros (_ & ? & _). }
  destruct (write_fails os) as [written|]; simpl.
  - destruct (unlink_fails os); simpl.
    + rewrite !lookup_insert_ne by done. split; [done|]. split.
      * intros p _ Hp. by rewrite !lookup_insert_ne.
      * split; [left; by eexists|]. split; [done|]. by intros (_ & _ & ? & _).
    + rewrite lookup_delete_eq, lookup_delete_ne, !lookup_insert_ne by done.
      split; [done|]. split.
      * intros p _ Hp. by rewrite lookup_delete_ne, !lookup_insert_ne.
      * split; [by right|]. split; [done|]. by intros (_ & _ & ? & _).
  - destruct (replace_fails os); simpl.
    + destruct (unlink_fails os); simpl.
      * rewrite !lookup_insert_ne by done. split; [done|]. split.
        { intros p _ Hp. by rewrite !lookup_insert_ne. }
        split; [left; by eexists|]. split; [done|]. by intros (_ & _ & _ & ?).
      * rewrite lookup_delete_eq, lookup_delete_ne, !lookup_insert_ne by done.
        split; [done|]. split.
        { intros p _ Hp. by rewrite lookup_delete_ne, !lookup_insert_ne. }
        split; [by right|]. split; [done|]. by intros (_ & _ & _ & ?).
    + rewrite lookup_insert_eq. split; [done|]. split.
      * intros p Hp Hp'. by rewrite lookup_insert_ne, lookup_delete_ne, !lookup_insert_ne.
      * split; [right; by rewrite lookup_insert_ne, lookup_delete_eq|]. done.
Qed.

Lemma atomic_write_all_or_nothing_witness :
  let os := {| mkdir_fails := false; mkstemp_fails := false;
               write_fails := Some "[{"; replace_fails := false; unlink_fails := false;
               tmp_path := "/cache/.models_text.json.x1.tmp" |} in
  let fs : gmap string string := {[ "/cache/models_text.json" := "[]" ]} in
  atomic_write os "/cache/models_text.json" "[{}]" fs = (Raise (OSError "write"), fs)
  ∧ (atomic_write os "/cache/models_text.json" "[{}]" fs).2 !! "/cache/models_text.json"
    = Some "[]".
Proof.
  intros os fs. split.
  - vm_compute. reflexivity.
  - exact (proj1 (atomic_write_all_or_nothing os "/cache/models_text.json" "[{}]" fs
                    ltac:(discriminate) ltac:(reflexivity))).
Defined.

(* ===================================================================== *)
(** * The records of a fetch: their order, their markers *)
(* ===================================================================== *)

Lemma marked_mono (types types' : list ModelType) (m : json) :
  types ⊆ types' → marked types m → marked types' m.
Proof.
  intros Hsub. destruct m as [| | | | | |d]; try done.
  intros [Htype|(p & Hp & Hd)]; [by left|]. right. exists p. split; [by apply Hsub|done].
Qed.

Lemma annotate_marked (mt : ModelType) (m m' : json) :
  annotate (value mt) m = Ok m' → marked [mt] m'.
Proof.
  destruct m as [| | | | | |d]; unfold annotate; simpl; try done.
  - destruct (negb _); simpl; [done|]. by intros [= <-].
  - destruct (negb _); simpl; [done|]. by intros [= <-].
  - destruct (decide (is_Some (d !! "type"))) as [Htype|Htype].
    + rewrite bool_decide_eq_true_2 by done. simpl. intros [= <-]. by left.
    + rewrite bool_decide_eq_false_2 by done. simpl. intros [= <-]. right.
      exists mt. split; [apply list_elem_of_here|]. by rewrite lookup_insert_eq.
Qed.

Lemma annotate_all_marked (mt : ModelType) (fetched fetched' : list json) :
  annotate_all (value mt) fetched = (fetched', None) → Forall (marked [mt]) fetched'.
Proof.
  revert fetched'. induction fetched as [|m fetched IH]; intros fetched'; simpl.
  - intros [= <-]. constructor.
  - destruct (annotate (value mt) m) as [m'|e] eqn:Hm; [|done].
    destruct (annotate_all (value mt) fetched) as [rest err].
    intros [= <- ->]. constructor; [by eapply annotate_marked|by apply IH].
Qed.

Section marked_facts.
Context `{Builtins}.

Lemma fetch_each_marked (self : VeniceClient.t) (all types : list ModelType)
    (raw_models raw_models' : list json) (w w' : World.t) :
  types ⊆ all →
  Forall (marked all) raw_models →
  VeniceClient.fetch_each self types raw_models w = ((raw_models', None), w') →
  Forall (marked all) raw_models'.
Proof.
  revert raw_models w. induction types as [|mt types IH]; intros raw_models w Hsub Hraw;
    simpl.
  - by intros [= <- _].
  - destruct (VeniceClient._fetch_models_for_type _ _ w) as [[fetched|e] w1]; [|done].
    destruct (annotate_all (value mt) fetched) as [fetched' [e|]] eqn:Hann; [done|].
    apply IH.
    + intros p Hp. apply Hsub. by apply list_elem_of_further.
    + apply Forall_app. split; [done|].
      eapply Forall_impl; [by eapply annotate_all_marked|].
      intros m. apply marked_mono. intros p Hp.
      apply list_elem_of_singleton in Hp as ->. apply Hsub, list_elem_of_here.
Qed.

Lemma gather_marked (self : VeniceClient.t) (model_type : ModelType)
    (raw_models : list json) (w w' : World.t) :
  VeniceClient.gather self model_type w = ((raw_models, None), w') →
  Forall (marked (partitions model_type)) raw_models.
Proof.
  unfold VeniceClient.gather, partitions. destruct (is_ALL model_type).
  - by apply fetch_each_marked.
  - destruct (VeniceClient._fetch_models_for_type _ _ w) as [[fetched|e] w1]; [|done].
    intros [= Hann _]. by eapply annotate_all_marked.
Qed.
End marked_facts.

(** X21: what a fetch writes to the cache.  A call of [fetch_models]
    either leaves the cache file of the type asked for as it is, or writes
    to it, with the time of the write, a list of records that is not empty
    and in which every dict carries its partition: it has a ["type"] key,
    or the marker of one of the partitions asked for.  An empty list is
    never written. *)
Theorem cache_holds_marked_records `{Builtins} (self : VeniceClient.t)
    (cache : CacheManager.t) (model_type : ModelType) (w : World.t) :
  VeniceClient.cache self = Some cache →
  let w' := (VeniceClient.fetch_models self model_type w).2 in
  World.files w' !! cache_file_of cache model_type
  = World.files w !! cache_file_of cache model_type
  ∨ ∃ raw_models,
      raw_models ≠ []
      ∧ Forall (marked (partitions model_type)) raw_models
      ∧ World.files w' !! cache_file_of cache model_type
        = Some {| mtime := World.now w'; content := Ok (JList raw_models) |}.
Proof.
  intros Hcache w'. subst w'. unfold cache_file_of.
  set (key := "models_" ++ value model_type).
  destruct (fetch_models_state self model_type w) as [->| ->]; [by left|]. fold key.
  pose proof (gather_files self model_type w) as Hfiles.
  unfold VeniceClient.try_live_fetch.
  destruct (VeniceClient.gather self model_type w) as [[raw_models fetch_error] w_g]
    eqn:Hgather.
  simpl in Hfiles. rewrite Hcache.
  destruct fetch_error as [e|]; [left; by rewrite <- Hfiles|].
  destruct raw_models as [|m raw_models]; [left; by rewrite <- Hfiles|].
  simpl truthy. cbv iota.
  destruct (set_files cache key (JList (m :: raw_models)) w_g)
    as (fs & -> & _ & [Hsame|Hnew] & _); simpl.
  - left. by rewrite Hsame, Hfiles.
  - right. exists (m :: raw_models). split; [done|].
    split; [by eapply gather_marked|done].
Qed.

Lemma cache_holds_marked_records_witness :
  let w := world_facing (serving [JDict {[ "id" := JStr "m1" ]}]) in
  let w' := (VeniceClient.fetch_models (H:=ascii_builtins) home_client CODE w).2 in
  let path := "/home/faye/.cache/venice_sync/models_code.json" in
  World.files w !! path = None
  ∧ (World.files w' !! path = World.files w !! path
     ∨ ∃ raw_models,
         raw_models ≠ []
         ∧ Forall (marked (partitions CODE)) raw_models
         ∧ World.files w' !! path
           = Some {| mtime := World.now w'; content := Ok (JList raw_models) |}).
Proof.
  intros w w' path. split; [reflexivity|].
  exact (cache_holds_marked_records (H:=ascii_builtins) home_client
           (CacheManager.init "/home/faye/.cache/venice_sync") CODE w eq_refl).
Defined.

(** X22: entries that share an id keep the order of their records.  The
    list [_parse_models] returns holds the entries made from the records
    one by one, in another order; the entries of any one id come in the
    order of their records, which for a call for [ALL] is text, image,
    code. *)
Theorem equal_ids_keep_their_order `{Builtins} (self : VeniceClient.t)
    (raw_models : json) (model_type : ModelType) (ms : list Model.t) :
  VeniceClient._parse_models self raw_models model_type = Ok ms →
  ∃ items parsed,
    py_iter raw_models = Ok items
    ∧ VeniceClient.parse_each items
        (if negb (is_ALL model_type) then value model_type else "text") [] = Ok parsed
    ∧ Model.id <$> parsed = omap record_id items
    ∧ ms ≡ₚ parsed
    ∧ ∀ s, filter (λ m, Model.id m = s) ms = filter (λ m, Model.id m = s) parsed.
Proof.
  unfold VeniceClient._parse_models. intros Hms.
  apply bind_Ok in Hms as (items & Hitems & Hms).
  apply bind_Ok in Hms as (parsed & Hparsed & Hms).
  injection Hms as <-.
  exists items, parsed. split; [done|]. split; [done|].
  split; [by rewrite (parse_each_ids _ _ _ _ Hparsed)|].
  split; [apply sorted_by_id_perm|]. intros s. apply sorted_by_id_stable.
Qed.

Lemma equal_ids_keep_their_order_witness :
  let records :=
    JList [JDict {[ "id" := JStr "m1"; "_fallback_type" := JStr "text" ]};
           JDict {[ "id" := JStr "m0"; "_fallback_type" := JStr "image" ]};
           JDict {[ "id" := JStr "m1"; "_fallback_type" := JStr "image" ]}] in
  ∃ ms items parsed,
    VeniceClient._parse_models (H:=ascii_builtins) home_client records ALL = Ok ms
    ∧ Model.model_type <$> ms = [JStr "image"; JStr "text"; JStr "image"]
    ∧ py_iter records = Ok items
    ∧ VeniceClient.parse_each (H:=ascii_builtins) items "text" [] = Ok parsed
    ∧ Model.id <$> parsed = omap record_id items
    ∧ ms ≡ₚ parsed
    ∧ ∀ s, filter (λ m, Model.id m = s) ms = filter (λ m, Model.id m = s) parsed.
Proof.
  intros records.
  destruct (VeniceClient._parse_models (H:=ascii_builtins) home_client records ALL)
    as [ms|e] eqn:Hms; [|vm_compute in Hms; discriminate Hms].
  destruct (equal_ids_keep_their_order (H:=ascii_builtins) home_client records ALL ms Hms)
    as (items & parsed & Hitems & Hparsed & Hids & Hperm & Hstable).
  exists ms, items, parsed. split; [reflexivity|].
  split; [vm_compute in Hms; by injection Hms as <-|]. done.
Defined.

(* ===================================================================== *)
(** * The client: error statuses, the base URL *)
(* ===================================================================== *)

Section error_statuses.
Context `{Builtins}.

End error_statuses.



Lemma rstrip_slash_app_slash (s : string) : rstrip_slash (s ++ "/") = rstrip_slash s.
Proof.
  induction s as [|c s IH]; [done|].
  change (String c s ++ "/") with (String c (s ++ "/")). simpl. by rewrite IH.
Qed.

Lemma rstrip_slash_no_slash (s t : string) : rstrip_slash s ≠ t ++ "/".
Proof.
  revert t. induction s as [|c s IH]; intros t; simpl.
  - by destruct t.
  - destruct (rstrip_slash s) as [|c' r] eqn:Hr.
    + destruct (Ascii.eqb_spec c "/") as [->|Hc]; [by destruct t|].
      assert (match c with
              | "/"%char => ""
              | _ => String c ""
              end = String c "") as ->.
      { destruct c as [[] [] [] [] [] [] [] []]; try done. }
      destruct t as [|c'' [|? ?]]; [|done|done].
      intros [= ->]. done.
    + assert (match c with
              | "/"%char => String c (String c' r)
              | _ => String c (String c' r)
              end = String c (String c' r)) as ->.
      { by destruct c as [[] [] [] [] [] [] [] []]. }
      destruct t as [|c'' t]; [done|].
      intros [= -> Heq]. by apply (IH t).
Qed.

(** X24: slashes at the end of the base URL do not count.  A client made
    with a base URL and one made with the same followed by any number of
    slashes are the same client, so that they send the same requests; and
    the base URL a client keeps never ends with a slash, a request for
    the models going to that URL, one slash and [models]. *)
Theorem trailing_slashes_are_dropped (CACHE_DIR base_url : string) (timeout : Z)
    (use_cache : bool) (k : nat) :
  VeniceClient.init CACHE_DIR
    (base_url ++ string_of_list_ascii (replicate k "/"%char)) timeout use_cache
  = VeniceClient.init CACHE_DIR base_url timeout use_cache
  ∧ (∀ s, VeniceClient.base_url (VeniceClient.init CACHE_DIR base_url timeout use_cache)
          ≠ s ++ "/")
  ∧ ∀ partition,
      url (models_request (VeniceClient.init CACHE_DIR base_url timeout use_cache) partition)
      = rstrip_slash base_url ++ "/models".
Proof.
  split; [|split].
  - unfold VeniceClient.init. f_equal.
    induction k as [|k IH]; simpl.
    + by rewrite append_nil_r.
    + rewrite <- IH.
      assert (∀ n, String "/" (string_of_list_ascii (replicate n "/"%char))
                   = string_of_list_ascii (replicate n "/"%char) ++ "/") as Hcomm.
      { clear. induction n as [|n IHn]; [done|].
        simpl. rewrite IHn at 1. done. }
      rewrite Hcomm, <- append_assoc. apply rstrip_slash_app_slash.
  - intros s. apply rstrip_slash_no_slash.
  - done.
Qed.

(* ===================================================================== *)
(** * The client against a server that answers *)
(* ===================================================================== *)

Lemma annotate_all_dicts (v : string) (records : list json) :
  Forall (λ r, ∃ d, r = JDict d) records →
  (annotate_all v records).2 = None
  ∧ length (annotate_all v records).1 = length records.
Proof.
  induction 1 as [|r records [d ->] _ [IHerr IHlen]]; [done|].
  simpl. unfold annotate. simpl.
  destruct (negb _); simpl;
    destruct (annotate_all v records) as [rest err]; simpl in *; by rewrite IHlen.
Qed.

Lemma join_not_nil {A} (ls : list (list A)) (l : list A) :
  l ∈ ls → l ≠ [] → mjoin ls ≠ [].
Proof.
  induction ls as [|l' ls IH]; intros Hin Hne; [by apply elem_of_nil in Hin|].
  apply elem_of_cons in Hin as [<-|Hin]; simpl.
  - by destruct l.
  - intros Heq. apply app_eq_nil in Heq as [_ Heq]. by apply IH.
Qed.

Section healthy.
Context `{Builtins}.

(** One request, answered with a catalogue, is the whole of a call of
    [_fetch_models_for_type]. *)
Lemma _fetch_models_for_type_answered (self : VeniceClient.t) (partition : string)
    (records : list json) (w : World.t) :
  World.net w (length (World.requests w)) (models_request self partition)
  = Responds (catalogue records) →
  ∃ w', VeniceClient._fetch_models_for_type self partition w = (Ok records, w')
        ∧ traffic w w' [models_request self partition] []
        ∧ World.now w' = World.now w.
Proof.
  intros Hnet.
  pose proof (_fetch_once_traffic self "models" [("type", partition)] w) as Htraffic.
  assert (VeniceClient._fetch_once self "models" [("type", partition)] w
          = (Ok (JDict {[ "data" := JList records ]}),
             (VeniceClient._fetch_once self "models" [("type", partition)] w).2)
          ∧ World.now (VeniceClient._fetch_once self "models" [("type", partition)] w).2
            = World.now w) as [Hf Hnow].
  { unfold VeniceClient._fetch_once, mbind, IO_bind, World.send.
    change (Build_Request (VeniceClient.base_url self ++ "/" ++ lstrip_slash "models")
              [("type", partition)] (VeniceClient.timeout self))
      with (models_request self partition).
    by rewrite Hnet. }
  eexists. split; [|by split].
  unfold VeniceClient._fetch_models_for_type, io_try, mbind, IO_bind,
    VeniceClient._fetch, retry_with_backoff.
  change (Z.to_nat (DEFAULT_RETRIES + 1)) with 4%nat.
  by rewrite (attempts_success _ _ _ _ _ _ _ _ _ _ _ _ Hf).
Qed.

Lemma fetch_each_answered (self : VeniceClient.t) (records : ModelType → list json)
    (types : list ModelType) :
  (∀ p, Forall (λ r, ∃ d, r = JDict d) (records p)) →
  ∀ (raw_models : list json) (w : World.t),
    (∀ i p, types !! i = Some p →
            World.net w (length (World.requests w) + i) (models_request self (value p))
            = Responds (catalogue (records p))) →
    ∃ w',
      VeniceClient.fetch_each self types raw_models w
      = ((raw_models
          ++ mjoin ((λ p, (annotate_all (value p) (records p)).1) <$> types), None)%list, w')
      ∧ traffic w w' ((λ p, models_request self (value p)) <$> types) []
      ∧ World.now w' = World.now w.
Proof.
  intros Hdicts. induction types as [|mt types IH]; intros raw_models w Hnet; simpl.
  - exists w. rewrite app_nil_r. split; [done|]. split; [apply traffic_refl|done].
  - destruct (_fetch_models_for_type_answered self (value mt) (records mt) w)
      as (w1 & -> & Ht1 & Hnow1).
    { specialize (Hnet 0%nat mt eq_refl). by rewrite Nat.add_0_r in Hnet. }
    destruct (annotate_all_dicts (value mt) (records mt) (Hdicts mt)) as [Herr _].
    destruct (annotate_all (value mt) (records mt)) as [fetched err]. simpl in Herr.
    subst err.
    destruct (IH (raw_models ++ fetched)%list w1) as (w' & -> & Ht' & Hnow').
    { intros i p Hp. destruct Ht1 as (Hr & _ & Hn & _).
      rewrite Hn, Hr, length_app. simpl.
      replace (length (World.requests w) + 1 + i)%nat
        with (length (World.requests w) + S i)%nat by lia.
      by apply Hnet. }
    exists w'. rewrite <- app_assoc. split; [done|].
    split; [exact (traffic_trans _ _ _ _ _ _ _ Ht1 Ht')|by rewrite Hnow'].
Qed.

Lemma gather_answered (self : VeniceClient.t) (records : ModelType → list json)
    (model_type : ModelType) (w : World.t) :
  (∀ p, Forall (λ r, ∃ d, r = JDict d) (records p)) →
  (∀ i p, partitions model_type !! i = Some p →
          World.net w (length (World.requests w) + i) (models_request self (value p))
          = Responds (catalogue (records p))) →
  ∃ w',
    VeniceClient.gather self model_type w
    = ((mjoin ((λ p, (annotate_all (value p) (records p)).1) <$> partitions model_type),
        None), w')
    ∧ traffic w w' ((λ p, models_request self (value p)) <$> partitions model_type) []
    ∧ World.now w' = World.now w.
Proof.
  intros Hdicts Hnet. unfold VeniceClient.gather, partitions in *.
  destruct (is_ALL model_type).
  - by apply (fetch_each_answered self records [TEXT; IMAGE; CODE] Hdicts [] w).
  - destruct (_fetch_models_for_type_answered self (value model_type)
                (records model_type) w) as (w1 & -> & Ht1 & Hnow1).
    { specialize (Hnet 0%nat model_type eq_refl). by rewrite Nat.add_0_r in Hnet. }
    destruct (annotate_all_dicts (value model_type) (records model_type)
                (Hdicts model_type)) as [Herr _].
    simpl.
    destruct (annotate_all (value model_type) (records model_type)) as [fetched err].
    simpl in *. subst err. exists w1. by rewrite app_nil_r.
Qed.
(** A fetch that goes well: what it returns and what it sends. *)
Lemma fetch_models_answered (self : VeniceClient.t) (model_type : ModelType)
    (w : World.t) (records : ModelType → list json) :
  (∀ cache, VeniceClient.cache self = Some cache →
            World.blocked w !! cache_file_of cache model_type = None) →
  (∀ cache cached,
     VeniceClient.cache self = Some cache →
     (CacheManager.get cache ("models_" ++ value model_type) w).1 = Ok (cached, true) →
     truthy cached = false) →
  (∀ i p, partitions model_type !! i = Some p →
          World.net w (length (World.requests w) + i) (models_request self (value p))
          = Responds (catalogue (records p))) →
  (∀ p, Forall (λ r, ∃ d, r = JDict d) (records p)) →
  (∃ p, p ∈ partitions model_type ∧ records p ≠ []) →
  let raw_models :=
    mjoin ((λ p, (annotate_all (value p) (records p)).1) <$> partitions model_type) in
  let run := VeniceClient.fetch_models self model_type w in
  run.1 = VeniceClient._parse_models self (JList raw_models) model_type
  ∧ traffic w run.2 ((λ p, models_request self (value p)) <$> partitions model_type) [].
Proof.
  intros Hblocked Hnot_fresh Hnet Hdicts (p0 & Hp0 & Hrecords) raw_models run.
  assert (truthy (JList raw_models) = true) as Htruthy.
  { assert (raw_models ≠ []) as Hne; [|by destruct raw_models].
    apply (join_not_nil _ (annotate_all (value p0) (records p0)).1).
    - apply list_elem_of_fmap. by exists p0.
    - intros Hnil. apply (f_equal length) in Hnil.
      rewrite (proj2 (annotate_all_dicts _ _ (Hdicts p0))) in Hnil.
      by destruct (records p0). }
  destruct (gather_answered self records model_type w Hdicts Hnet)
    as (w_g & Hgather & Ht & _).
  fold raw_models in Hgather.
  assert (∃ w',
            VeniceClient.fetch_uncached self model_type ("models_" ++ value model_type) w
            = (VeniceClient._parse_models self (JList raw_models) model_type, w')
            ∧ traffic w_g w' [] []) as (w' & Hlive & Ht').
  { unfold VeniceClient.fetch_uncached, VeniceClient.try_live_fetch.
    rewrite Hgather.
    destruct (VeniceClient.cache self) as [cache|].
    - rewrite Htruthy.
      pose proof (set_traffic cache ("models_" ++ value model_type) (JList raw_models) w_g)
        as Hset.
      destruct (set_returns cache ("models_" ++ value model_type) (JList raw_models) w_g)
        as [fs Hw']. rewrite Hw' in Hset |- *. simpl in Hset.
      rewrite Htruthy. simpl. by eexists.
    - exists w_g. split; [done|apply traffic_refl]. }
  assert (run = (VeniceClient._parse_models self (JList raw_models) model_type, w'))
    as ->.
  { subst run. unfold VeniceClient.fetch_models.
    destruct (VeniceClient.cache self) as [cache|] eqn:Hcache; [|done].
    destruct (get_returns cache ("models_" ++ value model_type) w (Hblocked cache eq_refl))
      as [[cached is_fresh] Hget]. rewrite Hget.
    assert (truthy cached && is_fresh = false) as ->; [|done].
    destruct is_fresh; [|by rewrite andb_false_r].
    rewrite (Hnot_fresh cache cached eq_refl); [done|]. by rewrite Hget. }
  split; [done|]. simpl.
  pose proof (traffic_trans _ _ _ _ _ _ _ Ht Ht') as Hall.
  by rewrite !app_nil_r in Hall.
Qed.
End healthy.

(** X25: a fetch that goes well.  When the lookup of the cache file does
    not fail, the cache has no fresh record to use and the server answers
    the request for each partition asked for, in turn, with a catalogue of
    dict records, not all of them empty, a call of [fetch_models] sends
    exactly these requests, one for each partition, sleeps never, and
    returns what [_parse_models] makes of the records of the partitions
    put one after the other, each record without a ["type"] key marked
    with its partition. *)
Theorem fetch_from_a_server_that_answers `{Builtins} (self : VeniceClient.t)
    (model_type : ModelType) (w : World.t) (records : ModelType → list json) :
  (∀ cache, VeniceClient.cache self = Some cache →
            World.blocked w !! cache_file_of cache model_type = None) →
  (∀ cache cached,
     VeniceClient.cache self = Some cache →
     (CacheManager.get cache ("models_" ++ value model_type) w).1 = Ok (cached, true) →
     truthy cached = false) →
  (∀ i p, partitions model_type !! i = Some p →
          World.net w (length (World.requests w) + i) (models_request self (value p))
          = Responds (catalogue (records p))) →
  (∀ p, Forall (λ r, ∃ d, r = JDict d) (records p)) →
  (∃ p, p ∈ partitions model_type ∧ records p ≠ []) →
  let raw_models :=
    mjoin ((λ p, (annotate_all (value p) (records p)).1) <$> partitions model_type) in
  let run := VeniceClient.fetch_models self model_type w in
  run.1 = VeniceClient._parse_models self (JList raw_models) model_type
  ∧ traffic w run.2 ((λ p, models_request self (value p)) <$> partitions model_type) [].
Proof. apply fetch_models_answered. Qed.

Lemma fetch_from_a_server_that_answers_witness :
  let w := world_facing (serving [JDict {[ "id" := JStr "m1" ]}]) in
  let run := VeniceClient.fetch_models (H:=ascii_builtins) home_client ALL w in
  ids_of run.1 = Ok ["m1"; "m1"; "m1"]
  ∧ Model.model_type <$> default [] (match run.1 with Ok ms => Some ms | _ => None end)
    = [JStr "text"; JStr "image"; JStr "code"]
  ∧ run.1
    = VeniceClient._parse_models (H:=ascii_builtins) home_client
        (JList (mjoin ((λ p, (annotate_all (value p) [JDict {[ "id" := JStr "m1" ]}]).1)
                         <$> partitions ALL))) ALL
  ∧ traffic w run.2 ((λ p, models_request home_client (value p)) <$> partitions ALL) [].
Proof.
  intros w run. split; [by vm_compute|]. split; [by vm_compute|].
  apply (fetch_from_a_server_that_answers (H:=ascii_builtins) home_client ALL w
           (λ _, [JDict {[ "id" := JStr "m1" ]}])).
  - intros cache [= <-]. reflexivity.
  - intros cache cached [= <-]. vm_compute. discriminate.
  - intros i p _. reflexivity.
  - intros p. repeat constructor. by eexists.
  - exists TEXT. split; [apply list_elem_of_here|discriminate].
Defined.

(** X26: an empty answer counts as no answer.  When the server answers
    the request for each partition asked for with an empty catalogue,
    and the cache holds for the type a readable record, true as a
    condition and within the stale TTL, [fetch_models] returns what
    [_parse_models] makes of that record, though it is no longer fresh,
    and not the empty list the server gave. *)
Theorem empty_answer_falls_back_to_stale `{Builtins} (self : VeniceClient.t)
    (cache : CacheManager.t) (model_type : ModelType) (w : World.t)
    (file : CacheFile) (data : json) :
  VeniceClient.cache self = Some cache →
  (∀ i p, partitions model_type !! i = Some p →
          World.net w (length (World.requests w) + i) (models_request self (value p))
          = Responds (catalogue [])) →
  World.files w !! cache_file_of cache model_type = Some file →
  content file = Ok data →
  truthy data = true →
  float_le_int (World.now w - mtime file)%float (CacheManager.stale_ttl cache) = true →
  (VeniceClient.fetch_models self model_type w).1
  = VeniceClient._parse_models self data model_type.
Proof.
  unfold cache_file_of. intros Hcache Hnet Hfile Hcontent Htruthy Hstale.
  set (key := "models_" ++ value model_type) in *.
  unfold VeniceClient.fetch_models. rewrite Hcache. fold key.
  rewrite (get_readable cache key w file data Hfile Hcontent).
  destruct (float_le_int _ (CacheManager.fresh_ttl cache)); [by rewrite Htruthy|].
  rewrite Hstale. simpl. rewrite andb_false_r.
  pose proof (gather_files self model_type w) as Hfiles.
  destruct (gather_answered self (λ _, []) model_type w ltac:(by constructor) Hnet)
    as (w_g & Hgather & _ & Hnow).
  assert (mjoin ((λ p, (annotate_all (value p) []).1) <$> partitions model_type) = [])
    as Hempty by (unfold partitions; by destruct (is_ALL model_type)).
  rewrite Hempty in Hgather. rewrite Hgather in Hfiles. simpl in Hfiles.
  unfold VeniceClient.fetch_uncached, VeniceClient.try_live_fetch.
  rewrite Hgather, Hcache. simpl.
  rewrite (get_stale_readable cache key w_g file data) by (by rewrite ?Hfiles).
  by rewrite Hnow, Hstale, Htruthy.
Qed.

Lemma empty_answer_falls_back_to_stale_witness :
  let data := JList [JDict {[ "id" := JStr "m1" ]}] in
  let w := world_with_record 3600 data (serving []) in
  let run := VeniceClient.fetch_models (H:=ascii_builtins) home_client TEXT w in
  ids_of run.1 = Ok ["m1"]
  ∧ length (World.requests run.2) = 1%nat
  ∧ run.1 = VeniceClient._parse_models (H:=ascii_builtins) home_client data TEXT.
Proof.
  intros data w run. split; [by vm_compute|]. split; [by vm_compute|].
  apply (empty_answer_falls_back_to_stale (H:=ascii_builtins) home_client
           (CacheManager.init "/home/faye/.cache/venice_sync") TEXT w
           {| mtime := 1700000000; content := Ok data |} data).
  - reflexivity.
  - intros i p _. reflexivity.
  - reflexivity.
  - reflexivity.
  - reflexivity.
  - vm_compute. reflexivity.
Defined.

(* ===================================================================== *)
(** * The result of a fetch: repetitions *)
(* ===================================================================== *)

Lemma omap_mjoin {A B} (f : A → option B) (ls : list (list A)) :
  omap f (mjoin ls) = mjoin (omap f <$> ls).
Proof. induction ls as [|l ls IH]; simpl; [done|]. by rewrite omap_app, IH. Qed.

(** The marker of the partition leaves the id of a record alone. *)
Lemma annotate_all_record_ids (v : string) (records : list json) :
  Forall (λ r, ∃ d, r = JDict d) records →
  omap record_id (annotate_all v records).1 = omap record_id records.
Proof.
  induction 1 as [|r records [d ->] _ IH]; [done|].
  simpl. unfold annotate. simpl.
  destruct (annotate_all v records) as [rest err]. simpl in IH.
  destruct (negb _); simpl; rewrite ?lookup_insert_ne by done;
    change (list_omap json string record_id) with (omap (M:=list) record_id);
    by rewrite IH.
Qed.

Section settled.
Context `{Builtins}.

(** Whatever [fetch_models] returns, [_parse_models] made it out of the
    data of the cache or out of the records gathered from the server. *)
Lemma fetch_models_settled (self : VeniceClient.t) (model_type : ModelType)
    (w w' : World.t) (ms : list Model.t) :
  VeniceClient.fetch_models self model_type w = (Ok ms, w') →
  ∃ raw_models,
    settled_on self model_type w raw_models
    ∧ VeniceClient._parse_models self raw_models model_type = Ok ms.
Proof.
  set (key := "models_" ++ value model_type).
  assert (∀ w2,
            VeniceClient.fetch_uncached self model_type key w = (Ok ms, w2) →
            ∃ raw_models,
              settled_on self model_type w raw_models
              ∧ VeniceClient._parse_models self raw_models model_type = Ok ms) as Hlive.
  { intros w2. unfold VeniceClient.fetch_uncached, VeniceClient.try_live_fetch.
    destruct (VeniceClient.gather self model_type w) as [[raw_models fetch_error] w1]
      eqn:Hgather.
    pose proof (settled_on_live self model_type w raw_models fetch_error w1 Hgather)
      as Hsettled.
    destruct (VeniceClient.cache self) as [cache|] eqn:Hcache;
      [|destruct fetch_error; intros Hms%(f_equal fst); exists (JList raw_models); by split].
    destruct raw_models as [|raw raw_models].
    - assert (∀ w3, (let '(raw_models, fetch_error, w) := (([] : list json), fetch_error, w1) in
                     if negb (truthy (JList raw_models))
                     then
                       match CacheManager.get_stale cache key w with
                       | (Ok stale_data, w) =>
                           if truthy stale_data
                           then (VeniceClient._parse_models self stale_data model_type, w)
                           else
                             match fetch_error with
                             | Some e => (Raise e, w)
                             | None =>
                                 (VeniceClient._parse_models self (JList raw_models)
                                    model_type, w)
                             end
                       | (Raise e, w) => (Raise e, w)
                       end
                     else (VeniceClient._parse_models self (JList raw_models) model_type, w))
                    = (Ok ms, w3) →
                    ∃ raw_models,
                      settled_on self model_type w raw_models
                      ∧ VeniceClient._parse_models self raw_models model_type = Ok ms)
        as Hstale.
      { intros w3. simpl negb. cbv iota.
        pose proof (get_stale_state cache key w1) as Hstate.
        destruct (CacheManager.get_stale cache key w1) as [[stale_data|e] w4] eqn:Hget;
          simpl in Hstate; subst w4; [|done].
        destruct (truthy stale_data) eqn:Htruthy.
        - intros Hms%(f_equal fst). exists stale_data. split; [|done].
          by eapply settled_on_stale.
        - destruct fetch_error; [done|]. intros Hms%(f_equal fst). exists (JList []). by split. }
      destruct fetch_error as [e|]; apply Hstale.
    - destruct fetch_error as [e|].
      + simpl. intros Hms%(f_equal fst). exists (JList (raw :: raw_models)). by split.
      + simpl truthy. cbv iota.
        destruct (set_returns cache key (JList (raw :: raw_models)) w1) as [fs ->].
        simpl. intros Hms%(f_equal fst). exists (JList (raw :: raw_models)). by split. }
  unfold VeniceClient.fetch_models. fold key.
  destruct (VeniceClient.cache self) as [cache|] eqn:Hcache; [|apply Hlive].
  pose proof (get_state cache key w) as Hstate.
  destruct (CacheManager.get cache key w) as [[[cached_data is_fresh]|e] w1] eqn:Hget;
    simpl in Hstate; subst w1; [|done].
  destruct (truthy cached_data) eqn:Htruthy; [|apply Hlive].
  destruct is_fresh; [|apply Hlive].
  simpl. unfold VeniceClient._parse_cached_models. intros Hms%(f_equal fst).
  exists cached_data. split; [|done]. by eapply settled_on_fresh.
Qed.
End settled.

(** C3, as the code has it: nothing is removed from the result.  The ids
    returned are those of the raw records the fetch settled on, the data
    of the cache or the records gathered from the server, taking those
    that have a non-empty string id, each as many times as it occurs
    there, so that no two entries share an id exactly when no two such
    records do.  In particular, when the cache has no fresh record to use
    and the server answers the request for each partition asked for with
    a catalogue of dict records, not all of them empty, the ids returned
    are those of the catalogues put one after the other: an id comes back
    once for every time a partition lists it. *)
Theorem fetch_models_keeps_repeated_ids `{Builtins} (self : VeniceClient.t)
    (model_type : ModelType) (w : World.t) :
  (∀ w' ms,
     VeniceClient.fetch_models self model_type w = (Ok ms, w') →
     ∃ raw_models items,
       settled_on self model_type w raw_models
       ∧ VeniceClient._parse_models self raw_models model_type = Ok ms
       ∧ py_iter raw_models = Ok items
       ∧ Model.id <$> ms ≡ₚ omap record_id items
       ∧ (NoDup (Model.id <$> ms) ↔ NoDup (omap record_id items)))
  ∧ (∀ records ms,
       (∀ cache, VeniceClient.cache self = Some cache →
                 World.blocked w !! cache_file_of cache model_type = None) →
       (∀ cache cached,
          VeniceClient.cache self = Some cache →
          (CacheManager.get cache ("models_" ++ value model_type) w).1 = Ok (cached, true) →
          truthy cached = false) →
       (∀ i p, partitions model_type !! i = Some p →
               World.net w (length (World.requests w) + i) (models_request self (value p))
               = Responds (catalogue (records p))) →
       (∀ p, Forall (λ r, ∃ d, r = JDict d) (records p)) →
       (∃ p, p ∈ partitions model_type ∧ records p ≠ []) →
       (VeniceClient.fetch_models self model_type w).1 = Ok ms →
       Model.id <$> ms
       ≡ₚ mjoin ((λ p, omap record_id (records p)) <$> partitions model_type)).
Proof.
  split.
  - intros w' ms Hms.
    destruct (fetch_models_settled _ _ _ _ _ Hms) as (raw & Hsettled & Hraw).
    destruct (_parse_models_ids _ _ _ _ Hraw) as (items & Hitems & Hperm).
    exists raw, items. repeat split; try done; by rewrite Hperm.
  - intros records ms Hblocked Hnot_fresh Hnet Hdicts Hsome Hms.
    destruct (fetch_models_answered self model_type w records Hblocked Hnot_fresh Hnet
                Hdicts Hsome) as [Hrun _].
    rewrite Hrun in Hms.
    destruct (_parse_models_ids _ _ _ _ Hms) as (items & [= <-] & ->).
    rewrite omap_mjoin, <- list_fmap_compose.
    assert ((omap record_id ∘ λ p, (annotate_all (value p) (records p)).1)
              <$> partitions model_type
            = (λ p, omap record_id (records p)) <$> partitions model_type) as ->; [|done].
    apply list_fmap_ext. intros i p _. simpl. by apply annotate_all_record_ids.
Qed.

Lemma fetch_models_keeps_repeated_ids_witness :
  let records := [JDict {[ "id" := JStr "m1" ]}; JDict {[ "id" := JStr "m0" ]}] in
  let w := world_facing (serving records) in
  ∃ ms,
    (VeniceClient.fetch_models (H:=ascii_builtins) home_client ALL w).1 = Ok ms
    ∧ Model.id <$> ms ≡ₚ ["m1"; "m0"; "m1"; "m0"; "m1"; "m0"].
Proof.
  intros records w.
  eassert ((VeniceClient.fetch_models (H:=ascii_builtins) home_client ALL w).1 = Ok _)
    as Hrun by (vm_compute; reflexivity).
  eexists. split; [exact Hrun|].
  apply (proj2 (fetch_models_keeps_repeated_ids (H:=ascii_builtins) home_client ALL w)
           (λ _, records) _).
  - intros cache [= <-]. reflexivity.
  - intros cache cached [= <-]. vm_compute. discriminate.
  - intros i p _. reflexivity.
  - intros p. repeat constructor; by eexists.
  - exists TEXT. split; [apply list_elem_of_here|discriminate].
  - exact Hrun.
Defined.
